(** * crypto-chart: the numeric pipeline of [EthChart.tsx] and [CryptoChart.tsx]

    The two React components fetch five price series, min-max normalise them
    row by row and ([EthChart] only) compute a Pearson correlation matrix.
    This file embeds that numeric code and proves properties of it.

    JavaScript numbers are IEEE 754 binary64 values.  The code below is
    written once over an interface [Number] of the operations it uses, and
    is run on [Binary64]: Rocq's primitive floats, which are binary64 with
    round-to-nearest-even, i.e. the numbers the program really computes with. *)

From Stdlib Require Import ZArith Lia String Ascii.
From Stdlib Require Import Floats.
From stdpp Require Import base option list gmap strings.


(** ** JavaScript numbers *)

Class Number (num : Type) : Type := {
  num_zero : num;                      (* the literal 0 *)
  num_half : num;                      (* the literal 0.5 *)
  num_infinity : num;                  (* Infinity *)
  num_nan : num;                       (* NaN *)
  num_opp : num -> num;                (* unary - *)
  num_add : num -> num -> num;
  num_sub : num -> num -> num;
  num_mul : num -> num -> num;
  num_div : num -> num -> num;
  num_strict_eq : num -> num -> bool;  (* === on two numbers *)
  num_lt : num -> num -> bool;         (* < on two numbers *)
  num_isNaN : num -> bool;             (* isNaN *)
  num_sign : num -> bool;              (* the sign bit: tells -0 from +0 *)
  num_of_length : nat -> num;          (* the number held by an array's .length *)
}.

Class MathSqrt (num : Type) : Type := Math_sqrt : num -> num.

Declare Scope js_scope.
Delimit Scope js_scope with js.
Notation "- x" := (num_opp x) : js_scope.
Notation "x + y" := (num_add x y) : js_scope.
Notation "x - y" := (num_sub x y) : js_scope.
Notation "x * y" := (num_mul x y) : js_scope.
Notation "x / y" := (num_div x y) : js_scope.
Notation "x === y" := (num_strict_eq x y) (at level 70, no associativity) : js_scope.
Notation "x <? y" := (num_lt x y) (at level 70, no associativity) : js_scope.

(** [l.forEach((x, i) => ...)] threading an accumulator. *)
Fixpoint forEach_from {A B : Type} (f : B -> nat -> A -> B) (i : nat) (l : list A) (acc : B) : B :=
  match l with
  | [] => acc
  | x :: rest => forEach_from f (S i) rest (f acc i x)
  end.

Definition forEach {A B : Type} (f : B -> nat -> A -> B) (l : list A) (acc : B) : B :=
  forEach_from f 0 l acc.

(** The values a property of a [PriceData] object can hold. *)
Inductive value (num : Type) : Type :=
  | VUndefined
  | VNumber (x : num)
  | VString (s : string).
Arguments VUndefined {num}.
Arguments VNumber {num} x.
Arguments VString {num} s.

(** [interface PriceData]: an object read and written by property name. *)
Abbreviation PriceData num := (gmap string (value num)).

(** ** Exceptions *)

(** The errors the code below can throw, by constructor. *)
Inductive exception : Type := TypeError | RangeError.

(** A computation that returns a value ([inr]) or throws ([inl]). *)
Definition throws (A : Type) : Type := exception + A.

#[global] Instance throws_ret : MRet throws := fun A x => inr x.
#[global] Instance throws_bind : MBind throws :=
  fun A B f x => match x with inl e => inl e | inr a => f a end.

(** Reading a property of [undefined] throws a [TypeError]. *)
Definition or_TypeError {A : Type} (x : option A) : throws A :=
  match x with Some a => inr a | None => inl TypeError end.

Section JavaScript.
Context {num : Type} `{Number num}.
(** The number of arguments the engine can pass in one call; it depends on
    the engine and on the stack that is left. *)
Variable argument_limit : nat.
Local Open Scope js_scope.

(** A number is falsy when it is [0], [-0] or [NaN]. *)
Definition falsy (x : num) : bool := num_isNaN x || (x === num_zero).

(** [v || 0] for [v] a number or [undefined]. *)
Definition or_zero (v : option num) : num :=
  match v with
  | Some x => if falsy x then num_zero else x
  | None => num_zero
  end.

Definition is_neg_zero (x : num) : bool := (x === num_zero) && num_sign x.
Definition is_pos_zero (x : num) : bool := (x === num_zero) && negb (num_sign x).

(** [Math.min(...values)] as ECMAScript defines it: start from [Infinity];
    a NaN argument makes the result NaN; [-0] is smaller than [+0]. *)
Definition min_step (lowest number : num) : num :=
  if num_isNaN lowest then lowest
  else if num_isNaN number then num_nan
  else if is_neg_zero number && is_pos_zero lowest then number
  else if number <? lowest then number
  else lowest.

Definition Math_min (values : list num) : num := fold_left min_step values num_infinity.

(** [Math.max(...values)]: start from [-Infinity]; [+0] is larger than [-0]. *)
Definition max_step (highest number : num) : num :=
  if num_isNaN highest then highest
  else if num_isNaN number then num_nan
  else if is_pos_zero number && is_neg_zero highest then number
  else if highest <? number then number
  else highest.

Definition Math_max (values : list num) : num := fold_left max_step values (- num_infinity).

(** [f(...values)]: the elements of [values] are the arguments of one call,
    and the engine throws a [RangeError] when there are more of them than it
    can pass. *)
Definition spread {A : Type} (f : list num -> A) (values : list num) : throws A :=
  if (length values <=? argument_limit)%nat then mret (f values) else inl RangeError.

(** [l.reduce((a, b) => a + b, 0)] *)
Definition reduce_sum (l : list num) : num := fold_left num_add l num_zero.

(** [y[i]] used as a number: [undefined] converts to NaN. *)
Definition at_index (y : list num) (i : nat) : num := default num_nan (y !! i).

(** [entry[key]] *)
Definition get (entry : PriceData num) (key : string) : value num :=
  default VUndefined (entry !! key).

(** [v || 0] for any value: [undefined], the falsy numbers and the empty
    string give [0]. *)
Definition value_or_zero (v : value num) : value num :=
  match v with
  | VUndefined => VNumber num_zero
  | VNumber x => if falsy x then VNumber num_zero else v
  | VString s => if decide (s = EmptyString) then VNumber num_zero else v
  end.

(** [.filter((value): value is number => typeof value === "number")] *)
Definition numbers_of (l : list (value num)) : list num :=
  omap (fun v => match v with VNumber x => Some x | _ => None end) l.
End JavaScript.

(** What the proofs about [Math.min] and [Math.max] use of the order [<]:
    it is irreflexive and transitive, the two zeros compare alike, and only
    the infinities are not below [Infinity] or above [-Infinity]. *)
Class OrderLaws (num : Type) `{Number num} : Prop := {
  infinity_is_a_number : num_isNaN num_infinity = false;
  neg_infinity_is_a_number : num_isNaN (- num_infinity)%js = false;
  lt_irrefl (x : num) : (x <? x)%js = false;
  lt_trans_lower (x a p : num) :
    (x <? a)%js = true -> (p <? a)%js = false -> (p <? x)%js = false;
  lt_trans_upper (x a p : num) :
    (a <? x)%js = true -> (a <? p)%js = false -> (x <? p)%js = false;
  lt_zero_right (x a p : num) :
    (x === num_zero)%js = true -> (a === num_zero)%js = true -> (p <? x)%js = (p <? a)%js;
  lt_zero_left (x a p : num) :
    (x === num_zero)%js = true -> (a === num_zero)%js = true -> (x <? p)%js = (a <? p)%js;
  not_below_infinity (p : num) :
    num_isNaN p = false -> (p <? num_infinity)%js = false -> p = num_infinity;
  not_above_neg_infinity (p : num) :
    num_isNaN p = false -> (- num_infinity <? p)%js = false -> p = (- num_infinity)%js;
}.

(** ** Strings: [s.slice(0, 3).toLowerCase()] *)

Definition slice (start stop : nat) (s : string) : string := substring start (stop - start) s.

Definition lower_ascii (c : ascii) : ascii :=
  let n := nat_of_ascii c in
  if (65 <=? n)%nat && (n <=? 90)%nat then ascii_of_nat (n + 32) else c.

Fixpoint toLowerCase (s : string) : string :=
  match s with
  | EmptyString => EmptyString
  | String c rest => String (lower_ascii c) (toLowerCase rest)
  end.

(** One element of [results]: [{ coin, prices: result.prices || [] }], the
    prices being [[timestamp, price]] pairs. *)
Record fetched (num : Type) : Type := { coin : string; prices : list (num * num) }.
Arguments coin {num} _.
Arguments prices {num} _.

(** What [Promise.all(promises)] settles to. *)
Inductive settled (num : Type) : Type :=
  | Rejected (message : string)
  | Fulfilled (results : list (fetched num)).
Arguments Rejected {num} message.
Arguments Fulfilled {num} results.

(** ** The fetch layer, the same in both components *)

(** What the [fetch] of a URL comes to: [fetch] or [response.json()] rejects
    with an [Error] of some message, or there is a response, with its [ok]
    flag, its [statusText] and the [prices] property of its JSON body, if the
    body has one. *)
Inductive reply (num : Type) : Type :=
  | Failure (message : string)
  | Response (ok : bool) (statusText : string) (body_prices : option (list (num * num))).
Arguments Failure {num} message.
Arguments Response {num} ok statusText body_prices.

Module Fetch.
Section Code.
Context {num : Type}.
(** The network: the reply to the request of each URL. *)
Variable fetch : string -> reply num.

Definition url (coin : string) : string :=
  ("https://api.coingecko.com/api/v3/coins/" ++ coin
   ++ "/market_chart?vs_currency=usd&days=365")%string.

(** The [async (coin) => ...] mapped over [coins]: the promise it returns is
    rejected with a message ([inl]) or fulfilled with [{ coin, prices }]
    ([inr]). *)
Definition fetchCoin (coin : string) : string + fetched num :=
  match fetch (url coin) with
  | Failure message => inl message
  | Response ok statusText body_prices =>
      if ok then inr {| coin := coin; prices := default [] body_prices |}
      else inl ("Failed to fetch " ++ coin ++ ": " ++ statusText)%string
  end.

Definition rejection (promises : list (string + fetched num)) (i : nat) : option string :=
  match promises !! i with
  | Some (inl message) => Some message
  | _ => None
  end.

(** [Promise.all(promises)], the promises settling in the order [order]: it is
    rejected as soon as one promise is, with that promise's reason, and
    fulfilled with all the values, in the order of [promises], otherwise. *)
Definition Promise_all (order : list nat) (promises : list (string + fetched num))
    : settled num :=
  match omap (rejection promises) order with
  | message :: _ => Rejected message
  | [] => Fulfilled (omap (fun p => match p with inr v => Some v | inl _ => None end) promises)
  end.

(** The prices the reply for a coin brings, read as [result.prices || []]. *)
Definition prices_of (coin : string) : list (num * num) :=
  match fetch (url coin) with
  | Response _ _ body_prices => default [] body_prices
  | Failure _ => []
  end.
End Code.
End Fetch.

(** ** What the components render *)

(** What a component renders: the loading notice, the error notice, or the
    chart of a table. *)
Inductive View (num : Type) : Type :=
  | Loading
  | ErrorView (message : string)
  | Chart (data : list (PriceData num)).
Arguments Loading {num}.
Arguments ErrorView {num} message.
Arguments Chart {num} data.

(** The points of [<Line dataKey=... />]: the chart reads [entry[dataKey]] in
    every row. *)
Definition line_points {num : Type} `{Number num} (data : list (PriceData num)) (dataKey : string)
    : list (value num) :=
  map (fun entry => get entry dataKey) data.

(** ** [EthChart.tsx] *)

Module EthChart.

Definition coins : list string :=
  ["bitcoin"; "ethereum"; "binancecoin"; "solana"; "cardano"]%string.

(** [const coins] local to [calculateCorrelationMatrix]. *)
Definition matrix_coins : list string := ["btc"; "eth"; "bnb"; "sol"; "ada"]%string.

(** The [dataKey]s of the five [<Line />]s of the chart. *)
Definition dataKeys : list string := ["btc"; "eth"; "bnb"; "sol"; "ada"]%string.

(** The component's state ([useState]). *)
Record State (num : Type) : Type := {
  data : list (PriceData num);
  correlationMatrix : list (list num);
  isLoading : bool;
  error : option string;
}.
Arguments data {num} _.
Arguments correlationMatrix {num} _.
Arguments isLoading {num} _.
Arguments error {num} _.

Section Code.
Context {num : Type} `{Number num} `{MathSqrt num}.
(** The number of arguments the engine can pass in one call. *)
Variable argument_limit : nat.
(** [new Date(timestamp).toLocaleDateString()], which depends on the host's
    locale and time zone. *)
Variable toLocaleDateString : num -> string.
(** The message of the [TypeError] the engine raises on [undefined.x]. *)
Variable typeError_message : string.
(** The message of the [RangeError] the engine raises on a call with too many
    arguments. *)
Variable rangeError_message : string.
Local Open Scope js_scope.

Definition pearsonCorrelation (x y : list num) : num :=
  let n := num_of_length (length x) in
  let sumX := reduce_sum x in
  let sumY := reduce_sum y in
  let sumXY := reduce_sum (imap (fun i val => val * at_index y i) x) in
  let sumX2 := reduce_sum (map (fun val => val * val) x) in
  let sumY2 := reduce_sum (map (fun val => val * val) y) in
  let numerator := sumXY - (sumX * sumY) / n in
  let denominator :=
    Math_sqrt ((sumX2 - (sumX * sumX) / n) * (sumY2 - (sumY * sumY) / n)) in
  if denominator === num_zero then num_zero else numerator / denominator.

(** [data.map((entry) => entry[coin] || 0).filter(typeof value === "number")] *)
Definition column (data : list (PriceData num)) (coin : string) : list num :=
  numbers_of (map (fun entry => value_or_zero (get entry coin)) data).

(** [matrix[i][j] = v]; the loops below keep [i] and [j] inside the matrix. *)
Definition set_cell (matrix : list (list num)) (i j : nat) (v : num) : list (list num) :=
  alter (fun row => <[j := v]> row) i matrix.

Definition calculateCorrelationMatrix (data : list (PriceData num)) : list (list num) :=
  let coins := matrix_coins in
  let matrix := replicate (length coins) (replicate (length coins) num_zero) in
  forEach (fun matrix i coinA =>
    forEach (fun matrix j coinB =>
      let pricesA := column data coinA in
      let pricesB := column data coinB in
      set_cell matrix i j (pearsonCorrelation pricesA pricesB))
      coins matrix)
    coins matrix.

Definition minMax (results : list (fetched num)) : throws (list (num * num)) :=
  mapM (fun result =>
          let prices := map snd (prices result) in
          min ← spread argument_limit Math_min prices;
          max ← spread argument_limit Math_max prices;
          mret (min, max)) results.

(** The body of [timestamps.forEach((timestamp, index) => ...)] up to the
    [push]; [None] is a [TypeError]. *)
Definition entry_at (results : list (fetched num)) (minMax : list (num * num))
    (index : nat) (timestamp : num) : option (PriceData num) :=
  forEach (fun (acc : option (PriceData num)) i result =>
    entry ← acc;
    coin_i ← coins !! i;
    let coinKey := toLowerCase (slice 0 3 coin_i) in
    let rawPrice := or_zero (snd <$> prices result !! index) in
    '(min, max) ← minMax !! i;
    let normalized :=
      if max === min then num_half else (rawPrice - min) / (max - min) in
    Some (<[coinKey := VNumber (if num_isNaN normalized then num_zero else normalized)]> entry))
    results
    (Some {[ "date"%string := VString (toLocaleDateString timestamp) ]}).

(** [combinedData] when [timestamps.forEach] is over. *)
Definition combinedData_of (results : list (fetched num)) : throws (list (PriceData num)) :=
  minMax ← minMax results;
  first ← or_TypeError (results !! 0);
  let timestamps := map fst (prices first) in
  or_TypeError
    (mapM (fun '(index, timestamp) => entry_at results minMax index timestamp)
          (imap pair timestamps)).

(** The [try] block after [Promise.all]: the table and the matrix handed to
    [setData] and [setCorrelationMatrix]. *)
Definition fetchData_core (results : list (fetched num))
    : throws (list (PriceData num) * list (list num)) :=
  combinedData ← combinedData_of results;
  mret (combinedData, calculateCorrelationMatrix combinedData).

(** [err.message] in the [catch] block. *)
Definition message_of (err : exception) : string :=
  match err with
  | TypeError => typeError_message
  | RangeError => rangeError_message
  end.

Definition fetchData (outcome : settled num) (s : State num) : State num :=
  (* setIsLoading(true); setError(null) *)
  let s := {| data := data s; correlationMatrix := correlationMatrix s;
              isLoading := true; error := None |} in
  let s :=
    match outcome with
    | Rejected message =>
        {| data := data s; correlationMatrix := correlationMatrix s;
           isLoading := isLoading s; error := Some message |}
    | Fulfilled results =>
        match fetchData_core results with
        | inr (combinedData, matrix) =>
            {| data := combinedData; correlationMatrix := matrix;
               isLoading := isLoading s; error := error s |}
        | inl err =>
            {| data := data s; correlationMatrix := correlationMatrix s;
               isLoading := isLoading s; error := Some (message_of err) |}
        end
    end in
  (* finally: setIsLoading(false) *)
  {| data := data s; correlationMatrix := correlationMatrix s;
     isLoading := false; error := error s |}.

(** The network: the reply to the request of each URL. *)
Variable fetch : string -> reply num.

(** The three [return]s of the component; [if (error)] does not hold for
    [null] nor for the empty string. *)
Definition render (s : State num) : View num :=
  if isLoading s then Loading
  else match error s with
       | Some message =>
           if decide (message = EmptyString) then Chart (data s) else ErrorView message
       | None => Chart (data s)
       end.

(** The effect: the five requests, [Promise.all], then the rest of
    [fetchData]. *)
Definition run (order : list nat) (s : State num) : State num :=
  fetchData
    (Fetch.Promise_all order (map (Fetch.fetchCoin fetch) coins)) s.
End Code.

(** [results] as [coins.map(...)] builds it from the fetched price lists. *)
Definition results_of {num : Type} (prices_of : string -> list (num * num)) : list (fetched num) :=
  map (fun coin => {| coin := coin; prices := prices_of coin |}) coins.

End EthChart.

(** ** [CryptoChart.tsx] (the component with the line chart only) *)

Module CryptoChart.

Definition coins : list string :=
  ["bitcoin"; "ethereum"; "binancecoin"; "solana"; "cardano"]%string.

(** The [dataKey]s of the five [<Line />]s of the chart. *)
Definition dataKeys : list string := ["bit"; "eth"; "bin"; "sol"; "car"]%string.

(** The component's state ([useState]). *)
Record State (num : Type) : Type := {
  data : list (PriceData num);
  isLoading : bool;
  error : option string;
}.
Arguments data {num} _.
Arguments isLoading {num} _.
Arguments error {num} _.

Section Code.
Context {num : Type} `{Number num}.
(** The number of arguments the engine can pass in one call. *)
Variable argument_limit : nat.
Variable toLocaleDateString : num -> string.
Local Open Scope js_scope.

(** An empty price list is replaced by [Array(365).fill(0)]. *)
Definition rawPrices (results : list (fetched num)) : list (list num) :=
  map (fun result =>
         if decide (0 < length (prices result))%nat
         then map snd (prices result)
         else replicate 365 num_zero) results.

(** [prices.filter((p) => p !== 0 && !isNaN(p))] *)
Definition validPrices (prices : list num) : list num :=
  base.filter (fun p => negb (p === num_zero) && negb (num_isNaN p) = true) prices.

Definition minMax (rawPrices : list (list num)) : throws (list (num * num)) :=
  mapM (fun prices =>
          let validPrices := validPrices prices in
          min ← (if decide (0 < length validPrices)%nat
                 then spread argument_limit Math_min validPrices else mret num_zero);
          max ← spread argument_limit Math_max prices;
          mret (min, max)) rawPrices.

Definition entry_at (results : list (fetched num)) (minMax : list (num * num))
    (index : nat) (timestamp : num) : option (PriceData num) :=
  forEach (fun (acc : option (PriceData num)) i result =>
    entry ← acc;
    coin_i ← coins !! i;
    let coinKey := toLowerCase (slice 0 3 coin_i) in
    let rawPrice := or_zero (snd <$> prices result !! index) in
    '(min, max) ← minMax !! i;
    let normalized :=
      if max === min then num_half else (rawPrice - min) / (max - min) in
    Some (<[coinKey := VNumber (if num_isNaN normalized then num_zero else normalized)]> entry))
    results
    (Some {[ "date"%string := VString (toLocaleDateString timestamp) ]}).

(** The [try] block after [Promise.all]: the table handed to [setData]. *)
Definition fetchData_core (results : list (fetched num)) : throws (list (PriceData num)) :=
  let rawPrices := rawPrices results in
  minMax ← minMax rawPrices;
  first ← or_TypeError (results !! 0);
  let timestamps := map fst (prices first) in
  or_TypeError
    (mapM (fun '(index, timestamp) => entry_at results minMax index timestamp)
          (imap pair timestamps)).

(** The message of the [TypeError] the engine raises on [undefined.x]. *)
Variable typeError_message : string.
(** The message of the [RangeError] the engine raises on a call with too many
    arguments. *)
Variable rangeError_message : string.

(** [err.message] in the [catch] block. *)
Definition message_of (err : exception) : string :=
  match err with
  | TypeError => typeError_message
  | RangeError => rangeError_message
  end.
(** The network: the reply to the request of each URL. *)
Variable fetch : string -> reply num.

Definition fetchData (outcome : settled num) (s : State num) : State num :=
  (* setIsLoading(true); setError(null) *)
  let s := {| data := data s; isLoading := true; error := None |} in
  let s :=
    match outcome with
    | Rejected message =>
        {| data := data s; isLoading := isLoading s; error := Some message |}
    | Fulfilled results =>
        match fetchData_core results with
        | inr combinedData =>
            {| data := combinedData; isLoading := isLoading s; error := error s |}
        | inl err =>
            {| data := data s; isLoading := isLoading s; error := Some (message_of err) |}
        end
    end in
  (* finally: setIsLoading(false) *)
  {| data := data s; isLoading := false; error := error s |}.

(** The three [return]s of the component. *)
Definition render (s : State num) : View num :=
  if isLoading s then Loading
  else match error s with
       | Some message =>
           if decide (message = EmptyString) then Chart (data s) else ErrorView message
       | None => Chart (data s)
       end.

(** The effect: the five requests, [Promise.all], then the rest of
    [fetchData]. *)
Definition run (order : list nat) (s : State num) : State num :=
  fetchData (Fetch.Promise_all order (map (Fetch.fetchCoin fetch) coins)) s.
End Code.

Definition results_of {num : Type} (prices_of : string -> list (num * num)) : list (fetched num) :=
  map (fun coin => {| coin := coin; prices := prices_of coin |}) coins.

End CryptoChart.

(** ** The number system *)

(** IEEE 754 binary64, the numbers of JavaScript. *)
Module Binary64.

(** An array length is an integer below [2^32], which binary64 holds exactly. *)
Definition of_length (n : nat) : float := of_uint63 (Uint63.of_Z (Z.of_nat n)).

#[global] Instance number : Number float := {|
  num_zero := 0%float;
  num_half := 0.5%float;
  num_infinity := infinity;
  num_nan := nan;
  num_opp := PrimFloat.opp;
  num_add := PrimFloat.add;
  num_sub := PrimFloat.sub;
  num_mul := PrimFloat.mul;
  num_div := PrimFloat.div;
  num_strict_eq := PrimFloat.eqb;
  num_lt := PrimFloat.ltb;
  num_isNaN := is_nan;
  num_sign := get_sign;
  num_of_length := of_length;
|}.

#[global] Instance math_sqrt : MathSqrt float := PrimFloat.sqrt.

(** [SFcompare] is the lexicographic comparison of these keys: sign class,
    then exponent, then mantissa. *)
Definition key (x : spec_float) : Z * Z * Z :=
  match x with
  | S754_nan => (0, 0, 0)
  | S754_zero _ => (0, 0, 0)
  | S754_infinity s => (if s then -2 else 2, 0, 0)
  | S754_finite s m e => if s then (-1, - e, - Z.pos m) else (1, e, Z.pos m)
  end%Z.

Definition lex (a b : Z * Z * Z) : comparison :=
  let '(a1, a2, a3) := a in
  let '(b1, b2, b3) := b in
  match (a1 ?= b1)%Z with
  | Eq => match (a2 ?= b2)%Z with Eq => (a3 ?= b3)%Z | c => c end
  | c => c
  end.

Definition is_nan_sf (x : spec_float) : bool :=
  match x with S754_nan => true | _ => false end.

(** *** Rounding, in integers *)

Local Open Scope Z_scope.

(** The record [(m, r, s)] reached after shifting [N] right by [k] bits: [m] is
    the quotient, [r] tells whether the remainder is at least half, [s] whether
    anything is left besides. *)
Definition shifted (N : Z) (k : Z) : shr_record :=
  let rem := N mod 2 ^ k in
  {| shr_m := N / 2 ^ k;
     shr_r := bool_decide (2 ^ (k - 1) <= rem);
     shr_s := bool_decide (rem <> 0 /\ rem <> 2 ^ (k - 1)) |}.

(** The mantissa after shifting right by [k] and rounding. *)
Definition rne (N k : Z) : Z :=
  round_nearest_even (shr_m (shifted N k)) (loc_of_shr_record (shifted N k)).

(** The exponent of the smallest positive binary64 number. *)
Abbreviation emin := (-1074) (only parsing).

(** The result of rounding, as a mantissa and an exponent, before the overflow
    test. *)
Definition finish (s : bool) (m e : Z) : spec_float :=
  match m with
  | Z0 => S754_zero s
  | Zpos p => if e <=? emax - prec then S754_finite s p e else S754_infinity s
  | Zneg _ => S754_nan
  end.

(** The value, in units of [2^emin], that a non-negative number of units is
    rounded to. *)
Definition rn (N : Z) : Z :=
  if decide (Zdigits2 N <= 53) then N else rne N (Zdigits2 N - 53) * 2 ^ (Zdigits2 N - 53).

(** The number [m * 2^e] counted in units of [2^emin], the smallest positive
    binary64 number. *)
Definition units (m e : Z) : Z := m * 2 ^ (e - emin).

(** The number of units of [2^emin] in a finite non-negative number; 0 for
    every other number. *)
Definition sf_units (x : spec_float) : Z :=
  match x with
  | S754_finite false m e => units (Z.pos m) e
  | _ => 0
  end.

Definition float_units (x : float) : Z := sf_units (Prim2SF x).

(** A finite number that is not negative: a zero of either sign or a positive
    finite number. *)
Definition nonneg_finite (x : float) : bool :=
  match Prim2SF x with
  | S754_zero _ | S754_finite false _ _ => true
  | _ => false
  end.

(** The shape of a mantissa and exponent in canonical form. *)
Definition canonical (m e : Z) : Prop :=
  0 < m < 2 ^ 53 /\ emin <= e <= 971 /\ (e = emin \/ 2 ^ 52 <= m).

(** The number of units of [2^emin] in the absolute value of a finite number;
    0 for every other number. *)
Definition sf_mag (x : spec_float) : Z :=
  match x with
  | S754_finite _ m e => units (Z.pos m) e
  | _ => 0
  end.

(** [float_mag] of a number: its absolute value in units. *)
Definition float_mag (x : float) : Z := sf_mag (Prim2SF x).

(** The same with the sign: the number itself, counted in units. *)
Definition sf_signed (x : spec_float) : Z :=
  match x with
  | S754_finite s m e => cond_Zopp s (units (Z.pos m) e)
  | _ => 0
  end.

(** [float_signed] of a number: its value in units. *)
Definition float_signed (x : float) : Z := sf_signed (Prim2SF x).

(** A zero or a finite number of either sign. *)
Definition sf_finite (x : spec_float) : bool :=
  match x with
  | S754_zero _ | S754_finite _ _ _ => true
  | _ => false
  end.

(** A result of rounding, read back. *)
Definition rounded (m e : Z) : Prop :=
  0 <= m < 2 ^ 53 /\ emin <= e /\ (m = 0 \/ e = emin \/ 2 ^ 52 <= m).

(** A finite number of absolute value at most [2^K]. *)
Definition bounded (K : Z) (x : float) : Prop :=
  is_finite x = true /\ float_mag x <= 2 ^ (K - emin).
End Binary64.

(** ** Reading the table *)

Section Reading.
Context {num : Type} `{Number num}.
Local Open Scope js_scope.

(** The property name a coin is stored under. *)
Definition coinKey (coin : string) : string := toLowerCase (slice 0 3 coin).

(** [table[index][key]] *)
Definition cell_of (table : list (PriceData num)) (index : nat) (key : string)
    : option (value num) :=
  entry ← table !! index; entry !! key.

(** The expression stored by [entry[coinKey] = ...]. *)
Definition normalize (rawPrice min max : num) : num :=
  let normalized := if max === min then num_half else (rawPrice - min) / (max - min) in
  if num_isNaN normalized then num_zero else normalized.

(** The row both components build at [index], given each coin's [{min, max}]. *)
Definition row_of (minMax_of : string -> num * num) (prices_of : string -> list (num * num))
    (date : string) (index : nat) : PriceData num :=
  foldl (fun entry coin =>
           <[coinKey coin := VNumber (normalize (or_zero (snd <$> prices_of coin !! index))
                                                (fst (minMax_of coin)) (snd (minMax_of coin)))]> entry)
        {[ "date"%string := VString date ]} EthChart.coins.

(** [{min, max}] of one series in [EthChart]. *)
Definition EthChart_minMax_of (prices_of : string -> list (num * num)) (coin : string) : num * num :=
  let prices := map snd (prices_of coin) in (Math_min prices, Math_max prices).

(** [{min, max}] of one series in [CryptoChart]. *)
Definition CryptoChart_minMax_of (prices_of : string -> list (num * num)) (coin : string) : num * num :=
  let prices := if decide (0 < length (prices_of coin))%nat
                then map snd (prices_of coin) else replicate 365 num_zero in
  let validPrices := CryptoChart.validPrices prices in
  (if decide (0 < length validPrices)%nat then Math_min validPrices else num_zero,
   Math_max prices).
End Reading.

(** [matrix[i][j]] *)
Definition matrix_entry {num : Type} (matrix : list (list num)) (i j : nat) : option num :=
  row ← matrix !! i; row !! j.

(** [interface PriceData] declares [btc], [eth], [bnb], [sol] and [ada] as
    optional numbers: such a property is never a string. *)
Definition declared_number {num : Type} (entry : PriceData num) (key : string) : Prop :=
  forall s, entry !! key <> Some (VString s).

Definition well_typed {num : Type} (data : list (PriceData num)) : Prop :=
  Forall (fun entry => Forall (declared_number entry) EthChart.matrix_coins) data.

(** The variance term [sum2 - (sum * sum) / n] that [pearsonCorrelation] forms
    for each column. *)
Definition variance_term {num : Type} `{Number num} (n : num) (column : list num) : num :=
  let sum := reduce_sum column in
  let sum2 := reduce_sum (map (fun val => val * val)%js column) in
  (sum2 - (sum * sum) / n)%js.



(** The two components side by side. *)
Inductive component : Type := Eth | Crypto.

Section Components.
Context {num : Type} `{Number num}.
Variable argument_limit : nat.
Variable toLocaleDateString : num -> string.

(** The [minMax] array of a component. *)
Definition minMax_table (comp : component) (prices_of : string -> list (num * num))
    : throws (list (num * num)) :=
  match comp with
  | Eth => EthChart.minMax argument_limit (EthChart.results_of prices_of)
  | Crypto => CryptoChart.minMax argument_limit
                (CryptoChart.rawPrices (CryptoChart.results_of prices_of))
  end.

(** [minMax[i]] in a run of the component that has built [minMax]. *)
Definition minMax_entry (comp : component) (prices_of : string -> list (num * num)) (i : nat)
    : option (num * num) :=
  match minMax_table comp prices_of with
  | inr minMax => minMax !! i
  | inl _ => None
  end.

(** The arrays a component spreads into the arguments of [Math.max]: the
    prices of each series in [EthChart], the [rawPrices] in [CryptoChart]. *)
Definition spread_arrays (comp : component) (prices_of : string -> list (num * num))
    : list (list num) :=
  match comp with
  | Eth => map (fun result => map snd (prices result)) (EthChart.results_of prices_of)
  | Crypto => CryptoChart.rawPrices (CryptoChart.results_of prices_of)
  end.

(** None of these arrays is longer than the engine can pass in one call. *)
Definition within_limit (comp : component) (prices_of : string -> list (num * num)) : bool :=
  forallb (fun prices => (length prices <=? argument_limit)%nat) (spread_arrays comp prices_of).

(** The prices a component takes the minimum over: all of them in [EthChart],
    the [validPrices] in [CryptoChart]. *)
Definition counted_for_min (comp : component) (prices : list num) : list num :=
  match comp with
  | Eth => prices
  | Crypto => CryptoChart.validPrices prices
  end.

(** The table a component hands to [setData]. *)
Definition table_of (comp : component) (prices_of : string -> list (num * num))
    : throws (list (PriceData num)) :=
  match comp with
  | Eth => EthChart.combinedData_of argument_limit toLocaleDateString
             (EthChart.results_of prices_of)
  | Crypto => CryptoChart.fetchData_core argument_limit toLocaleDateString
                (CryptoChart.results_of prices_of)
  end.

Definition minMax_of (comp : component) : (string -> list (num * num)) -> string -> num * num :=
  match comp with
  | Eth => EthChart_minMax_of
  | Crypto => CryptoChart_minMax_of
  end.
End Components.

(** ** Sample inputs *)

Module Samples.

(** A series with timestamps 0, 1, 2, ... *)
Definition series (prices : list float) : list (float * float) :=
  imap (fun i price => (Binary64.of_length i, price)) prices.

Definition sample_prices (coin : string) : list (float * float) :=
  if decide (coin = "bitcoin"%string) then series [1; 2; 4]%float
  else if decide (coin = "ethereum"%string) then series [0; 50; 100]%float
  else if decide (coin = "binancecoin"%string) then series [7; 7; 7]%float
  else if decide (coin = "solana"%string) then series [10; 10; 10]%float
  else series [3; 1; 2]%float.

(** The same five series, with only two prices for cardano. *)
Definition short_prices (coin : string) : list (float * float) :=
  if decide (coin = "cardano"%string) then series [3; 1]%float else sample_prices coin.

(** Seven rows in which ethereum has the same price, its last two prices lying
    beyond the rows of the table. *)
Definition level_prices (coin : string) : list (float * float) :=
  if decide (coin = "bitcoin"%string) then series [1; 2; 3; 4; 5; 6; 7]%float
  else if decide (coin = "ethereum"%string) then series [1; 1; 1; 1; 1; 1; 1; 0; 10]%float
  else if decide (coin = "solana"%string) then series [1; 3; 2; 5; 4; 7; 6]%float
  else series [7; 7; 7]%float.


Definition no_date (timestamp : float) : string := EmptyString.

(** An engine that passes up to 65535 arguments in one call. *)
Definition argument_limit : nat := Z.to_nat 65535.

(** The messages of the engine's errors. *)
Definition typeError_message : string := "Cannot read properties of undefined".
Definition rangeError_message : string := "Maximum call stack size exceeded".

(** Two rows as [EthChart] builds them, written out. *)
Definition sample_table : list (PriceData float) :=
  [ {[ "date"%string := VString "1/1/2025"; "bit"%string := VNumber 0%float;
       "eth"%string := VNumber 0%float; "sol"%string := VNumber 1%float ]};
    {[ "date"%string := VString "1/2/2025"; "bit"%string := VNumber 1%float;
       "eth"%string := VNumber 1%float; "sol"%string := VNumber 0%float ]} ].

(** A network that answers every coin of [coins] with its sample series. *)
Definition network (url : string) : reply float :=
  match list_find (fun c => url = Fetch.url c) EthChart.coins with
  | Some (_, c) => Response true "OK" (Some (sample_prices c))
  | None => Failure "Failed to fetch"
  end.

(** The same network, refusing the request for ethereum. *)
Definition limited_network (url : string) : reply float :=
  if decide (url = Fetch.url "ethereum") then Response false "Too Many Requests" None
  else network url.

(** The same network, with one more price for ethereum than the engine can pass
    in one call. *)
Definition long_network (url : string) : reply float :=
  if decide (url = Fetch.url "ethereum")
  then Response true "OK" (Some (replicate (S argument_limit) (0, 1)%float))
  else network url.

(** A state with a table loaded, of each component. *)
Definition loaded : EthChart.State float :=
  {| EthChart.data := sample_table; EthChart.correlationMatrix := [];
     EthChart.isLoading := false; EthChart.error := None |}.

Definition loaded' : CryptoChart.State float :=
  {| CryptoChart.data := sample_table; CryptoChart.isLoading := false; CryptoChart.error := None |}.

(** The sample series with a NaN among the prices of solana. *)
Definition nan_prices (coin : string) : list (float * float) :=
  if decide (coin = "solana"%string) then series [10; nan; 30]%float
  else sample_prices coin.

(** The sample series with no prices for cardano. *)
Definition empty_prices (coin : string) : list (float * float) :=
  if decide (coin = "cardano"%string) then [] else sample_prices coin.

(** The sample series with the 0 price of ethereum replaced. *)
Definition positive_prices (coin : string) : list (float * float) :=
  if decide (coin = "ethereum"%string) then series [25; 50; 100]%float
  else sample_prices coin.
End Samples.

(** * Properties *)

Lemma lookup_map {A B : Type} (f : A -> B) (l : list A) (i : nat) :
  map f l !! i = f <$> l !! i.
Proof. revert i. induction l as [|x l IH]; intros [|i]; cbn; auto. Qed.

Section Rows.
Context {num : Type} `{Number num}.
Variable toLocaleDateString : num -> string.

Lemma mapM_imap_Some {A B C : Type} (g : nat -> A -> C) (f : C -> option B) (h : nat -> A -> B)
    (l : list A) :
  (forall i x, f (g i x) = Some (h i x)) ->
  mapM f (imap g l) = Some (imap h l).
Proof.
  intros Hf. revert g h Hf. induction l as [|x l IH]; intros g h Hf; [done|].
  cbn. rewrite Hf. cbn. rewrite (IH (g ∘ S) (h ∘ S)); [done|].
  intros i y. apply Hf.
Qed.

(** A spread call returns what the function returns, or throws a
    [RangeError]. *)
Lemma spread_eq {A : Type} (limit : nat) (f : list num -> A) (values : list num) :
  spread limit f values
  = if (length values <=? limit)%nat then inr (f values) else inl RangeError.
Proof. reflexivity. Qed.

Lemma mapM_throws_cons {A B : Type} (f : A -> throws B) (x : A) (l : list A) :
  mapM f (x :: l)
  = match f x with
    | inl e => inl e
    | inr y => match mapM f l with inl e => inl e | inr k => inr (y :: k) end
    end.
Proof. reflexivity. Qed.

(** [minMax] of [CryptoChart] is built when no array is longer than the engine
    can pass, and a [RangeError] is thrown otherwise. *)
Lemma CryptoChart_minMax_eq (limit : nat) (rawPrices : list (list num)) :
  CryptoChart.minMax limit rawPrices
  = if forallb (fun prices => (length prices <=? limit)%nat) rawPrices
    then inr (map (fun prices =>
                     (if decide (0 < length (CryptoChart.validPrices prices))%nat
                      then Math_min (CryptoChart.validPrices prices) else num_zero,
                      Math_max prices)) rawPrices)
    else inl RangeError.
Proof.
  unfold CryptoChart.minMax. induction rawPrices as [|prices rest IH]; [done|].
  rewrite mapM_throws_cons, IH. cbn [forallb map]. rewrite !spread_eq.
  destruct (length prices <=? limit)%nat eqn:Hfits; cbn [andb].
  - assert ((length (CryptoChart.validPrices prices) <=? limit)%nat = true) as Hvalid.
    { apply Nat.leb_le. apply Nat.leb_le in Hfits.
      pose proof (length_filter (fun p => negb (p === num_zero)%js && negb (num_isNaN p) = true)
                                prices) as Hle.
      unfold CryptoChart.validPrices. lia. }
    rewrite Hvalid.
    destruct (decide (0 < length (CryptoChart.validPrices prices))%nat);
      cbn; by destruct (forallb _ rest).
  - destruct (decide (0 < length (CryptoChart.validPrices prices))%nat);
      [destruct (length (CryptoChart.validPrices prices) <=? limit)%nat|]; reflexivity.
Qed.

Lemma CryptoChart_entry_at prices_of index timestamp :
  CryptoChart.entry_at toLocaleDateString (CryptoChart.results_of prices_of)
    (map (CryptoChart_minMax_of prices_of) CryptoChart.coins)
    index timestamp
  = Some (row_of (CryptoChart_minMax_of prices_of) prices_of
            (toLocaleDateString timestamp) index).
Proof. reflexivity. Qed.

(** The table [CryptoChart] hands to [setData], or the [RangeError] of a
    series that is too long; no [TypeError] is raised on the way. *)
Lemma CryptoChart_table limit prices_of :
  CryptoChart.fetchData_core limit toLocaleDateString (CryptoChart.results_of prices_of)
  = if within_limit limit Crypto prices_of
    then inr (imap (fun index timestamp =>
                      row_of (CryptoChart_minMax_of prices_of) prices_of
                             (toLocaleDateString timestamp) index)
                   (map fst (prices_of "bitcoin"%string)))
    else inl RangeError.
Proof.
  unfold CryptoChart.fetchData_core. cbv zeta. rewrite CryptoChart_minMax_eq.
  unfold within_limit. cbn [spread_arrays].
  destruct (forallb _ _); [|reflexivity].
  cbn [CryptoChart.results_of CryptoChart.coins map lookup list_lookup mbind throws_bind
       or_TypeError prices].
  change (CryptoChart.rawPrices _)
    with (CryptoChart.rawPrices (CryptoChart.results_of prices_of)).
  erewrite mapM_imap_Some; [reflexivity|]. intros i x. apply CryptoChart_entry_at.
Qed.
End Rows.

Section RowLookup.
Context {num : Type} `{Number num} `{MathSqrt num}.
Variable toLocaleDateString : num -> string.
Variable typeError_message : string.

(** [minMax] of [EthChart] is built when no series is longer than the engine
    can pass, and a [RangeError] is thrown otherwise. *)
Lemma EthChart_minMax_eq (limit : nat) (results : list (fetched num)) :
  EthChart.minMax limit results
  = if forallb (fun prices => (length prices <=? limit)%nat)
               (map (fun result => map snd (prices result)) results)
    then inr (map (fun result => (Math_min (map snd (prices result)),
                                  Math_max (map snd (prices result)))) results)
    else inl RangeError.
Proof.
  unfold EthChart.minMax. induction results as [|result rest IH]; [done|].
  rewrite mapM_throws_cons, IH. cbn [forallb map]. rewrite !spread_eq.
  destruct (length (map snd (prices result)) <=? limit)%nat; cbn; [|reflexivity].
  by destruct (forallb _ _).
Qed.

Lemma EthChart_entry_at prices_of index timestamp :
  EthChart.entry_at toLocaleDateString (EthChart.results_of prices_of)
    (map (EthChart_minMax_of prices_of) EthChart.coins) index timestamp
  = Some (row_of (EthChart_minMax_of prices_of) prices_of
            (toLocaleDateString timestamp) index).
Proof. reflexivity. Qed.

(** The table [EthChart] hands to [setData]: one row per timestamp of the first
    series, or the [RangeError] of a series that is too long; no [TypeError] is
    raised on the way. *)
Lemma EthChart_combinedData limit prices_of :
  EthChart.combinedData_of limit toLocaleDateString (EthChart.results_of prices_of)
  = if within_limit limit Eth prices_of
    then inr (imap (fun index timestamp =>
                      row_of (EthChart_minMax_of prices_of) prices_of
                             (toLocaleDateString timestamp) index)
                   (map fst (prices_of "bitcoin"%string)))
    else inl RangeError.
Proof.
  unfold EthChart.combinedData_of. rewrite EthChart_minMax_eq.
  unfold within_limit. cbn [spread_arrays].
  destruct (forallb _ _); [|reflexivity].
  cbn [EthChart.results_of EthChart.coins map lookup list_lookup mbind throws_bind
       or_TypeError prices].
  erewrite mapM_imap_Some; [reflexivity|]. intros i x. apply EthChart_entry_at.
Qed.

Lemma EthChart_table limit prices_of :
  let table := imap (fun index timestamp =>
                       row_of (EthChart_minMax_of prices_of) prices_of
                              (toLocaleDateString timestamp) index)
                    (map fst (prices_of "bitcoin"%string)) in
  EthChart.fetchData_core limit toLocaleDateString (EthChart.results_of prices_of)
  = if within_limit limit Eth prices_of
    then inr (table, EthChart.calculateCorrelationMatrix table)
    else inl RangeError.
Proof.
  intros table. unfold EthChart.fetchData_core. rewrite EthChart_combinedData.
  by destruct (within_limit _ _ _).
Qed.

Lemma coinKey_coins :
  map coinKey EthChart.coins = ["bit"; "eth"; "bin"; "sol"; "car"]%string.
Proof. reflexivity. Qed.

Lemma coins_cases (i : nat) (c : string) :
  EthChart.coins !! i = Some c ->
  c = "bitcoin"%string \/ c = "ethereum"%string \/ c = "binancecoin"%string
  \/ c = "solana"%string \/ c = "cardano"%string.
Proof.
  unfold EthChart.coins. intros Hc.
  do 5 (destruct i as [|i]; [injection Hc as <-; tauto|]). discriminate.
Qed.

(** Every coin has its own property in the row, holding its normalised price. *)
Lemma row_of_lookup minMax_of prices_of date index i c :
  EthChart.coins !! i = Some c ->
  row_of minMax_of prices_of date index !! coinKey c
  = Some (VNumber (normalize (or_zero (snd <$> prices_of c !! index))
                             (fst (minMax_of c)) (snd (minMax_of c)))).
Proof.
  intros Hc. unfold row_of. cbn [foldl EthChart.coins].
  change (coinKey "bitcoin") with "bit"%string.
  change (coinKey "ethereum") with "eth"%string.
  change (coinKey "binancecoin") with "bin"%string.
  change (coinKey "solana") with "sol"%string.
  change (coinKey "cardano") with "car"%string.
  destruct (coins_cases _ _ Hc) as [->|[->|[->|[->| ->]]]];
    match goal with |- context [coinKey ?s] =>
      let k := eval vm_compute in (coinKey s) in change (coinKey s) with k end;
    repeat (rewrite lookup_insert_ne by done);
    by rewrite lookup_insert_eq.
Qed.

(** The rows have no property under the names the correlation code reads,
    except ["eth"] and ["sol"]. *)
Lemma row_of_lookup_absent minMax_of prices_of date index key :
  key ∈ ["btc"; "bnb"; "ada"]%string ->
  row_of minMax_of prices_of date index !! key = None.
Proof.
  intros Hk. unfold row_of. cbn [foldl EthChart.coins].
  change (coinKey "bitcoin") with "bit"%string.
  change (coinKey "ethereum") with "eth"%string.
  change (coinKey "binancecoin") with "bin"%string.
  change (coinKey "solana") with "sol"%string.
  change (coinKey "cardano") with "car"%string.
  set_unfold in Hk. destruct Hk as [->|[->|[->|[]]]];
    repeat (rewrite lookup_insert_ne by done); by rewrite lookup_singleton_ne.
Qed.

(** Each row respects the declaration of [PriceData]. *)
Lemma row_of_declared minMax_of prices_of date index :
  Forall (declared_number (row_of minMax_of prices_of date index)) EthChart.matrix_coins.
Proof.
  pose proof (row_of_lookup minMax_of prices_of date index 1 "ethereum"%string eq_refl) as Heth.
  pose proof (row_of_lookup minMax_of prices_of date index 3 "solana"%string eq_refl) as Hsol.
  change (coinKey "ethereum") with "eth"%string in Heth.
  change (coinKey "solana") with "sol"%string in Hsol.
  unfold EthChart.matrix_coins, declared_number.
  repeat constructor; intros s; rewrite ?Heth, ?Hsol, ?row_of_lookup_absent;
    try done; set_solver.
Qed.

Lemma Forall_imap_intro {A B : Type} (P : B -> Prop) (f : nat -> A -> B) (l : list A) :
  (forall i x, P (f i x)) -> Forall P (imap f l).
Proof.
  revert f. induction l as [|x l IH]; intros f HP; cbn [imap]; constructor; [apply HP|].
  apply IH. intros i y. apply HP.
Qed.
End RowLookup.

Section Tables.
Context {num : Type} `{Number num}.
Variable toLocaleDateString : num -> string.

Variable limit : nat.

(** The [minMax] array of a component, or the [RangeError] of a series that is
    too long. *)
Lemma minMax_table_eq comp prices_of :
  minMax_table limit comp prices_of
  = if within_limit limit comp prices_of
    then inr (map (minMax_of comp prices_of) EthChart.coins)
    else inl RangeError.
Proof.
  destruct comp; cbn [minMax_table minMax_of].
  - by rewrite EthChart_minMax_eq.
  - by rewrite CryptoChart_minMax_eq.
Qed.

Lemma minMax_entry_lookup comp prices_of i c :
  within_limit limit comp prices_of = true ->
  EthChart.coins !! i = Some c ->
  minMax_entry limit comp prices_of i = Some (minMax_of comp prices_of c).
Proof.
  intros Hfits Hc. unfold minMax_entry. rewrite minMax_table_eq, Hfits.
  by rewrite lookup_map, Hc.
Qed.

(** An entry of [minMax] can only be read in a run that has built [minMax]. *)
Lemma minMax_entry_inv comp prices_of i c mm :
  EthChart.coins !! i = Some c ->
  minMax_entry limit comp prices_of i = Some mm ->
  within_limit limit comp prices_of = true /\ mm = minMax_of comp prices_of c.
Proof.
  intros Hc. unfold minMax_entry. rewrite minMax_table_eq.
  destruct (within_limit limit comp prices_of); [|done].
  rewrite lookup_map, Hc. cbn. intros [= <-]. done.
Qed.

Lemma table_of_eq comp prices_of :
  within_limit limit comp prices_of = true ->
  table_of limit toLocaleDateString comp prices_of
  = inr (imap (fun index timestamp =>
                 row_of (minMax_of comp prices_of) prices_of
                        (toLocaleDateString timestamp) index)
              (map fst (prices_of "bitcoin"%string))).
Proof.
  intros Hfits. destruct comp; cbn [table_of minMax_of].
  - by rewrite EthChart_combinedData, Hfits.
  - by rewrite CryptoChart_table, Hfits.
Qed.

(** A series that is too long ends the run in a [RangeError]. *)
Lemma table_of_beyond comp prices_of :
  within_limit limit comp prices_of = false ->
  table_of limit toLocaleDateString comp prices_of = inl RangeError.
Proof.
  intros Hfits. destruct comp; cbn [table_of minMax_of].
  - by rewrite EthChart_combinedData, Hfits.
  - by rewrite CryptoChart_table, Hfits.
Qed.

(** Reading the normalised price of coin [c] at row [index]. *)
Lemma table_cell comp prices_of i c index :
  within_limit limit comp prices_of = true ->
  EthChart.coins !! i = Some c ->
  (index < length (prices_of "bitcoin"%string))%nat ->
  exists table,
    table_of limit toLocaleDateString comp prices_of = inr table
    /\ length table = length (prices_of "bitcoin"%string)
    /\ cell_of table index (coinKey c)
       = Some (VNumber (normalize (or_zero (snd <$> prices_of c !! index))
                                  (fst (minMax_of comp prices_of c))
                                  (snd (minMax_of comp prices_of c)))).
Proof.
  intros Hfits Hc Hlt. eexists. split; [by apply table_of_eq|]. split.
  - by rewrite length_imap, length_map.
  - unfold cell_of. rewrite list_lookup_imap.
    destruct (lookup_lt_is_Some_2 (map fst (prices_of "bitcoin"%string)) index) as [ts ->].
    { by rewrite length_map. }
    cbn. by apply (row_of_lookup _ _ _ _ i).
Qed.
End Tables.

(** ** [Math.min] and [Math.max] *)

Section MinMax.
Context {num : Type} `{OrderLaws num}.
Local Open Scope js_scope.

Lemma min_step_invariant (seen : list num) (acc x : num) :
  num_isNaN acc = false -> num_isNaN x = false ->
  Forall (fun p => (p <? acc) = false) seen ->
  num_isNaN (min_step acc x) = false
  /\ Forall (fun p => (p <? min_step acc x) = false) (seen ++ [x])
  /\ (min_step acc x = acc \/ min_step acc x = x).
Proof.
  intros Hacc Hx Hseen. unfold min_step. rewrite Hacc, Hx.
  destruct (is_neg_zero x && is_pos_zero acc) eqn:Hzero.
  - apply andb_true_iff in Hzero as [[Hx0 _]%andb_true_iff [Ha0 _]%andb_true_iff].
    split; [done|]. split; [|by right].
    apply Forall_app. split; [|by repeat constructor; apply lt_irrefl].
    eapply Forall_impl; [exact Hseen|]. intros p Hp. cbn in Hp.
    by rewrite (lt_zero_right x acc p).
  - destruct (x <? acc) eqn:Hlt.
    + split; [done|]. split; [|by right].
      apply Forall_app. split; [|by repeat constructor; apply lt_irrefl].
      eapply Forall_impl; [exact Hseen|]. intros p Hp. cbn in Hp.
      by apply (lt_trans_lower x acc p).
    + split; [done|]. split; [|by left].
      apply Forall_app. split; [done|]. by repeat constructor.
Qed.

Lemma fold_min_invariant (values seen : list num) (acc : num) :
  num_isNaN acc = false ->
  Forall (fun p => num_isNaN p = false) values ->
  Forall (fun p => (p <? acc) = false) seen ->
  num_isNaN (fold_left min_step values acc) = false
  /\ Forall (fun p => (p <? fold_left min_step values acc) = false) (seen ++ values)
  /\ (fold_left min_step values acc = acc \/ fold_left min_step values acc ∈ values).
Proof.
  revert seen acc. induction values as [|x values IH]; intros seen acc Hacc Hvalues Hseen.
  - cbn. rewrite app_nil_r. auto.
  - apply Forall_cons in Hvalues as [Hx Hvalues]. cbn [fold_left].
    destruct (min_step_invariant seen acc x Hacc Hx Hseen) as (Hnan & Hall & Hwhich).
    destruct (IH (seen ++ [x]) (min_step acc x) Hnan Hvalues Hall) as (Hnan' & Hall' & Hwhich').
    split; [done|]. split; [by rewrite <- app_assoc in Hall'|].
    destruct Hwhich' as [->|Hin]; [|right; by apply elem_of_cons; right].
    destruct Hwhich as [->| ->]; [by left|right; apply elem_of_cons; by left].
Qed.

(** [Math.min] of a non-empty list without NaN is one of its elements and no
    element is below it. *)
Lemma Math_min_spec (values : list num) :
  values <> [] -> Forall (fun p => num_isNaN p = false) values ->
  num_isNaN (Math_min values) = false
  /\ Math_min values ∈ values
  /\ Forall (fun p => (p <? Math_min values) = false) values.
Proof.
  intros Hne Hvalues. unfold Math_min.
  destruct (fold_min_invariant values [] num_infinity infinity_is_a_number Hvalues)
    as (Hnan & Hall & Hwhich); [done|].
  split; [done|]. split; [|done].
  destruct Hwhich as [Hinf|Hin]; [|done].
  destruct values as [|x values]; [done|]. rewrite Hinf in *.
  apply Forall_cons in Hall as [Hx _]. apply Forall_cons in Hvalues as [Hxn _].
  rewrite <- (not_below_infinity x Hxn Hx). by left.
Qed.

Lemma max_step_invariant (seen : list num) (acc x : num) :
  num_isNaN acc = false -> num_isNaN x = false ->
  Forall (fun p => (acc <? p) = false) seen ->
  num_isNaN (max_step acc x) = false
  /\ Forall (fun p => (max_step acc x <? p) = false) (seen ++ [x])
  /\ (max_step acc x = acc \/ max_step acc x = x).
Proof.
  intros Hacc Hx Hseen. unfold max_step. rewrite Hacc, Hx.
  destruct (is_pos_zero x && is_neg_zero acc) eqn:Hzero.
  - apply andb_true_iff in Hzero as [[Hx0 _]%andb_true_iff [Ha0 _]%andb_true_iff].
    split; [done|]. split; [|by right].
    apply Forall_app. split; [|by repeat constructor; apply lt_irrefl].
    eapply Forall_impl; [exact Hseen|]. intros p Hp. cbn in Hp.
    by rewrite (lt_zero_left x acc p).
  - destruct (acc <? x) eqn:Hlt.
    + split; [done|]. split; [|by right].
      apply Forall_app. split; [|by repeat constructor; apply lt_irrefl].
      eapply Forall_impl; [exact Hseen|]. intros p Hp. cbn in Hp.
      by apply (lt_trans_upper x acc p).
    + split; [done|]. split; [|by left].
      apply Forall_app. split; [done|]. by repeat constructor.
Qed.

Lemma fold_max_invariant (values seen : list num) (acc : num) :
  num_isNaN acc = false ->
  Forall (fun p => num_isNaN p = false) values ->
  Forall (fun p => (acc <? p) = false) seen ->
  num_isNaN (fold_left max_step values acc) = false
  /\ Forall (fun p => (fold_left max_step values acc <? p) = false) (seen ++ values)
  /\ (fold_left max_step values acc = acc \/ fold_left max_step values acc ∈ values).
Proof.
  revert seen acc. induction values as [|x values IH]; intros seen acc Hacc Hvalues Hseen.
  - cbn. rewrite app_nil_r. auto.
  - apply Forall_cons in Hvalues as [Hx Hvalues]. cbn [fold_left].
    destruct (max_step_invariant seen acc x Hacc Hx Hseen) as (Hnan & Hall & Hwhich).
    destruct (IH (seen ++ [x]) (max_step acc x) Hnan Hvalues Hall) as (Hnan' & Hall' & Hwhich').
    split; [done|]. split; [by rewrite <- app_assoc in Hall'|].
    destruct Hwhich' as [->|Hin]; [|right; by apply elem_of_cons; right].
    destruct Hwhich as [->| ->]; [by left|right; apply elem_of_cons; by left].
Qed.

Lemma Math_max_spec (values : list num) :
  values <> [] -> Forall (fun p => num_isNaN p = false) values ->
  num_isNaN (Math_max values) = false
  /\ Math_max values ∈ values
  /\ Forall (fun p => (Math_max values <? p) = false) values.
Proof.
  intros Hne Hvalues. unfold Math_max.
  destruct (fold_max_invariant values [] (- num_infinity) neg_infinity_is_a_number Hvalues)
    as (Hnan & Hall & Hwhich); [done|].
  split; [done|]. split; [|done].
  destruct Hwhich as [Hinf|Hin]; [|done].
  destruct values as [|x values]; [done|]. rewrite Hinf in *.
  apply Forall_cons in Hall as [Hx _]. apply Forall_cons in Hvalues as [Hxn _].
  rewrite <- (not_above_neg_infinity x Hxn Hx). by left.
Qed.
End MinMax.

(** ** Facts about binary64 *)

Module Binary64Facts.
Import Binary64.

Lemma half_is_a_number : is_nan 0.5 = false.
Proof. reflexivity. Qed.

Lemma mul_comm (x y : float) : (x * y)%float = (y * x)%float.
Proof.
  apply Prim2SF_inj. rewrite !mul_spec.
  destruct (Prim2SF x) as [sx|sx| |sx mx ex], (Prim2SF y) as [sy|sy| |sy my ey];
    cbn; try reflexivity; try (by rewrite xorb_comm).
  by rewrite xorb_comm, Pos.mul_comm, Z.add_comm.
Qed.

Lemma zero_is_zero (x : float) :
  (x =? 0)%float = true -> exists s, Prim2SF x = S754_zero s.
Proof.
  rewrite FloatAxioms.eqb_spec. intros Hz.
  destruct (Prim2SF x) as [s|s| |s m e]; eauto; try destruct s; discriminate.
Qed.

Lemma finite_cases (x : float) :
  is_finite x = true ->
  (exists s, Prim2SF x = S754_zero s) \/ (exists s m e, Prim2SF x = S754_finite s m e).
Proof.
  unfold is_finite, is_nan, is_infinity.
  rewrite !FloatAxioms.eqb_spec, abs_spec. intros Hfin.
  destruct (Prim2SF x) as [s|s| |s m e]; eauto 6; [destruct s|]; discriminate.
Qed.

Lemma div_eucl_shift (m : positive) (k : Z) :
  (0 <= k)%Z -> Z.div_eucl (Z.shiftl (Zpos m) k) (Zpos m) = (2 ^ k, 0)%Z.
Proof.
  intros Hk. rewrite Z.shiftl_mul_pow2 by done.
  pose proof (Z.div_eucl_eq (Z.pos m * 2 ^ k) (Z.pos m) ltac:(lia)) as Heq.
  pose proof (Z.mod_pos_bound (Z.pos m * 2 ^ k) (Z.pos m) ltac:(lia)) as Hb.
  unfold Z.modulo in Hb.
  destruct (Z.div_eucl (Z.pos m * 2 ^ k) (Z.pos m)) as [q r].
  assert (r = 0 /\ q = 2 ^ k)%Z as [-> ->]; [|reflexivity].
  assert (Z.pos m * (2 ^ k - q) = r)%Z by lia.
  assert (2 ^ k - q = 0)%Z by nia. split; nia.
Qed.

(** Dividing a finite non-zero number by itself: the quotient of the mantissas
    is exactly [2^53], which rounds to 1. *)
Lemma SFdiv_self (s : bool) (m : positive) (e : Z) :
  SF64div (S754_finite s m e) (S754_finite s m e) = Prim2SF 1%float.
Proof.
  unfold SF64div, SFdiv, SFdiv_core_binary.
  rewrite !Z.sub_diag.
  change (Z.min (fexp prec emax 0) 0) with (-53)%Z.
  change (0 - -53)%Z with 53%Z.
  cbv zeta. cbv iota.
  rewrite div_eucl_shift by lia.
  replace (new_location (Z.pos m) 0) with loc_Exact.
  2:{ unfold new_location. destruct (Z.even (Z.pos m)); reflexivity. }
  rewrite Bool.xorb_nilpotent. reflexivity.
Qed.


(** *** Array lengths as numbers *)

Lemma digits2_pos_iter_xO (p k : positive) :
  digits2_pos (Pos.iter xO p k) = (digits2_pos p + k)%positive.
Proof.
  induction k as [|k IH] using Pos.peano_ind.
  - cbn. lia.
  - rewrite Pos.iter_succ. cbn. rewrite IH. lia.
Qed.

Lemma digits2_pos_bound (p : positive) (k : Z) :
  (Z.pos p < 2 ^ k)%Z -> (0 <= k)%Z -> (Z.pos (digits2_pos p) <= k)%Z.
Proof.
  revert k. induction p as [p IH|p IH|]; intros k Hp Hk; cbn [digits2_pos].
  - assert (k <> 0)%Z by (intros ->; cbn in Hp; lia).
    replace k with (Z.succ (k - 1)) in Hp by lia. rewrite Z.pow_succ_r in Hp by lia.
    specialize (IH (k - 1)%Z). lia.
  - assert (k <> 0)%Z by (intros ->; cbn in Hp; lia).
    replace k with (Z.succ (k - 1)) in Hp by lia. rewrite Z.pow_succ_r in Hp by lia.
    specialize (IH (k - 1)%Z). lia.
  - assert (k <> 0)%Z by (intros ->; cbn in Hp; lia). lia.
Qed.

(** A mantissa that already has the exponent of its format is not rounded. *)
Lemma binary_round_aux_canonical (s : bool) (m : positive) (e : Z) :
  fexp prec emax (Z.pos (digits2_pos m) + e) = e -> (e <= emax - prec)%Z ->
  binary_round_aux prec emax s (Z.pos m) e loc_Exact = S754_finite s m e.
Proof.
  intros Hc He. unfold binary_round_aux, shr_fexp. cbn [Zdigits2].
  rewrite Hc, Z.sub_diag.
  cbn [shr shr_record_of_loc shr_m loc_of_shr_record round_nearest_even Zdigits2].
  rewrite Hc, Z.sub_diag. cbn [shr shr_record_of_loc shr_m].
  apply Z.leb_le in He. by rewrite He.
Qed.

Lemma binary_normalize_small (p : positive) :
  (Z.pos p < 2 ^ 53)%Z ->
  exists m e, binary_normalize prec emax (Z.pos p) 0 false = S754_finite false m e.
Proof.
  intros Hp. pose proof (digits2_pos_bound p 53 Hp ltac:(lia)) as Hd.
  cbn [binary_normalize]. unfold binary_round.
  assert (fexp prec emax (Z.pos (digits2_pos p) + 0) = Z.pos (digits2_pos p) - 53)%Z as ->.
  { unfold fexp, SpecFloat.emin, emax, prec. lia. }
  unfold shl_align.
  destruct (Z.pos (digits2_pos p) - 53 - 0)%Z as [|q|q] eqn:Hq; try lia.
  - eexists _, _. apply binary_round_aux_canonical.
    + unfold fexp, SpecFloat.emin, emax, prec. lia.
    + unfold emax, prec. lia.
  - eexists _, _. apply binary_round_aux_canonical.
    + rewrite digits2_pos_iter_xO. unfold fexp, SpecFloat.emin, emax, prec. lia.
    + unfold emax, prec. lia.
Qed.

(** The length of a non-empty array is a positive finite number. *)
Lemma of_length_finite (n : nat) :
  (0 < n)%nat -> (Z.of_nat n < 2 ^ 53)%Z ->
  exists m e, Prim2SF (of_length n) = S754_finite false m e.
Proof.
  intros Hn Hlt. unfold of_length. rewrite of_uint63_spec, Uint63.of_Z_spec.
  rewrite Z.mod_small.
  2:{ split; [lia|]. eapply Z.lt_trans; [exact Hlt|]. reflexivity. }
  destruct (Z.of_nat n) as [|p|p] eqn:Hz; try lia.
  by apply binary_normalize_small.
Qed.

Lemma zero_div_length (n : nat) :
  (0 < n)%nat -> (Z.of_nat n < 2 ^ 53)%Z -> (0 / of_length n)%float = 0%float.
Proof.
  intros Hn Hlt. destruct (of_length_finite n Hn Hlt) as (m & e & Hf).
  apply Prim2SF_inj. rewrite div_spec, Hf. reflexivity.
Qed.

(** A zero times a finite number is a zero, and so is its square root. *)
Lemma sqrt_mul_zero (a b : float) :
  ((a =? 0) || (b =? 0))%float = true -> is_finite a = true -> is_finite b = true ->
  (sqrt (a * b) =? 0)%float = true.
Proof.
  intros Hz Ha Hb. rewrite FloatAxioms.eqb_spec, sqrt_spec, mul_spec.
  apply orb_true_iff in Hz.
  destruct (finite_cases a Ha) as [[sa Ea]|(sa & ma & ea & Ea)],
           (finite_cases b Hb) as [[sb Eb]|(sb & mb & eb & Eb)].
  - rewrite Ea, Eb. reflexivity.
  - rewrite Ea, Eb. reflexivity.
  - rewrite Ea, Eb. reflexivity.
  - destruct Hz as [Hz|Hz]; apply zero_is_zero in Hz as [s Hs]; congruence.
Qed.
(** *** The order *)

Local Open Scope Z_scope.

Lemma SFcompare_key (x y : spec_float) :
  SFcompare x y = if is_nan_sf x || is_nan_sf y then None else Some (lex (key x) (key y)).
Proof.
  destruct x as [sx|sx| |sx mx ex], y as [sy|sy| |sy my ey]; cbn;
    try destruct sx; try destruct sy; cbn; try reflexivity.
  - f_equal. rewrite Z.compare_opp.
    destruct (Z.compare_spec ex ey), (Z.compare_spec ey ex); try lia; reflexivity.
Qed.

Lemma lex_refl a : lex a a = Eq.
Proof. destruct a as [[a1 a2] a3]. cbn. by rewrite !Z.compare_refl. Qed.

Ltac lex_cases :=
  repeat match goal with
         | |- context [(?a ?= ?b)%Z] => destruct (Z.compare_spec a b)
         | H : context [(?a ?= ?b)%Z] |- _ => destruct (Z.compare_spec a b)
         end; try discriminate; try lia; try reflexivity.

(** x < a and not (p < a) give not (p < x). *)
Lemma lex_lt_trans x a p :
  lex x a = Lt -> lex p a <> Lt -> lex p x <> Lt.
Proof.
  destruct x as [[x1 x2] x3], a as [[a1 a2] a3], p as [[p1 p2] p3]. cbn.
  intros H1 H2 H3. lex_cases; congruence.
Qed.

Lemma lex_gt_trans x a p :
  lex a x = Lt -> lex a p <> Lt -> lex x p <> Lt.
Proof.
  destruct x as [[x1 x2] x3], a as [[a1 a2] a3], p as [[p1 p2] p3]. cbn.
  intros H1 H2 H3. lex_cases; congruence.
Qed.

Lemma SFltb_key (x y : spec_float) :
  SFltb x y = negb (is_nan_sf x || is_nan_sf y) && bool_decide (lex (key x) (key y) = Lt).
Proof.
  unfold SFltb. rewrite SFcompare_key. destruct (is_nan_sf x || is_nan_sf y); [done|].
  cbn. by destruct (lex _ _).
Qed.

Lemma ltb_irrefl (x : float) : (x <? x)%float = false.
Proof.
  rewrite ltb_spec, SFltb_key, lex_refl. by rewrite andb_false_r.
Qed.

Lemma ltb_trans_lower (x a p : float) :
  (x <? a)%float = true -> (p <? a)%float = false -> (p <? x)%float = false.
Proof.
  rewrite !ltb_spec, !SFltb_key.
  intros [Hn1 H1%bool_decide_eq_true]%andb_true_iff H2.
  apply negb_true_iff, orb_false_iff in Hn1 as [Hx Ha]. rewrite Hx, Ha in *.
  destruct (is_nan_sf (Prim2SF p)); [done|]. cbn in *.
  apply bool_decide_eq_false in H2. apply bool_decide_eq_false.
  by eapply lex_lt_trans.
Qed.

Lemma ltb_trans_upper (x a p : float) :
  (a <? x)%float = true -> (a <? p)%float = false -> (x <? p)%float = false.
Proof.
  rewrite !ltb_spec, !SFltb_key.
  intros [Hn1 H1%bool_decide_eq_true]%andb_true_iff H2.
  apply negb_true_iff, orb_false_iff in Hn1 as [Ha Hx]. rewrite Hx, Ha in *.
  destruct (is_nan_sf (Prim2SF p)); [by rewrite andb_false_l|]. cbn in *.
  apply bool_decide_eq_false in H2. apply bool_decide_eq_false.
  by eapply lex_gt_trans.
Qed.

Lemma is_nan_spec (x : float) : is_nan x = is_nan_sf (Prim2SF x).
Proof.
  unfold is_nan. rewrite FloatAxioms.eqb_spec. unfold SFeqb. rewrite SFcompare_key.
  rewrite orb_diag, lex_refl. by destruct (is_nan_sf _).
Qed.

(** [===] on numbers: neither is NaN and the keys are the same. *)
Lemma SFeqb_key (x y : spec_float) :
  SFeqb x y = negb (is_nan_sf x || is_nan_sf y) && bool_decide (lex (key x) (key y) = Eq).
Proof.
  unfold SFeqb. rewrite SFcompare_key. destruct (is_nan_sf x || is_nan_sf y); [done|].
  cbn. by destruct (lex _ _).
Qed.

Lemma lex_eq_sym a b : lex a b = Eq -> lex b a = Eq.
Proof.
  destruct a as [[a1 a2] a3], b as [[b1 b2] b3]. cbn. intros Hab. lex_cases.
Qed.

Lemma lex_eq_trans a b c : lex a b = Eq -> lex b c = Eq -> lex a c = Eq.
Proof.
  destruct a as [[a1 a2] a3], b as [[b1 b2] b3], c as [[c1 c2] c3]. cbn.
  intros Hab Hbc. lex_cases.
Qed.

Lemma eqb_is_number (a b : float) :
  (a =? b)%float = true -> is_nan a = false /\ is_nan b = false.
Proof.
  rewrite FloatAxioms.eqb_spec, SFeqb_key, !is_nan_spec.
  intros [Hn _]%andb_true_iff. by apply negb_true_iff, orb_false_iff in Hn.
Qed.

Lemma eqb_sym (a b : float) : (a =? b)%float = true -> (b =? a)%float = true.
Proof.
  rewrite !FloatAxioms.eqb_spec, !SFeqb_key.
  intros [Hn Hk%bool_decide_eq_true]%andb_true_iff.
  rewrite orb_comm, Hn. cbn. by apply bool_decide_eq_true, lex_eq_sym.
Qed.

Lemma eqb_trans (a b c : float) :
  (a =? b)%float = true -> (b =? c)%float = true -> (a =? c)%float = true.
Proof.
  rewrite !FloatAxioms.eqb_spec, !SFeqb_key.
  intros [Hn Hk%bool_decide_eq_true]%andb_true_iff [Hn' Hk'%bool_decide_eq_true]%andb_true_iff.
  apply negb_true_iff, orb_false_iff in Hn as [Ha _].
  apply negb_true_iff, orb_false_iff in Hn' as [_ Hc].
  rewrite Ha, Hc. cbn. apply bool_decide_eq_true. by eapply lex_eq_trans.
Qed.

(** Two numbers that are [===] and not zero are the same number. *)
Lemma eqb_eq_nonzero (a b : float) :
  (a =? b)%float = true -> (b =? 0)%float = false -> a = b.
Proof.
  rewrite !FloatAxioms.eqb_spec. intros Hab Hnz. apply Prim2SF_inj.
  rewrite SFeqb_key in Hab. apply andb_true_iff in Hab as [Hn Hk%bool_decide_eq_true].
  change (Prim2SF 0) with (S754_zero false) in Hnz.
  destruct (Prim2SF a) as [sa|sa| |sa ma ea], (Prim2SF b) as [sb|sb| |sb mb eb];
    try destruct sa; try destruct sb; try discriminate; try reflexivity;
    cbn in Hk; lex_cases.
  all: try (f_equal; lia).
  apply Pos.compare_eq in Hk. congruence.
Qed.


(** Two zeros compare alike with everything. *)
Lemma ltb_zero_right (x a p : float) :
  (x =? 0)%float = true -> (a =? 0)%float = true -> (p <? x)%float = (p <? a)%float.
Proof.
  intros [s Hx]%zero_is_zero [s' Ha]%zero_is_zero.
  rewrite !ltb_spec, Hx, Ha. by destruct (Prim2SF p).
Qed.

Lemma ltb_zero_left (x a p : float) :
  (x =? 0)%float = true -> (a =? 0)%float = true -> (x <? p)%float = (a <? p)%float.
Proof.
  intros [s Hx]%zero_is_zero [s' Ha]%zero_is_zero.
  rewrite !ltb_spec, Hx, Ha. by destruct (Prim2SF p).
Qed.

Lemma not_below_infinity (p : float) :
  is_nan p = false -> (p <? infinity)%float = false -> p = infinity.
Proof.
  rewrite is_nan_spec, ltb_spec. intros Hnan Hlt. apply Prim2SF_inj.
  change (Prim2SF infinity) with (S754_infinity false) in *.
  destruct (Prim2SF p) as [s|[]| |s m e]; try discriminate; try reflexivity.
Qed.

Lemma not_above_neg_infinity (p : float) :
  is_nan p = false -> (- infinity <? p)%float = false -> p = (- infinity)%float.
Proof.
  rewrite is_nan_spec, ltb_spec. intros Hnan Hlt. apply Prim2SF_inj.
  change (Prim2SF (- infinity)) with (S754_infinity true) in *.
  destruct (Prim2SF p) as [s|[]| |s m e]; try discriminate; try reflexivity.
Qed.

Local Close Scope Z_scope.

#[global] Instance order_laws : OrderLaws float.
Proof.
  split.
  - reflexivity.
  - reflexivity.
  - apply ltb_irrefl.
  - apply ltb_trans_lower.
  - apply ltb_trans_upper.
  - apply ltb_zero_right.
  - apply ltb_zero_left.
  - apply not_below_infinity.
  - apply not_above_neg_infinity.
Qed.
End Binary64Facts.

(** ** Rounding of binary64 operations on finite non-negative numbers *)

Module Rounding.
Import Binary64 Binary64Facts.
Local Open Scope Z_scope.

(** *** Shifting a mantissa right *)

Lemma iter_pos_eq {A : Type} (f : A -> A) (p : positive) (x : A) :
  SpecFloat.iter_pos f p x = Pos.iter f x p.
Proof.
  revert x. induction p as [p IH|p IH|]; intros x; cbn.
  - rewrite !IH. by rewrite <- !Pos.iter_swap.
  - by rewrite !IH.
  - done.
Qed.

Lemma shr_1_spec (m : Z) (r s : bool) :
  0 <= m ->
  shr_1 {| shr_m := m; shr_r := r; shr_s := s |}
  = {| shr_m := m / 2; shr_r := Z.odd m; shr_s := r || s |}.
Proof.
  intros Hm. rewrite <- Z.div2_div. destruct m as [|[p|p|]|p]; try lia; reflexivity.
Qed.

Lemma shr_1_shifted (N k : Z) :
  0 <= N -> 1 <= k -> shr_1 (shifted N k) = shifted N (k + 1).
Proof.
  intros HN Hk. unfold shifted.
  assert (0 < 2 ^ k) as Hpow by (apply Z.pow_pos_nonneg; lia).
  assert (0 < 2 ^ (k - 1)) as Hpow' by (apply Z.pow_pos_nonneg; lia).
  assert (2 ^ k = 2 * 2 ^ (k - 1)) as Hk2.
  { rewrite <- Z.pow_succ_r by lia. f_equal. lia. }
  assert (2 ^ (k + 1) = 2 * 2 ^ k) as Hk1.
  { rewrite <- Z.pow_succ_r by lia. f_equal. }
  pose proof (Z.div_mod N (2 ^ k) ltac:(lia)) as Hdm.
  pose proof (Z.mod_pos_bound N (2 ^ k) Hpow) as Hrem.
  pose proof (Z.div_pos N (2 ^ k) HN Hpow) as Hq.
  rewrite shr_1_spec by done.
  replace (k + 1 - 1) with k by lia.
  remember (N / 2 ^ k) as q eqn:Eq. remember (N mod 2 ^ k) as rem eqn:Erem.
  pose proof (Z.div_mod q 2 ltac:(lia)) as Hq2.
  pose proof (Z.mod_pos_bound q 2 ltac:(lia)) as Hq2b.
  pose proof (Zmod_odd q) as Hodd.
  assert (N = 2 ^ (k + 1) * (q / 2) + (rem + 2 ^ k * (q mod 2))) as HN' by nia.
  assert (N / 2 ^ (k + 1) = q / 2) as ->.
  { symmetry. apply (Z.div_unique_pos N (2 ^ (k + 1)) (q / 2) (rem + 2 ^ k * (q mod 2))); [nia|done]. }
  assert (N mod 2 ^ (k + 1) = rem + 2 ^ k * (q mod 2)) as ->.
  { symmetry. apply (Z.mod_unique_pos N (2 ^ (k + 1)) (q / 2) (rem + 2 ^ k * (q mod 2))); [nia|done]. }
  f_equal.
  - destruct (Z.odd q); rewrite Hodd; case_bool_decide; try done; nia.
  - destruct (Z.odd q); rewrite Hodd; repeat case_bool_decide; cbn; try done; nia.
Qed.

Lemma shifted_one (N : Z) :
  0 <= N -> shr_1 {| shr_m := N; shr_r := false; shr_s := false |} = shifted N 1.
Proof.
  intros HN. rewrite shr_1_spec by done. unfold shifted. cbn [Z.sub Z.pow Z.pow_pos Pos.iter Z.mul Pos.mul Z.pos_sub].
  change (2 ^ 1) with 2. change (2 ^ (1 - 1)) with 1.
  pose proof (Z.mod_pos_bound N 2 ltac:(lia)) as Hb. pose proof (Zmod_odd N) as Hodd.
  f_equal.
  - destruct (Z.odd N); rewrite Hodd; case_bool_decide; try done; lia.
  - destruct (Z.odd N); rewrite Hodd; case_bool_decide; try done; lia.
Qed.

Lemma iter_shr_1_shifted (N : Z) (k : positive) :
  0 <= N ->
  SpecFloat.iter_pos shr_1 k {| shr_m := N; shr_r := false; shr_s := false |} = shifted N (Z.pos k).
Proof.
  intros HN. rewrite iter_pos_eq. induction k as [|k IH] using Pos.peano_ind.
  - cbn [Pos.iter]. by apply shifted_one.
  - rewrite Pos.iter_succ, IH, shr_1_shifted by lia. f_equal. lia.
Qed.

(** *** Number of binary digits *)

Lemma digits2_pos_spec (p : positive) :
  2 ^ (Z.pos (digits2_pos p) - 1) <= Z.pos p < 2 ^ Z.pos (digits2_pos p).
Proof.
  induction p as [p IH|p IH|]; cbn [digits2_pos].
  - rewrite Pos2Z.inj_succ, Pos2Z.inj_xI.
    remember (Z.pos (digits2_pos p)) as d eqn:Ed in *.
    assert (2 ^ d = 2 * 2 ^ (d - 1)) as Hd.
    { rewrite <- Z.pow_succ_r by lia. f_equal. lia. }
    replace (Z.succ d - 1) with d by lia. rewrite Z.pow_succ_r by lia. lia.
  - rewrite Pos2Z.inj_succ. change (Z.pos p~0) with (2 * Z.pos p).
    remember (Z.pos (digits2_pos p)) as d eqn:Ed in *.
    assert (2 ^ d = 2 * 2 ^ (d - 1)) as Hd.
    { rewrite <- Z.pow_succ_r by lia. f_equal. lia. }
    replace (Z.succ d - 1) with d by lia. rewrite Z.pow_succ_r by lia. lia.
  - cbn. lia.
Qed.

Lemma pow2_lt_mono (a b : Z) : 0 <= a -> 2 ^ a < 2 ^ b -> a < b.
Proof.
  intros Ha Hlt. destruct (decide (b < 0)) as [Hb|Hb].
  - rewrite (Z.pow_neg_r 2 b Hb) in Hlt. pose proof (Z.pow_pos_nonneg 2 a). lia.
  - apply (Z.pow_lt_mono_r_iff 2); lia.
Qed.

Lemma pow2_le_mono (a b : Z) : 0 <= a <= b -> 2 ^ a <= 2 ^ b.
Proof. intros H. apply Z.pow_le_mono_r; lia. Qed.

(** [Zdigits2 N = d] exactly when [2^(d-1) <= N < 2^d]. *)
Lemma Zdigits2_unique (N d : Z) :
  0 < N -> 1 <= d -> 2 ^ (d - 1) <= N < 2 ^ d -> Zdigits2 N = d.
Proof.
  intros HN Hd Hb. destruct N as [|p|p]; try lia. cbn [Zdigits2].
  pose proof (digits2_pos_spec p) as Hp.
  assert (Z.pos (digits2_pos p) - 1 < d) by (apply pow2_lt_mono; lia).
  assert (d - 1 < Z.pos (digits2_pos p)) by (apply pow2_lt_mono; lia).
  lia.
Qed.

Lemma Zdigits2_spec (N : Z) :
  0 < N -> 1 <= Zdigits2 N /\ 2 ^ (Zdigits2 N - 1) <= N < 2 ^ Zdigits2 N.
Proof.
  intros HN. destruct N as [|p|p]; try lia. cbn [Zdigits2].
  split; [lia|]. apply digits2_pos_spec.
Qed.

Lemma Zdigits2_mono (N1 N2 : Z) : 0 < N1 <= N2 -> Zdigits2 N1 <= Zdigits2 N2.
Proof.
  intros H. destruct (Zdigits2_spec N1) as [H1 B1]; [lia|].
  destruct (Zdigits2_spec N2) as [H2 B2]; [lia|].
  assert (Zdigits2 N1 - 1 < Zdigits2 N2) by (apply pow2_lt_mono; lia). lia.
Qed.

Lemma Zdigits2_mul_pow2 (N j : Z) : 0 < N -> 0 <= j -> Zdigits2 (N * 2 ^ j) = Zdigits2 N + j.
Proof.
  intros HN Hj. destruct (Zdigits2_spec N HN) as [H1 B1].
  assert (0 < 2 ^ j) by (apply Z.pow_pos_nonneg; lia).
  apply Zdigits2_unique; [nia|lia|].
  replace (Zdigits2 N + j - 1) with (Zdigits2 N - 1 + j) by lia.
  rewrite !Z.pow_add_r by lia. nia.
Qed.

(** *** Rounding to nearest, ties to even *)

Lemma rne_eq (N k : Z) :
  0 <= N -> 1 <= k ->
  rne N k = (if decide (2 * (N mod 2 ^ k) < 2 ^ k) then N / 2 ^ k
             else if decide (2 ^ k < 2 * (N mod 2 ^ k)) then N / 2 ^ k + 1
             else if Z.even (N / 2 ^ k) then N / 2 ^ k else N / 2 ^ k + 1).
Proof.
  intros HN Hk. unfold rne, shifted. cbn [shr_m loc_of_shr_record].
  assert (0 < 2 ^ (k - 1)) as Hpow' by (apply Z.pow_pos_nonneg; lia).
  assert (2 ^ k = 2 * 2 ^ (k - 1)) as Hk2.
  { rewrite <- Z.pow_succ_r by lia. f_equal. lia. }
  pose proof (Z.mod_pos_bound N (2 ^ k) ltac:(lia)) as Hrem.
  repeat case_bool_decide; repeat case_decide; cbn [round_nearest_even]; try lia; try done.
Qed.

Lemma rne_bounds (N k : Z) :
  0 <= N -> 1 <= k -> N / 2 ^ k <= rne N k <= N / 2 ^ k + 1.
Proof.
  intros HN Hk. rewrite rne_eq by done.
  repeat case_decide; try lia. destruct (Z.even _); lia.
Qed.

Lemma rne_exact (N k : Z) :
  0 <= N -> 1 <= k -> rne (N * 2 ^ k) k = N.
Proof.
  intros HN Hk. assert (0 < 2 ^ k) by (apply Z.pow_pos_nonneg; lia).
  rewrite rne_eq by nia. rewrite Z.mod_mul, Z.div_mul by lia.
  case_decide; [done|lia].
Qed.

Lemma rne_mono (N1 N2 k : Z) :
  0 <= N1 <= N2 -> 1 <= k -> rne N1 k <= rne N2 k.
Proof.
  intros HN Hk. assert (0 < 2 ^ k) as Hpow by (apply Z.pow_pos_nonneg; lia).
  pose proof (rne_bounds N1 k ltac:(lia) Hk) as B1.
  pose proof (rne_bounds N2 k ltac:(lia) Hk) as B2.
  pose proof (Z.div_le_mono N1 N2 (2 ^ k) Hpow ltac:(lia)) as Hq.
  destruct (decide (N1 / 2 ^ k < N2 / 2 ^ k)) as [Hlt|Heq]; [lia|].
  assert (N1 / 2 ^ k = N2 / 2 ^ k) as Heq' by lia.
  pose proof (Z.div_mod N1 (2 ^ k) ltac:(lia)) as D1.
  pose proof (Z.div_mod N2 (2 ^ k) ltac:(lia)) as D2.
  rewrite !rne_eq by lia. rewrite Heq'.
  repeat case_decide; try lia; destruct (Z.even _); lia.
Qed.

(** Shifting a multiple of [2^j] by [j] more bits gives the same rounding. *)
Lemma rne_scale (N j k : Z) :
  0 <= N -> 0 <= j -> 1 <= k -> rne (N * 2 ^ j) (k + j) = rne N k.
Proof.
  intros HN Hj Hk.
  assert (0 < 2 ^ k) as Hpow by (apply Z.pow_pos_nonneg; lia).
  assert (0 < 2 ^ j) as Hpowj by (apply Z.pow_pos_nonneg; lia).
  rewrite !rne_eq by nia. rewrite Z.pow_add_r by lia.
  rewrite Z.div_mul_cancel_r by lia.
  rewrite Zmult_mod_distr_r.
  repeat case_decide; try nia; done.
Qed.

(** *** What [binary_round_aux] computes on an exact mantissa *)

Lemma fexp_eq (d : Z) : fexp prec emax d = Z.max (d - 53) emin.
Proof. reflexivity. Qed.

Lemma shr_fexp_exact (N e : Z) :
  0 <= N ->
  shr_fexp prec emax N e loc_Exact
  = if decide (fexp prec emax (Zdigits2 N + e) - e <= 0)
    then ({| shr_m := N; shr_r := false; shr_s := false |}, e)
    else (shifted N (fexp prec emax (Zdigits2 N + e) - e), fexp prec emax (Zdigits2 N + e)).
Proof.
  intros HN. unfold shr_fexp, shr. cbn [shr_record_of_loc].
  destruct (fexp prec emax (Zdigits2 N + e) - e) as [|k|k] eqn:Hk; case_decide; try lia; try done.
  rewrite iter_shr_1_shifted by done. f_equal. lia.
Qed.

(** No shift is needed: the mantissa is kept. *)
Lemma binary_round_aux_keep (s : bool) (N e : Z) :
  0 <= N -> fexp prec emax (Zdigits2 N + e) <= e ->
  binary_round_aux prec emax s N e loc_Exact = finish s N e.
Proof.
  intros HN Hk. unfold binary_round_aux. rewrite shr_fexp_exact by done.
  case_decide; [|lia]. cbn [shr_m loc_of_shr_record round_nearest_even].
  rewrite shr_fexp_exact by done. case_decide; [|lia]. done.
Qed.

(** A normal result: the mantissa is shifted right by [k = d - 53] bits and
    rounded; a carry into bit 53 moves the exponent up by one. *)
Lemma binary_round_aux_shift (s : bool) (N e : Z) :
  0 < N -> emin <= e -> e < fexp prec emax (Zdigits2 N + e) ->
  let k := Zdigits2 N - 53 in
  1 <= k
  /\ 2 ^ 52 <= rne N k <= 2 ^ 53
  /\ binary_round_aux prec emax s N e loc_Exact
     = if decide (rne N k = 2 ^ 53) then finish s (2 ^ 52) (e + k + 1)
       else finish s (rne N k) (e + k).
Proof.
  intros HN He Hk k. assert (k = Zdigits2 N - 53) as Hkdef by reflexivity. clearbody k.
  destruct (Zdigits2_spec N HN) as [Hd Hb].
  rewrite fexp_eq in Hk.
  assert (fexp prec emax (Zdigits2 N + e) = e + k) as HE by (rewrite fexp_eq; lia).
  assert (1 <= k) as Hk1 by lia.
  assert (0 < 2 ^ k) as Hpow by (apply Z.pow_pos_nonneg; lia).
  assert (2 ^ (Zdigits2 N - 1) = 2 ^ 52 * 2 ^ k) as Hlo.
  { rewrite <- Z.pow_add_r by lia. f_equal. lia. }
  assert (2 ^ Zdigits2 N = 2 ^ 53 * 2 ^ k) as Hhi.
  { rewrite <- Z.pow_add_r by lia. f_equal. lia. }
  assert (2 ^ 52 <= N / 2 ^ k < 2 ^ 53) as Hq.
  { split; [apply Z.div_le_lower_bound; lia|apply Z.div_lt_upper_bound; lia]. }
  pose proof (rne_bounds N k ltac:(lia) Hk1) as Hrne.
  split; [done|]. split; [lia|].
  unfold binary_round_aux. rewrite shr_fexp_exact by lia.
  case_decide; [lia|]. rewrite HE. replace (e + k - e) with k by lia.
  change (round_nearest_even (shr_m (shifted N k)) (loc_of_shr_record (shifted N k)))
    with (rne N k).
  rewrite shr_fexp_exact by lia.
  destruct (decide (rne N k = 2 ^ 53)) as [Hcarry|Hcarry].
  - rewrite Hcarry. change (Zdigits2 (2 ^ 53)) with 54.
    rewrite !fexp_eq. case_decide; [lia|].
    replace (Z.max (54 + (e + k) - 53) emin) with (e + k + 1) by lia.
    replace (e + k + 1 - (e + k)) with 1 by lia. reflexivity.
  - assert (Zdigits2 (rne N k) = 53) as Hd53.
    { apply Zdigits2_unique; [lia|lia|]. change (2 ^ (53 - 1)) with (2 ^ 52). lia. }
    rewrite Hd53, fexp_eq. case_decide; [|lia]. done.
Qed.

(** *** Rounding a count of units of [2^emin] *)

Lemma rn_small (N : Z) : 0 <= N < 2 ^ 53 -> rn N = N.
Proof.
  intros HN. unfold rn. case_decide as Hd; [done|].
  destruct (decide (N = 0)) as [->|Hz]; [done|].
  destruct (Zdigits2_spec N ltac:(lia)) as [H1 B].
  assert (Zdigits2 N - 1 < 53) by (apply pow2_lt_mono; lia). lia.
Qed.

Lemma rn_nonneg (N : Z) : 0 <= N -> 0 <= rn N.
Proof.
  intros HN. unfold rn. case_decide as Hd; [done|].
  pose proof (rne_bounds N (Zdigits2 N - 53) HN ltac:(lia)).
  pose proof (Z.div_pos N (2 ^ (Zdigits2 N - 53)) HN ltac:(apply Z.pow_pos_nonneg; lia)).
  pose proof (Z.pow_pos_nonneg 2 (Zdigits2 N - 53) ltac:(lia) ltac:(lia)). nia.
Qed.

Lemma rn_mono (N1 N2 : Z) : 0 <= N1 <= N2 -> rn N1 <= rn N2.
Proof.
  intros HN. destruct (decide (N1 = 0)) as [->|Hz].
  { change (rn 0) with 0. apply rn_nonneg. lia. }
  destruct (Zdigits2_spec N1 ltac:(lia)) as [H1 B1].
  destruct (Zdigits2_spec N2 ltac:(lia)) as [H2 B2].
  pose proof (Zdigits2_mono N1 N2 ltac:(lia)) as Hd.
  unfold rn. repeat case_decide; try lia.
  - (* N1 exact, N2 rounded *)
    remember (Zdigits2 N2 - 53) as k eqn:Ek.
    assert (0 < 2 ^ k) as Hpow by (apply Z.pow_pos_nonneg; lia).
    assert (2 ^ 1 <= 2 ^ k) as Hpow1 by (apply pow2_le_mono; lia).
    assert (2 ^ (Zdigits2 N2 - 1) = 2 ^ 52 * 2 ^ k) as Hlo.
    { rewrite <- Z.pow_add_r by lia. f_equal. lia. }
    assert (2 ^ 52 <= N2 / 2 ^ k).
    { apply Z.div_le_lower_bound; lia. }
    pose proof (rne_bounds N2 k ltac:(lia) ltac:(lia)).
    assert (N1 < 2 ^ 53).
    { eapply Z.lt_le_trans; [apply B1|]. apply pow2_le_mono. lia. }
    assert (2 ^ 52 * 2 ^ 1 <= rne N2 k * 2 ^ k) by (apply Z.mul_le_mono_nonneg; lia).
    change (2 ^ 52 * 2 ^ 1) with (2 ^ 53) in *. lia.
  - (* both rounded *)
    remember (Zdigits2 N1 - 53) as k1 eqn:Ek1. remember (Zdigits2 N2 - 53) as k2 eqn:Ek2.
    destruct (decide (k1 = k2)) as [Hk|Hk].
    + rewrite Hk. pose proof (rne_mono N1 N2 k2 ltac:(lia) ltac:(lia)).
      pose proof (Z.pow_pos_nonneg 2 k2 ltac:(lia) ltac:(lia)). nia.
    + assert (0 < 2 ^ k1) as Hpow1 by (apply Z.pow_pos_nonneg; lia).
      assert (0 < 2 ^ k2) as Hpow2 by (apply Z.pow_pos_nonneg; lia).
      assert (2 ^ Zdigits2 N1 = 2 ^ 53 * 2 ^ k1) as Hhi1.
      { rewrite <- Z.pow_add_r by lia. f_equal. lia. }
      assert (2 ^ (Zdigits2 N2 - 1) = 2 ^ 52 * 2 ^ k2) as Hlo2.
      { rewrite <- Z.pow_add_r by lia. f_equal. lia. }
      assert (N1 / 2 ^ k1 < 2 ^ 53) by (apply Z.div_lt_upper_bound; lia).
      assert (2 ^ 52 <= N2 / 2 ^ k2) by (apply Z.div_le_lower_bound; lia).
      pose proof (rne_bounds N1 k1 ltac:(lia) ltac:(lia)).
      pose proof (rne_bounds N2 k2 ltac:(lia) ltac:(lia)).
      assert (2 * 2 ^ k1 <= 2 ^ k2) as Hk12.
      { rewrite <- Z.pow_succ_r by lia. apply pow2_le_mono. lia. }
      assert (rne N1 k1 * 2 ^ k1 <= 2 ^ 53 * 2 ^ k1) by (apply Z.mul_le_mono_nonneg_r; lia).
      assert (2 ^ 52 * 2 ^ k2 <= rne N2 k2 * 2 ^ k2) by (apply Z.mul_le_mono_nonneg_r; lia).
      assert (2 ^ 52 * (2 * 2 ^ k1) <= 2 ^ 52 * 2 ^ k2) by (apply Z.mul_le_mono_nonneg_l; lia).
      replace (2 ^ 52 * (2 * 2 ^ k1)) with (2 ^ 53 * 2 ^ k1) in * by (change (2 ^ 53) with (2 ^ 52 * 2); ring).
      lia.
Qed.

Lemma units_pos (m e : Z) : 0 < m -> emin <= e -> 0 < units m e.
Proof.
  intros Hm He. unfold units.
  pose proof (Z.pow_pos_nonneg 2 (e - emin) ltac:(lia) ltac:(lia)). nia.
Qed.

Lemma units_shift (m j e : Z) :
  0 <= j -> emin <= e -> units (m * 2 ^ j) e = units m (e + j).
Proof.
  intros Hj He. unfold units. replace (e + j - emin) with (j + (e - emin)) by lia.
  rewrite Z.pow_add_r by lia. ring.
Qed.

(** A mantissa of at most 53 bits at any exponent is not changed by rounding. *)
Lemma rn_exact (m j : Z) : 0 <= m < 2 ^ 53 -> 0 <= j -> rn (m * 2 ^ j) = m * 2 ^ j.
Proof.
  intros Hm Hj. destruct (decide (m = 0)) as [->|Hz]; [done|].
  assert (0 < 2 ^ j) as Hpow by (apply Z.pow_pos_nonneg; lia).
  destruct (Zdigits2_spec m ltac:(lia)) as [H1 B].
  assert (Zdigits2 m - 1 < 53) by (apply pow2_lt_mono; lia).
  unfold rn. rewrite Zdigits2_mul_pow2 by lia. case_decide as Hd; [done|].
  remember (Zdigits2 m + j - 53) as k eqn:Ek.
  assert (m * 2 ^ j = m * 2 ^ (j - k) * 2 ^ k) as ->.
  { rewrite <- Z.mul_assoc, <- Z.pow_add_r by lia. do 2 f_equal. lia. }
  rewrite rne_exact; [done| |lia].
  pose proof (Z.pow_pos_nonneg 2 (j - k) ltac:(lia) ltac:(lia)). nia.
Qed.

Lemma rn_pos (N : Z) : 0 < N -> 0 < rn N.
Proof.
  intros HN. pose proof (rn_mono 1 N ltac:(lia)) as H.
  rewrite (rn_small 1) in H by (split; [lia|reflexivity]). lia.
Qed.

Lemma Pos_iter_xO (p d : positive) : Z.pos (Pos.iter xO p d) = Z.pos p * 2 ^ Z.pos d.
Proof.
  induction d as [|d IH] using Pos.peano_ind.
  - cbn [Pos.iter]. lia.
  - rewrite Pos.iter_succ, Pos2Z.inj_succ, Z.pow_succ_r by lia.
    change (Z.pos (Pos.iter xO p d)~0) with (2 * Z.pos (Pos.iter xO p d)). rewrite IH. ring.
Qed.

Lemma shl_align_units (p : positive) (e e' : Z) :
  e' <= e ->
  Z.pos (fst (shl_align p e e')) = Z.pos p * 2 ^ (e - snd (shl_align p e e'))
  /\ snd (shl_align p e e') = e'.
Proof.
  intros He. unfold shl_align. destruct (e' - e) as [|d|d] eqn:Hd; try lia; cbn [fst snd].
  - assert (e = e') as -> by lia. rewrite Z.sub_diag. split; [lia|done].
  - rewrite Pos_iter_xO. split; [|done]. do 2 f_equal. lia.
Qed.

(** What [binary_normalize] returns for a positive mantissa: a mantissa and an
    exponent in canonical form, holding the rounded number of units. *)
Lemma binary_round_units (s : bool) (p : positive) (e : Z) :
  emin <= e ->
  exists m e',
    binary_round prec emax s p e = finish s m e'
    /\ 0 < m < 2 ^ 53 /\ emin <= e' /\ (e' = emin \/ 2 ^ 52 <= m)
    /\ units m e' = rn (units (Z.pos p) e).
Proof.
  intros He. assert (0 < Z.pos p) as HN by lia. unfold binary_round.
  destruct (Zdigits2_spec (Z.pos p) HN) as [Hd Hb]. cbn [Zdigits2] in Hd, Hb.
  remember (Z.pos (digits2_pos p)) as d eqn:Ed.
  remember (fexp prec emax (d + e)) as E eqn:EE. rewrite fexp_eq in EE.
  destruct (decide (E <= e)) as [Hle|Hgt].
  - (* the mantissa is shifted left to the exponent [E] and kept *)
    destruct (shl_align_units p e E Hle) as [Hm He'].
    destruct (shl_align p e E) as [mz ez]. cbn [fst snd] in Hm, He'. subst ez.
    assert (0 < 2 ^ (e - E)) as Hpow by (apply Z.pow_pos_nonneg; lia).
    assert (Zdigits2 (Z.pos mz) = d + (e - E)) as Hdz.
    { rewrite Hm, Zdigits2_mul_pow2 by lia. cbn [Zdigits2]. lia. }
    exists (Z.pos mz), E. split.
    { apply binary_round_aux_keep; [lia|]. rewrite Hdz, fexp_eq. lia. }
    destruct (Zdigits2_spec (Z.pos mz) ltac:(lia)) as [_ Hbz]. rewrite Hdz in Hbz.
    assert (Z.pos mz < 2 ^ 53).
    { eapply Z.lt_le_trans; [apply Hbz|]. apply pow2_le_mono. lia. }
    split; [lia|]. split; [lia|]. split.
    { destruct (decide (E = emin)) as [|HE]; [by left|right].
      eapply Z.le_trans; [|apply Hbz]. apply pow2_le_mono. lia. }
    rewrite Hm, units_shift by lia. replace (E + (e - E)) with e by lia.
    unfold units. symmetry. apply rn_exact; lia.
  - (* the mantissa is shifted right and rounded *)
    assert (shl_align p e E = (p, e)) as ->.
    { unfold shl_align. destruct (E - e) eqn:?; try lia; done. }
    destruct (binary_round_aux_shift s (Z.pos p) e HN He) as (Hk & Hrne & ->).
    { cbn [Zdigits2]. rewrite <- Ed, fexp_eq. lia. }
    cbn [Zdigits2] in *. rewrite <- Ed in *.
    remember (d - 53) as k eqn:Ek.
    assert (0 < 2 ^ k) as Hpow by (apply Z.pow_pos_nonneg; lia).
    assert (0 < 2 ^ (e - emin)) as Hpowe by (apply Z.pow_pos_nonneg; lia).
    assert (rn (units (Z.pos p) e) = rne (Z.pos p) k * 2 ^ (k + (e - emin))) as Hrn.
    { unfold units, rn. rewrite Zdigits2_mul_pow2 by lia. cbn [Zdigits2]. rewrite <- Ed.
      case_decide; [lia|]. replace (d + (e - emin) - 53) with (k + (e - emin)) by lia.
      by rewrite rne_scale by lia. }
    case_decide as Hcarry.
    + exists (2 ^ 52), (e + k + 1). split; [done|]. split; [done|]. split; [lia|].
      split; [by right|]. rewrite Hrn, Hcarry. unfold units.
      replace (e + k + 1 - emin) with (1 + (k + (e - emin))) by lia.
      rewrite (Z.pow_add_r 2 1) by lia. change (2 ^ 53) with (2 ^ 52 * 2 ^ 1). ring.
    + exists (rne (Z.pos p) k), (e + k). split; [done|]. split; [lia|]. split; [lia|].
      split; [right; lia|]. rewrite Hrn. unfold units. do 2 f_equal. lia.
Qed.

Lemma binary_normalize_units (N e : Z) :
  0 < N -> emin <= e ->
  exists m e',
    binary_normalize prec emax N e false = finish false m e'
    /\ 0 < m < 2 ^ 53 /\ emin <= e' /\ (e' = emin \/ 2 ^ 52 <= m)
    /\ units m e' = rn (units N e).
Proof.
  intros HN He. destruct N as [|p|p]; try lia. by apply binary_round_units.
Qed.

(** *** Finite non-negative numbers and their units *)

Lemma valid_canonical (s : bool) (m : positive) (e : Z) :
  valid_binary (S754_finite s m e) = true -> canonical (Z.pos m) e.
Proof.
  cbn [SpecFloat.valid_binary]. unfold bounded, canonical_mantissa.
  intros [Hc He%Z.leb_le]%andb_true_iff. apply Z.eqb_eq in Hc. rewrite fexp_eq in Hc.
  pose proof (digits2_pos_spec m) as Hm.
  remember (Z.pos (digits2_pos m)) as d eqn:Ed.
  assert (1 <= d) by lia.
  change (emax - prec) with 971 in He.
  unfold canonical. split; [split; [lia|]|split; [lia|]].
  - eapply Z.lt_le_trans; [apply Hm|]. apply pow2_le_mono. lia.
  - destruct (decide (e = emin)) as [|Hne]; [by left|right].
    assert (d = 53) as -> by lia. apply Hm.
Qed.

Lemma nonneg_finite_cases (x : float) :
  nonneg_finite x = true ->
  (exists s, Prim2SF x = S754_zero s)
  \/ (exists m e, Prim2SF x = S754_finite false m e /\ canonical (Z.pos m) e).
Proof.
  unfold nonneg_finite. intros Hx.
  pose proof (Prim2SF_valid x) as Hvalid.
  destruct (Prim2SF x) as [s|s| |[] m e]; try discriminate; [left; eauto|right].
  exists m, e. split; [done|]. by eapply valid_canonical.
Qed.

(** Among canonical forms, comparing exponents and then mantissas compares the
    numbers of units. *)
Lemma canonical_compare (m1 e1 m2 e2 : Z) :
  canonical m1 e1 -> canonical m2 e2 ->
  match e1 ?= e2 with Eq => m1 ?= m2 | c => c end = (units m1 e1 ?= units m2 e2).
Proof.
  intros (Hm1 & He1 & Hn1) (Hm2 & He2 & Hn2). unfold units.
  assert (forall ma ea mb eb, 0 < ma < 2 ^ 53 -> emin <= ea -> ea < eb -> 2 ^ 52 <= mb ->
          ma * 2 ^ (ea - emin) < mb * 2 ^ (eb - emin)) as Hlt.
  { intros ma ea mb eb Hma Hea Hab Hmb.
    assert (0 < 2 ^ (ea - emin)) by (apply Z.pow_pos_nonneg; lia).
    assert (2 * 2 ^ (ea - emin) <= 2 ^ (eb - emin)).
    { rewrite <- Z.pow_succ_r by lia. apply pow2_le_mono. lia. }
    assert (ma * 2 ^ (ea - emin) < 2 ^ 53 * 2 ^ (ea - emin)) by (apply Z.mul_lt_mono_pos_r; lia).
    assert (2 ^ 52 * 2 ^ (eb - emin) <= mb * 2 ^ (eb - emin)) by (apply Z.mul_le_mono_nonneg_r; lia).
    assert (2 ^ 52 * (2 * 2 ^ (ea - emin)) <= 2 ^ 52 * 2 ^ (eb - emin))
      by (apply Z.mul_le_mono_nonneg_l; lia).
    replace (2 ^ 52 * (2 * 2 ^ (ea - emin))) with (2 ^ 53 * 2 ^ (ea - emin)) in *
      by (change (2 ^ 53) with (2 ^ 52 * 2); ring).
    lia. }
  destruct (Z.compare_spec e1 e2) as [->|Hlt12|Hlt21].
  - assert (0 < 2 ^ (e2 - emin)) by (apply Z.pow_pos_nonneg; lia).
    destruct (Z.compare_spec m1 m2) as [->|Hm|Hm]; symmetry.
    + apply Z.compare_refl.
    + apply Z.compare_lt_iff. by apply Z.mul_lt_mono_pos_r.
    + apply Z.compare_gt_iff. by apply Z.mul_lt_mono_pos_r.
  - symmetry. apply Z.compare_lt_iff. apply Hlt; lia.
  - symmetry. apply Z.compare_gt_iff. apply Hlt; lia.
Qed.

Lemma nonneg_finite_compare (x y : float) :
  nonneg_finite x = true -> nonneg_finite y = true ->
  SFcompare (Prim2SF x) (Prim2SF y) = Some (float_units x ?= float_units y).
Proof.
  intros Hx Hy. unfold float_units.
  destruct (nonneg_finite_cases x Hx) as [[sx ->]|(mx & ex & -> & Cx)],
           (nonneg_finite_cases y Hy) as [[sy ->]|(my & ey & -> & Cy)]; cbn [SFcompare sf_units].
  - done.
  - f_equal. symmetry. apply Z.compare_lt_iff. apply units_pos; [lia|apply Cy].
  - f_equal. symmetry. apply Z.compare_gt_iff. apply units_pos; [lia|apply Cx].
  - f_equal. rewrite <- canonical_compare by done.
    change (Pos.compare_cont Eq mx my) with (Z.pos mx ?= Z.pos my). done.
Qed.

Lemma nonneg_finite_ltb (x y : float) :
  nonneg_finite x = true -> nonneg_finite y = true ->
  (x <? y)%float = (float_units x <? float_units y).
Proof.
  intros Hx Hy. rewrite ltb_spec. unfold SFltb, Z.ltb.
  by rewrite nonneg_finite_compare.
Qed.

Lemma nonneg_finite_leb (x y : float) :
  nonneg_finite x = true -> nonneg_finite y = true ->
  (x <=? y)%float = (float_units x <=? float_units y).
Proof.
  intros Hx Hy. rewrite leb_spec. unfold SFleb, Z.leb.
  rewrite nonneg_finite_compare by done. by destruct (_ ?= _).
Qed.

Lemma nonneg_finite_eqb (x y : float) :
  nonneg_finite x = true -> nonneg_finite y = true ->
  (x =? y)%float = (float_units x =? float_units y).
Proof.
  intros Hx Hy. rewrite FloatAxioms.eqb_spec. unfold SFeqb.
  rewrite nonneg_finite_compare by done.
  destruct (Z.compare_spec (float_units x) (float_units y)); symmetry;
    [apply Z.eqb_eq|apply Z.eqb_neq..]; lia.
Qed.

Lemma float_units_nonneg (x : float) : nonneg_finite x = true -> 0 <= float_units x.
Proof.
  intros Hx. unfold float_units.
  destruct (nonneg_finite_cases x Hx) as [[sx ->]|(mx & ex & -> & Cx)]; cbn [sf_units]; [done|].
  apply Z.lt_le_incl, units_pos; [lia|apply Cx].
Qed.

Lemma float_units_bound (x : float) : nonneg_finite x = true -> float_units x < 2 ^ 2098.
Proof.
  intros Hx. unfold float_units.
  destruct (nonneg_finite_cases x Hx) as [[sx ->]|(mx & ex & -> & (Hm & He & _))];
    cbn [sf_units]; [done|]. unfold units.
  assert (0 < 2 ^ (ex - emin)) by (apply Z.pow_pos_nonneg; lia).
  assert (2 ^ (ex - emin) <= 2 ^ 2045) by (apply pow2_le_mono; lia).
  assert (Z.pos mx * 2 ^ (ex - emin) < 2 ^ 53 * 2 ^ (ex - emin)) by (apply Z.mul_lt_mono_pos_r; lia).
  assert (2 ^ 53 * 2 ^ (ex - emin) <= 2 ^ 53 * 2 ^ 2045) by (apply Z.mul_le_mono_nonneg_l; lia).
  change (2 ^ 2098) with (2 ^ 53 * 2 ^ 2045). lia.
Qed.

Lemma nonneg_finite_intro (x : float) (m e : Z) :
  Prim2SF x = finish false m e -> 0 <= m -> (0 < m -> e <= 971) ->
  nonneg_finite x = true /\ float_units x = units m e.
Proof.
  intros Hx Hm He. unfold nonneg_finite, float_units. rewrite Hx. unfold finish.
  destruct m as [|p|p]; [by rewrite ?Z.mul_0_l|..|lia].
  change (emax - prec) with 971. by rewrite (proj2 (Z.leb_le e 971) (He ltac:(lia))).
Qed.

Lemma canonical_units (m e : Z) : canonical m e -> rn (units m e) = units m e.
Proof. intros (Hm & He & _). apply rn_exact; lia. Qed.

Lemma float_units_rn (x : float) : nonneg_finite x = true -> rn (float_units x) = float_units x.
Proof.
  intros Hx. unfold float_units.
  destruct (nonneg_finite_cases x Hx) as [[sx ->]|(mx & ex & -> & Cx)]; cbn [sf_units].
  - by apply rn_small.
  - by apply canonical_units.
Qed.

(** A number of units below [2 ^ 2098] in canonical form has an exponent of
    at most 971. *)
Lemma units_exponent_bound (m e : Z) :
  0 < m -> emin <= e -> (e = emin \/ 2 ^ 52 <= m) -> units m e < 2 ^ 2098 -> e <= 971.
Proof.
  intros Hm He Hn Hlt. destruct Hn as [->|Hn]; [lia|].
  destruct (decide (e <= 971)) as [|Hbig]; [done|exfalso].
  unfold units in Hlt.
  assert (2 ^ 2046 <= 2 ^ (e - emin)) by (apply pow2_le_mono; lia).
  assert (2 ^ 52 * 2 ^ 2046 <= m * 2 ^ (e - emin)) by (apply Z.mul_le_mono_nonneg; lia).
  change (2 ^ 2098) with (2 ^ 52 * 2 ^ 2046) in Hlt. lia.
Qed.

(** Subtraction of a smaller number rounds the exact difference. *)
Lemma sub_units (x y : float) :
  nonneg_finite x = true -> nonneg_finite y = true -> float_units y <= float_units x ->
  nonneg_finite (x - y) = true /\ float_units (x - y) = rn (float_units x - float_units y).
Proof.
  intros Hx Hy Hle.
  pose proof (float_units_rn x Hx) as Hrx. pose proof (float_units_bound x Hx) as Hbx.
  unfold nonneg_finite. unfold float_units in *. rewrite sub_spec.
  destruct (nonneg_finite_cases x Hx) as [[sx Ex]|(mx & ex & Ex & Cx)],
           (nonneg_finite_cases y Hy) as [[sy Ey]|(my & ey & Ey & Cy)];
    rewrite Ex, Ey in *; cbn [sf_units] in *.
  - destruct sx, sy; cbn; by rewrite rn_small.
  - pose proof (units_pos (Z.pos my) ey ltac:(lia) ltac:(apply Cy)). lia.
  - cbn. by rewrite Z.sub_0_r, Hrx.
  - unfold SF64sub, SFsub. cbv zeta.
    destruct (shl_align_units mx ex (Z.min ex ey) ltac:(lia)) as [Hmx Hsx].
    destruct (shl_align_units my ey (Z.min ex ey) ltac:(lia)) as [Hmy Hsy].
    rewrite Hsx in Hmx. rewrite Hsy in Hmy.
    cbn [cond_Zopp negb]. rewrite Hmx, Hmy.
    remember (Z.min ex ey) as ez eqn:Eez.
    destruct Cx as (Hmx' & Hex & _), Cy as (Hmy' & Hey & _).
    assert (emin <= ez) as Hez by lia.
    remember (Z.pos mx * 2 ^ (ex - ez) - Z.pos my * 2 ^ (ey - ez)) as N eqn:EN.
    assert (units N ez = units (Z.pos mx) ex - units (Z.pos my) ey) as HN.
    { rewrite EN. unfold units. rewrite Z.mul_sub_distr_r.
      rewrite <- !Z.mul_assoc, <- !Z.pow_add_r by lia.
      replace (ex - ez + (ez - emin)) with (ex - emin) by lia.
      replace (ey - ez + (ez - emin)) with (ey - emin) by lia. lia. }
    rewrite <- HN.
    assert (0 < 2 ^ (ez - emin)) as Hp by (apply Z.pow_pos_nonneg; lia).
    assert (0 <= N) as HN0.
    { unfold units in HN at 1. nia. }
    clear EN. destruct (decide (N = 0)) as [->|HNz].
    + unfold units. rewrite Z.mul_0_l. cbn. by rewrite rn_small.
    + destruct (binary_normalize_units N ez ltac:(lia) Hez) as (m & e' & Hr & Hm & He' & Hn & Hu).
      rewrite Hr.
      assert (e' <= 971) as Hbound.
      { apply (units_exponent_bound m e'); [lia|done|done|].
        rewrite Hu. eapply Z.le_lt_trans; [|exact Hbx]. rewrite <- Hrx.
        apply rn_mono. split; [unfold units; nia|].
        rewrite HN. pose proof (units_pos (Z.pos my) ey ltac:(lia) ltac:(lia)). lia. }
      unfold finish. destruct m as [|pm|pm]; [lia| |lia].
      change (emax - prec) with 971. rewrite (proj2 (Z.leb_le e' 971) Hbound).
      cbn [sf_units]. done.
Qed.

(** *** Division of a smaller number by a larger one *)

Lemma round_nearest_even_bounds (m : Z) (l : location) :
  m <= round_nearest_even m l <= m + 1.
Proof.
  unfold round_nearest_even.
  destruct l as [|[]]; try destruct (Z.even m); lia.
Qed.

Lemma iter_shr_1_m (k : positive) (r : shr_record) :
  0 <= shr_m r -> shr_m (SpecFloat.iter_pos shr_1 k r) = shr_m r / 2 ^ Z.pos k.
Proof.
  intros Hr. rewrite iter_pos_eq. revert r Hr.
  induction k as [|k IH] using Pos.peano_ind; intros [m b c] Hm; cbn [shr_m] in Hm.
  - cbn [Pos.iter]. by rewrite shr_1_spec.
  - rewrite Pos.iter_succ_r, shr_1_spec by done. rewrite IH; cbn [shr_m].
    + rewrite Pos2Z.inj_succ, Z.pow_succ_r by lia. rewrite Z.div_div by lia. done.
    + apply Z.div_pos; lia.
Qed.

(** The first step of rounding drops the [k] low bits. *)
Lemma shr_fexp_m (Q E : Z) (l : location) :
  0 <= Q ->
  let k := Z.max 0 (fexp prec emax (Zdigits2 Q + E) - E) in
  exists r, shr_fexp prec emax Q E l = (r, E + k) /\ shr_m r = Q / 2 ^ k.
Proof.
  intros HQ k. unfold shr_fexp, shr. subst k.
  destruct (fexp prec emax (Zdigits2 Q + E) - E) as [|k|k] eqn:Hk.
  - exists (shr_record_of_loc Q l). change (Z.max 0 0) with 0.
    rewrite Z.add_0_r, Z.div_1_r. split; [done|]. by destruct l as [|[]].
  - exists (SpecFloat.iter_pos shr_1 k (shr_record_of_loc Q l)).
    change (Z.max 0 (Z.pos k)) with (Z.pos k). split; [done|].
    rewrite iter_shr_1_m; destruct l as [|[]]; done.
  - exists (shr_record_of_loc Q l). change (Z.max 0 (Z.neg k)) with 0.
    rewrite Z.add_0_r, Z.div_1_r. split; [done|]. by destruct l as [|[]].
Qed.

(** Whatever was left over by the computation of [Q], the rounded result is at
    most one unit of the last kept place above [Q]. *)
Lemma binary_round_aux_upper (s : bool) (Q E : Z) (l : location) :
  0 <= Q ->
  let k := Z.max 0 (fexp prec emax (Zdigits2 Q + E) - E) in
  emin <= E + k
  /\ exists m e, binary_round_aux prec emax s Q E l = finish s m e
                 /\ 0 <= m /\ emin <= e /\ units m e <= units (Q / 2 ^ k + 1) (E + k).
Proof.
  intros HQ k. assert (emin <= E + k) as HE1 by (subst k; rewrite fexp_eq; lia).
  split; [done|].
  unfold binary_round_aux.
  destruct (shr_fexp_m Q E l HQ) as (r1 & -> & Hr1). fold k in Hr1 |- *.
  assert (0 <= k) as Hk0 by (subst k; lia).
  assert (0 <= Q / 2 ^ k) as Hq0 by (apply Z.div_pos; [lia|by apply Z.pow_pos_nonneg]).
  pose proof (round_nearest_even_bounds (shr_m r1) (loc_of_shr_record r1)) as HM.
  remember (round_nearest_even (shr_m r1) (loc_of_shr_record r1)) as M eqn:EM. clear EM.
  rewrite Hr1 in HM.
  destruct (shr_fexp_m M (E + k) loc_Exact ltac:(lia)) as (r2 & -> & Hr2).
  remember (Z.max 0 (fexp prec emax (Zdigits2 M + (E + k)) - (E + k))) as k2 eqn:Ek2.
  assert (0 <= k2) as Hk2 by lia.
  exists (shr_m r2), (E + k + k2). split; [reflexivity|]. rewrite Hr2.
  assert (0 < 2 ^ k2) as Hp2 by (by apply Z.pow_pos_nonneg).
  split; [apply Z.div_pos; lia|]. split; [lia|].
  unfold units. replace (E + k + k2 - emin) with (k2 + (E + k - emin)) by lia.
  rewrite Z.pow_add_r, Z.mul_assoc by lia.
  assert (0 < 2 ^ (E + k - emin)) by (apply Z.pow_pos_nonneg; lia).
  apply Z.mul_le_mono_nonneg_r; [lia|].
  pose proof (Z.mul_div_le M (2 ^ k2) Hp2). lia.
Qed.

Lemma float_units_one : float_units 1 = 2 ^ 1074.
Proof. reflexivity. Qed.

Lemma canonical_exponent_le (m1 e1 m2 e2 : Z) :
  canonical m1 e1 -> canonical m2 e2 -> units m1 e1 < units m2 e2 -> e1 <= e2.
Proof.
  intros C1 C2 Hlt. pose proof (canonical_compare m1 e1 m2 e2 C1 C2) as Hc.
  apply Z.compare_lt_iff in Hlt. rewrite Hlt in Hc.
  destruct (Z.compare_spec e1 e2); [lia|lia|discriminate].
Qed.

Lemma SFdiv_below (m1 : positive) (e1 : Z) (m2 : positive) (e2 : Z) :
  canonical (Z.pos m1) e1 -> canonical (Z.pos m2) e2 ->
  units (Z.pos m1) e1 < units (Z.pos m2) e2 ->
  exists m e, SF64div (S754_finite false m1 e1) (S754_finite false m2 e2) = finish false m e
              /\ 0 <= m /\ emin <= e /\ units m e <= 2 ^ 1074.
Proof.
  intros C1 C2 Hlt. pose proof (canonical_exponent_le _ _ _ _ C1 C2 Hlt) as He.
  unfold SF64div, SFdiv, SFdiv_core_binary. cbv zeta.
  remember (Z.min (fexp prec emax (Zdigits2 (Z.pos m1) + e1 - (Zdigits2 (Z.pos m2) + e2)))
                  (e1 - e2)) as E eqn:EE.
  assert (E <= e1 - e2) as HE by lia.
  remember (e1 - e2 - E) as s eqn:Es.
  assert (0 <= s) as Hs by lia.
  assert (match s with
          | 0 => Z.pos m1
          | Z.pos _ => Z.shiftl (Z.pos m1) s
          | Z.neg _ => 0
          end = Z.pos m1 * 2 ^ s) as ->.
  { destruct s as [|p|p]; [lia| |lia]. by rewrite Z.shiftl_mul_pow2. }
  pose proof (Z.div_eucl_eq (Z.pos m1 * 2 ^ s) (Z.pos m2) ltac:(lia)) as Heq.
  pose proof (Z.mod_pos_bound (Z.pos m1 * 2 ^ s) (Z.pos m2) ltac:(lia)) as Hr.
  unfold Z.modulo in Hr.
  destruct (Z.div_eucl (Z.pos m1 * 2 ^ s) (Z.pos m2)) as [q r].
  cbn [xorb].
  assert (0 < 2 ^ s) as Hps by (by apply Z.pow_pos_nonneg).
  assert (0 <= q) as Hq0 by nia.
  (* the quotient stays below 2^(-E) *)
  assert (0 <= - E) as HnE by lia.
  assert (q < 2 ^ (- E)) as Hq.
  { destruct (decide (q < 2 ^ (- E))) as [|Hge]; [done|exfalso].
    assert (- E = s + (e2 - e1)) as HEs by lia.
    rewrite HEs, Z.pow_add_r in Hge by lia.
    unfold units in Hlt.
    destruct C1 as (_ & He1 & _).
    replace (e2 - emin) with ((e2 - e1) + (e1 - emin)) in Hlt by lia.
    rewrite Z.pow_add_r, Z.mul_assoc in Hlt by lia.
    assert (0 < 2 ^ (e1 - emin)) by (apply Z.pow_pos_nonneg; lia).
    assert (0 < 2 ^ (e2 - e1)) by (apply Z.pow_pos_nonneg; lia).
    assert (Z.pos m1 < Z.pos m2 * 2 ^ (e2 - e1)) as Hm by nia.
    assert (Z.pos m2 * (2 ^ s * 2 ^ (e2 - e1)) <= Z.pos m2 * q)
      by (apply Z.mul_le_mono_nonneg_l; lia).
    assert (Z.pos m1 * 2 ^ s < Z.pos m2 * 2 ^ (e2 - e1) * 2 ^ s)
      by (apply Z.mul_lt_mono_pos_r; lia).
    lia. }
  destruct (binary_round_aux_upper false q E (new_location (Z.pos m2) r) Hq0)
    as (HE1 & m & e & Hres & Hm0 & Hemin & Hu).
  exists m, e. split; [done|]. split; [done|]. split; [done|].
  eapply Z.le_trans; [exact Hu|].
  remember (Z.max 0 (fexp prec emax (Zdigits2 q + E) - E)) as k eqn:Ek.
  assert (0 <= k) as Hk0 by lia.
  assert (Zdigits2 q <= - E) as Hdq.
  { destruct (decide (q = 0)) as [->|Hqz]; [done|].
    destruct (Zdigits2_spec q ltac:(lia)) as [Hd1 Hd2].
    assert (2 ^ (Zdigits2 q - 1) < 2 ^ (- E)) as Hpw by lia.
    apply pow2_lt_mono in Hpw; lia. }
  assert (E + k <= 0) as HE1' by (rewrite Ek, fexp_eq; lia).
  assert (0 < 2 ^ k) as Hpk by (by apply Z.pow_pos_nonneg).
  assert (q / 2 ^ k < 2 ^ (- (E + k))) as Hdiv.
  { apply Z.div_lt_upper_bound; [done|].
    rewrite <- Z.pow_add_r by lia. by replace (k + - (E + k)) with (- E) by lia. }
  unfold units.
  assert (0 < 2 ^ (E + k - emin)) by (apply Z.pow_pos_nonneg; lia).
  replace (2 ^ 1074) with (2 ^ (- (E + k)) * 2 ^ (E + k - emin)).
  2:{ rewrite <- Z.pow_add_r by lia. f_equal. lia. }
  apply Z.mul_le_mono_nonneg_r; lia.
Qed.

(** A finite non-negative number divided by a larger one is a finite number
    between 0 and 1. *)
Lemma div_units (a b : float) :
  nonneg_finite a = true -> nonneg_finite b = true -> float_units a < float_units b ->
  nonneg_finite (a / b) = true
  /\ float_units (a / b) <= float_units 1
  /\ (float_units a = 0 -> float_units (a / b) = 0).
Proof.
  intros Ha Hb Hlt. rewrite float_units_one.
  unfold float_units in *.
  destruct (nonneg_finite_cases a Ha) as [[sa Ea]|(ma & ea & Ea & Ca)],
           (nonneg_finite_cases b Hb) as [[sb Eb]|(mb & eb & Eb & Cb)];
    rewrite Ea, Eb in *; cbn [sf_units] in *.
  - lia.
  - unfold nonneg_finite. rewrite div_spec, Ea, Eb. cbn. by destruct sa.
  - pose proof (units_pos (Z.pos ma) ea ltac:(lia) ltac:(apply Ca)). lia.
  - destruct (SFdiv_below ma ea mb eb Ca Cb Hlt) as (m & e & Hres & Hm & He & Hu).
    assert (Prim2SF (a / b) = finish false m e) as Hq by (by rewrite div_spec, Ea, Eb).
    destruct (nonneg_finite_intro (a / b) m e Hq Hm) as [Hnn Hun].
    { intros Hpos. unfold units in Hu.
      destruct (decide (e <= 971)) as [|Hbig]; [done|exfalso].
      assert (2 ^ 1075 <= 2 ^ (e - emin)) by (apply pow2_le_mono; lia).
      assert (1 * 2 ^ (e - emin) <= m * 2 ^ (e - emin)) by (apply Z.mul_le_mono_nonneg_r; lia).
      change (2 ^ 1075) with (2 * 2 ^ 1074) in *. lia. }
    split; [done|]. unfold float_units in Hun. rewrite Hun. split; [done|].
    pose proof (units_pos (Z.pos ma) ea ltac:(lia) ltac:(apply Ca)). lia.
Qed.

(** *** Consequences for the numbers of the program *)

Lemma nonneg_finite_is_a_number (x : float) : nonneg_finite x = true -> is_nan x = false.
Proof.
  unfold nonneg_finite. rewrite is_nan_spec.
  by destruct (Prim2SF x) as [s|s| |[] m e].
Qed.

Lemma float_units_zero (x : float) :
  nonneg_finite x = true -> (x =? 0)%float = (float_units x =? 0).
Proof. intros Hx. by rewrite (nonneg_finite_eqb x 0 Hx). Qed.

(** Two finite non-negative numbers with the same positive number of units are
    the same number. *)
Lemma float_units_inj (x y : float) :
  nonneg_finite x = true -> nonneg_finite y = true ->
  float_units x = float_units y -> 0 < float_units x -> x = y.
Proof.
  intros Hx Hy Heq Hpos. apply Prim2SF_inj. unfold float_units in *.
  destruct (nonneg_finite_cases x Hx) as [[sx Ex]|(mx & ex & Ex & Cx)],
           (nonneg_finite_cases y Hy) as [[sy Ey]|(my & ey & Ey & Cy)];
    rewrite Ex, Ey in *; cbn [sf_units] in *; try lia.
  pose proof (canonical_compare _ _ _ _ Cx Cy) as Hc.
  rewrite Heq, Z.compare_refl in Hc.
  destruct (Z.compare_spec ex ey) as [->| |]; try discriminate.
  apply Z.compare_eq in Hc. by injection Hc as ->.
Qed.

Lemma div_same_units (a b : float) :
  nonneg_finite a = true -> nonneg_finite b = true ->
  float_units a = float_units b -> 0 < float_units a -> (a / b)%float = 1%float.
Proof.
  intros Ha Hb Heq Hpos. rewrite <- (float_units_inj a b Ha Hb Heq Hpos).
  apply Prim2SF_inj. rewrite div_spec. unfold float_units in Hpos.
  destruct (nonneg_finite_cases a Ha) as [[sa Ea]|(ma & ea & Ea & Ca)];
    rewrite Ea in *; cbn [sf_units] in *; [lia|].
  apply SFdiv_self.
Qed.

(** A number that is not [-0], minus a number with as many units, is [+0]. *)
Lemma sub_same_units (x y : float) :
  nonneg_finite x = true -> nonneg_finite y = true ->
  float_units x = float_units y -> Prim2SF x <> S754_zero true ->
  (x - y)%float = 0%float.
Proof.
  intros Hx Hy Heq Hsign. apply Prim2SF_inj. rewrite sub_spec.
  destruct (Z_le_lt_eq_dec 0 (float_units x) (float_units_nonneg x Hx)) as [Hpos|Hz].
  - rewrite <- (float_units_inj x y Hx Hy Heq Hpos). unfold float_units in Hpos.
    destruct (nonneg_finite_cases x Hx) as [[sx Ex]|(mx & ex & Ex & Cx)];
      rewrite Ex in *; cbn [sf_units] in *; [lia|].
    unfold SF64sub, SFsub. cbv zeta. rewrite Z.min_id.
    destruct (shl_align_units mx ex ex ltac:(lia)) as [Hm Hs].
    rewrite Hs, Z.sub_diag, Z.mul_1_r in Hm. cbn [cond_Zopp negb].
    rewrite Hm, Z.sub_diag. reflexivity.
  - rewrite <- Hz in Heq. unfold float_units in *.
    destruct (nonneg_finite_cases x Hx) as [[sx Ex]|(mx & ex & Ex & Cx)],
             (nonneg_finite_cases y Hy) as [[sy Ey]|(my & ey & Ey & Cy)];
      rewrite Ex, Ey in *; cbn [sf_units] in *.
    + destruct sx; [done|]. by destruct sy.
    + pose proof (units_pos (Z.pos my) ey ltac:(lia) ltac:(apply Cy)). lia.
    + pose proof (units_pos (Z.pos mx) ex ltac:(lia) ltac:(apply Cx)). lia.
    + pose proof (units_pos (Z.pos mx) ex ltac:(lia) ltac:(apply Cx)). lia.
Qed.

Lemma zero_div_positive (b : float) :
  nonneg_finite b = true -> 0 < float_units b -> (0 / b)%float = 0%float.
Proof.
  intros Hb Hpos. apply Prim2SF_inj. rewrite div_spec. unfold float_units in Hpos.
  destruct (nonneg_finite_cases b Hb) as [[sb Eb]|(mb & eb & Eb & Cb)];
    rewrite Eb in *; cbn [sf_units] in *; [lia|]. reflexivity.
Qed.

(** [v || 0] keeps a finite non-negative number, up to the sign of zero. *)
Lemma or_zero_units (price : float) :
  nonneg_finite price = true ->
  nonneg_finite (or_zero (Some price)) = true
  /\ float_units (or_zero (Some price)) = float_units price
  /\ Prim2SF (or_zero (Some price)) <> S754_zero true.
Proof.
  intros Hp. unfold or_zero, falsy. cbn [num_isNaN num_strict_eq num_zero Binary64.number].
  rewrite (nonneg_finite_is_a_number price Hp), orb_false_l.
  destruct (price =? 0)%float eqn:Hz.
  - rewrite float_units_zero in Hz by done. apply Z.eqb_eq in Hz. by rewrite Hz.
  - split; [done|]. split; [done|]. intros Heq.
    rewrite FloatAxioms.eqb_spec, Heq in Hz. discriminate.
Qed.

(** The normalisation of a price between [min] and [max], when these differ. *)
Lemma normalize_units (raw mn mx : float) :
  nonneg_finite raw = true -> nonneg_finite mn = true -> nonneg_finite mx = true ->
  Prim2SF raw <> S754_zero true ->
  float_units mn <= float_units raw <= float_units mx ->
  float_units mn < float_units mx ->
  nonneg_finite (normalize raw mn mx) = true
  /\ float_units (normalize raw mn mx) <= float_units 1
  /\ (float_units raw = float_units mn -> normalize raw mn mx = 0%float)
  /\ (float_units raw = float_units mx -> normalize raw mn mx = 1%float).
Proof.
  intros Hraw Hmn Hmx Hsign Hbetween Hlt. unfold normalize.
  cbn [num_isNaN num_strict_eq num_zero num_half num_sub num_div Binary64.number].
  rewrite (nonneg_finite_eqb mx mn Hmx Hmn), (proj2 (Z.eqb_neq _ _)) by lia.
  destruct (sub_units raw mn Hraw Hmn ltac:(lia)) as [Ha Hua].
  destruct (sub_units mx mn Hmx Hmn ltac:(lia)) as [Hb Hub].
  assert (0 < float_units (mx - mn)) as Hbpos by (rewrite Hub; apply rn_pos; lia).
  assert (float_units (raw - mn) <= float_units (mx - mn)) as Hab
    by (rewrite Hua, Hub; apply rn_mono; lia).
  destruct (decide (float_units raw = float_units mx)) as [Htop|Hnottop].
  - assert ((raw - mn) / (mx - mn) = 1)%float as ->.
    { assert (float_units (raw - mn) = float_units (mx - mn)) as Heq
        by (by rewrite Hua, Hub, Htop).
      apply div_same_units; try done. lia. }
    repeat split; try done. lia.
  - destruct (decide (float_units (raw - mn) = float_units (mx - mn))) as [Heq|Hne].
    + assert ((raw - mn) / (mx - mn) = 1)%float as ->
        by (apply div_same_units; try done; lia).
      repeat split; try done. intros Hbot. exfalso.
      rewrite Hua, Hbot, Z.sub_diag, rn_small in Heq by done. lia.
    + destruct (div_units (raw - mn) (mx - mn) Ha Hb ltac:(lia)) as (Hv & Hv1 & _).
      rewrite (nonneg_finite_is_a_number _ Hv).
      split; [done|]. split; [done|]. split; [|done].
      intros Hbot. rewrite (sub_same_units raw mn) by done.
      by apply zero_div_positive.
Qed.
End Rounding.

(** ** Rounding of binary64 operations on finite numbers of either sign *)

Module Magnitude.
Import Binary64 Binary64Facts Rounding.
Local Open Scope Z_scope.

(** *** Magnitudes of finite numbers of either sign *)

Lemma is_finite_spec (x : float) : is_finite x = sf_finite (Prim2SF x).
Proof.
  unfold is_finite. rewrite is_nan_spec. unfold is_infinity.
  rewrite FloatAxioms.eqb_spec, abs_spec.
  destruct (Prim2SF x) as [s|s| |s m e]; try reflexivity; by destruct s.
Qed.

Lemma finite_canonical (x : float) :
  is_finite x = true ->
  (exists s, Prim2SF x = S754_zero s)
  \/ (exists s m e, Prim2SF x = S754_finite s m e /\ canonical (Z.pos m) e).
Proof.
  rewrite is_finite_spec. intros Hx. pose proof (Prim2SF_valid x) as Hvalid.
  destruct (Prim2SF x) as [s|s| |s m e]; try discriminate; [left; eauto|right].
  exists s, m, e. split; [done|]. by eapply valid_canonical.
Qed.

Lemma float_mag_abs (x : float) : float_mag x = Z.abs (float_signed x).
Proof.
  unfold float_mag, float_signed. pose proof (Prim2SF_valid x) as Hvalid.
  destruct (Prim2SF x) as [s|s| |s m e]; try reflexivity. cbn [sf_mag sf_signed].
  apply valid_canonical in Hvalid as (Hm & He & _).
  pose proof (units_pos (Z.pos m) e ltac:(lia) ltac:(lia)). destruct s; cbn [cond_Zopp]; lia.
Qed.

Lemma float_mag_nonneg (x : float) : 0 <= float_mag x.
Proof. rewrite float_mag_abs. lia. Qed.

Lemma float_mag_bound (x : float) : float_mag x < 2 ^ 2098.
Proof.
  unfold float_mag. pose proof (Prim2SF_valid x) as Hvalid.
  destruct (Prim2SF x) as [s|s| |s m e]; try reflexivity. cbn [sf_mag].
  apply valid_canonical in Hvalid as (Hm & He & _). unfold units.
  assert (0 < 2 ^ (e - emin)) by (apply Z.pow_pos_nonneg; lia).
  assert (2 ^ (e - emin) <= 2 ^ 2045) by (apply pow2_le_mono; lia).
  assert (Z.pos m * 2 ^ (e - emin) < 2 ^ 53 * 2 ^ (e - emin)) by (apply Z.mul_lt_mono_pos_r; lia).
  assert (2 ^ 53 * 2 ^ (e - emin) <= 2 ^ 53 * 2 ^ 2045) by (apply Z.mul_le_mono_nonneg_l; lia).
  change (2 ^ 2098) with (2 ^ 53 * 2 ^ 2045). lia.
Qed.

Lemma float_mag_rn (x : float) : rn (float_mag x) = float_mag x.
Proof.
  unfold float_mag. pose proof (Prim2SF_valid x) as Hvalid.
  destruct (Prim2SF x) as [s|s| |s m e]; try (by apply rn_small). cbn [sf_mag].
  apply canonical_units. by eapply valid_canonical.
Qed.

Lemma finish_finite (x : float) (s : bool) (m e : Z) :
  Prim2SF x = finish s m e -> rounded m e -> units m e < 2 ^ 2098 ->
  is_finite x = true /\ float_mag x = units m e.
Proof.
  intros Hx (Hm & He & Hn) Hlt. rewrite is_finite_spec. unfold float_mag. rewrite Hx.
  unfold finish. destruct m as [|p|p]; [by rewrite ?Z.mul_0_l| |lia].
  assert (e <= 971) as Hle by (apply (units_exponent_bound (Z.pos p) e); [lia|lia|lia|done]).
  change (emax - prec) with 971. by rewrite (proj2 (Z.leb_le e 971) Hle).
Qed.

Lemma finish_mag (x : float) (s : bool) (m e : Z) :
  Prim2SF x = finish s m e -> 0 <= m -> is_finite x = true -> float_mag x = units m e.
Proof.
  intros Hx Hm. rewrite is_finite_spec. unfold float_mag. rewrite Hx. unfold finish.
  destruct m as [|p|p]; [done| |lia]. by destruct (e <=? emax - prec).
Qed.

Lemma finite_as_finish (s : bool) (m : positive) (e : Z) :
  canonical (Z.pos m) e ->
  S754_finite s m e = finish s (Z.pos m) e /\ rounded (Z.pos m) e.
Proof.
  intros (Hm & He & Hn). unfold finish, rounded. change (emax - prec) with 971.
  rewrite (proj2 (Z.leb_le e 971)) by lia. split; [done|]. split; [lia|]. split; [lia|]. lia.
Qed.

(** *** Rounding an integer of either sign *)

Lemma binary_normalize_mag (N e : Z) (szero : bool) :
  emin <= e ->
  exists s m e',
    binary_normalize prec emax N e szero = finish s m e'
    /\ rounded m e' /\ units m e' = rn (units (Z.abs N) e).
Proof.
  intros He. destruct N as [|p|p].
  - exists szero, 0, emin. split; [done|]. split; [unfold rounded; lia|].
    unfold units. by rewrite !Z.mul_0_l, rn_small.
  - destruct (binary_round_units false p e He) as (m & e' & Hr & Hm & He' & Hn & Hu).
    exists false, m, e'. split; [done|]. split; [unfold rounded; lia|done].
  - destruct (binary_round_units true p e He) as (m & e' & Hr & Hm & He' & Hn & Hu).
    exists true, m, e'. split; [done|]. split; [unfold rounded; lia|done].
Qed.

(** A mantissa aligned to a lower exponent counts the same units. *)
Lemma aligned_term (s : bool) (m : positive) (e ez : Z) :
  emin <= ez <= e ->
  cond_Zopp s (Z.pos (shl_align m e ez).1) * 2 ^ (ez - emin) = cond_Zopp s (units (Z.pos m) e).
Proof.
  intros He. destruct (shl_align_units m e ez ltac:(lia)) as [Hm Hs].
  rewrite Hs in Hm. rewrite Hm. unfold units.
  assert (Z.pos m * 2 ^ (e - ez) * 2 ^ (ez - emin) = Z.pos m * 2 ^ (e - emin)) as Hsh.
  { rewrite <- Z.mul_assoc, <- Z.pow_add_r by lia. do 2 f_equal. lia. }
  destruct s; cbn [cond_Zopp]; rewrite ?Z.mul_opp_l, Hsh; reflexivity.
Qed.

Lemma units_abs (N e : Z) : emin <= e -> units (Z.abs N) e = Z.abs (N * 2 ^ (e - emin)).
Proof.
  intros He. unfold units. rewrite Z.abs_mul. f_equal.
  symmetry. apply Z.abs_eq. apply Z.pow_nonneg. lia.
Qed.

Lemma abs_cond_Zopp (s : bool) (z : Z) : Z.abs (cond_Zopp s z) = Z.abs z.
Proof. destruct s; cbn [cond_Zopp]; lia. Qed.

Lemma finite_rounds (s : bool) (m : positive) (e : Z) :
  canonical (Z.pos m) e ->
  exists m' e', S754_finite s m e = finish s m' e' /\ rounded m' e'
                /\ units m' e' = rn (Z.abs (cond_Zopp s (units (Z.pos m) e))).
Proof.
  intros C. destruct (finite_as_finish s m e C) as [Hf Hr].
  exists (Z.pos m), e. split; [done|]. split; [done|].
  destruct C as (Hm & He & _). pose proof (units_pos (Z.pos m) e ltac:(lia) ltac:(lia)).
  rewrite abs_cond_Zopp, Z.abs_eq by lia. symmetry. apply rn_exact; lia.
Qed.

(** Subtraction rounds the exact difference, whatever the signs. *)
Lemma sub_rounds (x y : float) :
  is_finite x = true -> is_finite y = true ->
  exists s m e,
    Prim2SF (x - y) = finish s m e /\ rounded m e
    /\ units m e = rn (Z.abs (float_signed x - float_signed y)).
Proof.
  intros Hx Hy. rewrite sub_spec. unfold float_signed.
  destruct (finite_canonical x Hx) as [[sx Ex]|(sx & mx & ex & Ex & Cx)],
           (finite_canonical y Hy) as [[sy Ey]|(sy & my & ey & Ey & Cy)];
    rewrite Ex, Ey; cbn [sf_signed].
  - exists (if sx then negb sy else false), 0, emin.
    split; [by destruct sx, sy|]. split; [unfold rounded; lia|]. by rewrite rn_small.
  - destruct (finite_rounds (negb sy) my ey Cy) as (m & e & Hf & Hr & Hu).
    exists (negb sy), m, e. split; [by rewrite <- Hf|]. split; [done|].
    rewrite Hu, Z.sub_0_l, Z.abs_opp, !abs_cond_Zopp. done.
  - destruct (finite_rounds sx mx ex Cx) as (m & e & Hf & Hr & Hu).
    exists sx, m, e. split; [by rewrite <- Hf|]. split; [done|]. by rewrite Z.sub_0_r.
  - unfold SF64sub, SFsub. cbv zeta.
    destruct Cx as (Hmx & Hex & _), Cy as (Hmy & Hey & _).
    destruct (binary_normalize_mag
                (cond_Zopp sx (Z.pos (shl_align mx ex (Z.min ex ey)).1)
                 - cond_Zopp sy (Z.pos (shl_align my ey (Z.min ex ey)).1))
                (Z.min ex ey) false ltac:(lia)) as (s & m & e & Hr & Hm & Hu).
    exists s, m, e. split; [done|]. split; [done|]. rewrite Hu. f_equal.
    rewrite units_abs, Z.mul_sub_distr_r, !aligned_term by lia. done.
Qed.

(** Addition rounds the exact sum. *)
Lemma add_rounds (x y : float) :
  is_finite x = true -> is_finite y = true ->
  exists s m e,
    Prim2SF (x + y) = finish s m e /\ rounded m e
    /\ units m e = rn (Z.abs (float_signed x + float_signed y)).
Proof.
  intros Hx Hy. rewrite add_spec. unfold float_signed.
  destruct (finite_canonical x Hx) as [[sx Ex]|(sx & mx & ex & Ex & Cx)],
           (finite_canonical y Hy) as [[sy Ey]|(sy & my & ey & Ey & Cy)];
    rewrite Ex, Ey; cbn [sf_signed].
  - exists (if sx then sy else false), 0, emin.
    split; [by destruct sx, sy|]. split; [unfold rounded; lia|]. by rewrite rn_small.
  - destruct (finite_rounds sy my ey Cy) as (m & e & Hf & Hr & Hu).
    exists sy, m, e. split; [by rewrite <- Hf|]. split; [done|]. by rewrite Z.add_0_l.
  - destruct (finite_rounds sx mx ex Cx) as (m & e & Hf & Hr & Hu).
    exists sx, m, e. split; [by rewrite <- Hf|]. split; [done|]. by rewrite Z.add_0_r.
  - unfold SF64add, SFadd. cbv zeta.
    destruct Cx as (Hmx & Hex & _), Cy as (Hmy & Hey & _).
    destruct (binary_normalize_mag
                (cond_Zopp sx (Z.pos (shl_align mx ex (Z.min ex ey)).1)
                 + cond_Zopp sy (Z.pos (shl_align my ey (Z.min ex ey)).1))
                (Z.min ex ey) false ltac:(lia)) as (s & m & e & Hr & Hm & Hu).
    exists s, m, e. split; [done|]. split; [done|]. rewrite Hu. f_equal.
    rewrite units_abs, Z.mul_add_distr_r, !aligned_term by lia. done.
Qed.

(** *** The order of finite numbers *)

Lemma finite_compare (x y : float) :
  is_finite x = true -> is_finite y = true ->
  SFcompare (Prim2SF x) (Prim2SF y) = Some (float_signed x ?= float_signed y).
Proof.
  intros Hx Hy. unfold float_signed.
  destruct (finite_canonical x Hx) as [[sx Ex]|(sx & mx & ex & Ex & Cx)],
           (finite_canonical y Hy) as [[sy Ey]|(sy & my & ey & Ey & Cy)];
    rewrite Ex, Ey; cbn [SFcompare sf_signed].
  - done.
  - pose proof (units_pos (Z.pos my) ey ltac:(lia) ltac:(apply Cy)) as Hp.
    f_equal. symmetry. destruct sy; cbn [cond_Zopp];
      [apply Z.compare_gt_iff|apply Z.compare_lt_iff]; lia.
  - pose proof (units_pos (Z.pos mx) ex ltac:(lia) ltac:(apply Cx)) as Hp.
    f_equal. symmetry. destruct sx; cbn [cond_Zopp];
      [apply Z.compare_lt_iff|apply Z.compare_gt_iff]; lia.
  - pose proof (units_pos (Z.pos mx) ex ltac:(lia) ltac:(apply Cx)) as Hpx.
    pose proof (units_pos (Z.pos my) ey ltac:(lia) ltac:(apply Cy)) as Hpy.
    pose proof (canonical_compare _ _ _ _ Cx Cy) as Hc.
    change (Pos.compare_cont Eq mx my) with (Z.pos mx ?= Z.pos my).
    f_equal. destruct sx, sy; cbn [cond_Zopp].
    + rewrite Z.compare_opp, (Z.compare_antisym (units (Z.pos mx) ex)), <- Hc.
      by destruct (ex ?= ey).
    + symmetry. apply Z.compare_lt_iff. lia.
    + symmetry. apply Z.compare_gt_iff. lia.
    + done.
Qed.

Lemma finite_ltb (x y : float) :
  is_finite x = true -> is_finite y = true ->
  (x <? y)%float = (float_signed x <? float_signed y).
Proof.
  intros Hx Hy. rewrite ltb_spec. unfold SFltb, Z.ltb. by rewrite finite_compare.
Qed.

Lemma finite_eqb (x y : float) :
  is_finite x = true -> is_finite y = true ->
  (x =? y)%float = (float_signed x =? float_signed y).
Proof.
  intros Hx Hy. rewrite FloatAxioms.eqb_spec. unfold SFeqb.
  rewrite finite_compare by done.
  destruct (Z.compare_spec (float_signed x) (float_signed y)); symmetry;
    [apply Z.eqb_eq|apply Z.eqb_neq..]; lia.
Qed.

(** *** Two different finite numbers are not too close *)

Lemma canonical_spacing (m1 e1 m2 e2 : Z) :
  canonical m1 e1 -> canonical m2 e2 -> units m1 e1 <> units m2 e2 ->
  units m1 e1 <= 2 ^ 54 * Z.abs (units m1 e1 - units m2 e2).
Proof.
  intros (Hm1 & He1 & _) (Hm2 & He2 & _) Hne. unfold units in *.
  remember (Z.min e1 e2 - emin) as el eqn:Eel.
  assert (0 <= el) by lia.
  assert (0 < 2 ^ el) as Hpl by (by apply Z.pow_pos_nonneg).
  assert (forall e, Z.min e1 e2 <= e -> 2 ^ (e - emin) = 2 ^ (e - Z.min e1 e2) * 2 ^ el) as Hsplit.
  { intros e He. rewrite <- Z.pow_add_r by lia. f_equal. lia. }
  rewrite (Hsplit e1), (Hsplit e2) in * by lia.
  remember (m1 * 2 ^ (e1 - Z.min e1 e2)) as a eqn:Ea.
  remember (m2 * 2 ^ (e2 - Z.min e1 e2)) as b eqn:Eb.
  rewrite !Z.mul_assoc, <- Ea, <- Eb in *.
  assert (a <> b) as Hab by (intros ->; lia).
  assert (a * 2 ^ el - b * 2 ^ el = (a - b) * 2 ^ el) as -> by ring.
  rewrite Z.abs_mul, (Z.abs_eq (2 ^ el)) by lia.
  assert (1 <= Z.abs (a - b)) as Hone by lia.
  assert (0 < a) as Ha0.
  { rewrite Ea. apply Z.mul_pos_pos; [lia|]. apply Z.pow_pos_nonneg; lia. }
  assert (0 < b) as Hb0.
  { rewrite Eb. apply Z.mul_pos_pos; [lia|]. apply Z.pow_pos_nonneg; lia. }
  assert (a <= 2 ^ 54 * Z.abs (a - b)) as Hgoal.
  { destruct (decide (e1 <= e2)) as [Hle|Hgt].
    - assert (a = m1) as Ham.
      { rewrite Ea. replace (e1 - Z.min e1 e2) with 0 by lia. lia. }
      change (2 ^ 54) with (2 * 2 ^ 53). nia.
    - assert (b = m2) as Hbm.
      { rewrite Eb. replace (e2 - Z.min e1 e2) with 0 by lia. lia. }
      change (2 ^ 54) with (2 * 2 ^ 53). lia. }
  rewrite Z.mul_assoc. apply Z.mul_le_mono_nonneg_r; lia.
Qed.

Lemma spacing (x y : float) :
  is_finite x = true -> is_finite y = true -> float_signed x <> float_signed y ->
  float_mag x <= 2 ^ 54 * Z.abs (float_signed x - float_signed y).
Proof.
  intros Hx Hy. unfold float_signed, float_mag.
  destruct (finite_canonical x Hx) as [[sx Ex]|(sx & mx & ex & Ex & Cx)],
           (finite_canonical y Hy) as [[sy Ey]|(sy & my & ey & Ey & Cy)];
    rewrite Ex, Ey; cbn [sf_signed sf_mag]; intros Hne.
  - done.
  - lia.
  - pose proof (units_pos (Z.pos mx) ex ltac:(lia) ltac:(apply Cx)) as Hpx.
    rewrite Z.sub_0_r, abs_cond_Zopp. lia.
  - pose proof (units_pos (Z.pos mx) ex ltac:(lia) ltac:(apply Cx)) as Hpx.
    pose proof (units_pos (Z.pos my) ey ltac:(lia) ltac:(apply Cy)) as Hpy.
    destruct sx, sy; cbn [cond_Zopp] in *.
    + replace (- units (Z.pos mx) ex - - units (Z.pos my) ey)
        with (- (units (Z.pos mx) ex - units (Z.pos my) ey)) by lia.
      rewrite Z.abs_opp. apply canonical_spacing; try done. lia.
    + lia.
    + lia.
    + apply canonical_spacing; try done.
Qed.

(** *** Upper bounds on rounded products and quotients *)

Lemma Zdigits2_le_pow (Q T : Z) : 0 <= T -> 0 <= Q <= 2 ^ T -> Zdigits2 Q <= T + 1.
Proof.
  intros HT HQ. destruct (decide (Q = 0)) as [->|Hz]; [cbn; lia|].
  destruct (Zdigits2_spec Q ltac:(lia)) as [Hd1 Hd2].
  assert (2 ^ (Zdigits2 Q - 1) < 2 ^ (T + 1)) as Hpw.
  { eapply Z.le_lt_trans; [apply Hd2|]. eapply Z.le_lt_trans; [apply HQ|].
    apply Z.pow_lt_mono_r; lia. }
  apply pow2_lt_mono in Hpw; lia.
Qed.

(** A mantissa [Q] at exponent [E] that stands for at most [2^U] rounds to at
    most [2^(U+1)]. *)
Lemma binary_round_aux_pow (s : bool) (Q E : Z) (l : location) (U : Z) :
  0 <= U -> E <= U -> 0 <= Q <= 2 ^ (U - E) ->
  exists m e, binary_round_aux prec emax s Q E l = finish s m e
              /\ 0 <= m /\ emin <= e /\ units m e <= 2 ^ (U + 1 - emin).
Proof.
  intros HU HE HQ.
  destruct (binary_round_aux_upper s Q E l ltac:(lia)) as (HE1 & m & e & Hres & Hm & He & Hu).
  exists m, e. split; [done|]. split; [done|]. split; [done|].
  eapply Z.le_trans; [exact Hu|]. clear Hu Hres.
  pose proof (Zdigits2_le_pow Q (U - E) ltac:(lia) HQ) as Hd.
  remember (Z.max 0 (fexp prec emax (Zdigits2 Q + E) - E)) as k eqn:Ek.
  rewrite fexp_eq in Ek.
  assert (0 <= k) as Hk0 by lia.
  assert (0 < 2 ^ k) as Hpk by (by apply Z.pow_pos_nonneg).
  assert (0 < 2 ^ (E + k - emin)) as Hpe by (apply Z.pow_pos_nonneg; lia).
  unfold units.
  destruct (decide (k <= U - E)) as [Hsmall|Hbig].
  - assert (Q / 2 ^ k <= 2 ^ (U - E - k)) as Hdiv.
    { apply Z.div_le_upper_bound; [done|].
      rewrite <- Z.pow_add_r by lia. replace (k + (U - E - k)) with (U - E) by lia.
      apply HQ. }
    assert (0 < 2 ^ (U - E - k)) by (apply Z.pow_pos_nonneg; lia).
    replace (2 ^ (U + 1 - emin)) with (2 * 2 ^ (U - E - k) * 2 ^ (E + k - emin)).
    2:{ rewrite <- Z.mul_assoc, <- Z.pow_add_r, <- Z.pow_succ_r by lia. f_equal. lia. }
    apply Z.mul_le_mono_nonneg_r; lia.
  - assert (Q / 2 ^ k = 0) as ->.
    { apply Z.div_small. split; [lia|]. eapply Z.le_lt_trans; [apply HQ|].
      apply Z.pow_lt_mono_r; lia. }
    rewrite Z.add_0_l, Z.mul_1_l. apply pow2_le_mono. lia.
Qed.

Lemma SFdiv_bound (s1 s2 : bool) (m1 : positive) (e1 : Z) (m2 : positive) (e2 : Z) (K : Z) :
  canonical (Z.pos m1) e1 -> canonical (Z.pos m2) e2 -> 0 <= K ->
  units (Z.pos m1) e1 <= 2 ^ K * units (Z.pos m2) e2 ->
  exists m e, SF64div (S754_finite s1 m1 e1) (S754_finite s2 m2 e2) = finish (xorb s1 s2) m e
              /\ 0 <= m /\ emin <= e /\ units m e <= 2 ^ (K + 1 - emin).
Proof.
  intros C1 C2 HK Hle.
  unfold SF64div, SFdiv, SFdiv_core_binary. cbv zeta.
  destruct C1 as (Hm1 & He1 & _), C2 as (Hm2 & He2 & _).
  destruct (Zdigits2_spec (Z.pos m1) ltac:(lia)) as [Hd1 Hb1].
  destruct (Zdigits2_spec (Z.pos m2) ltac:(lia)) as [Hd2 Hb2].
  remember (Zdigits2 (Z.pos m1)) as d1 eqn:Ed1.
  remember (Zdigits2 (Z.pos m2)) as d2 eqn:Ed2.
  unfold units in Hle.
  assert (0 < 2 ^ (e1 - emin)) as Hp1 by (apply Z.pow_pos_nonneg; lia).
  assert (0 < 2 ^ (e2 - emin)) as Hp2 by (apply Z.pow_pos_nonneg; lia).
  assert (0 < 2 ^ K) as HpK by (by apply Z.pow_pos_nonneg).
  (* the exponents of the two numbers are not too far apart *)
  assert (d1 + e1 - (d2 + e2) <= K) as Hclose.
  { assert (2 ^ (d1 - 1 + (e1 - emin)) < 2 ^ (K + d2 + (e2 - emin))) as Hpw.
    { rewrite !Z.pow_add_r by lia.
      assert (2 ^ (d1 - 1) * 2 ^ (e1 - emin) <= Z.pos m1 * 2 ^ (e1 - emin))
        by (apply Z.mul_le_mono_nonneg_r; lia).
      assert (2 ^ K * (Z.pos m2 * 2 ^ (e2 - emin)) < 2 ^ K * (2 ^ d2 * 2 ^ (e2 - emin))).
      { apply Z.mul_lt_mono_pos_l; [done|]. apply Z.mul_lt_mono_pos_r; lia. }
      rewrite <- Z.mul_assoc. lia. }
    apply pow2_lt_mono in Hpw; lia. }
  remember (Z.min (fexp prec emax (d1 + e1 - (d2 + e2))) (e1 - e2)) as E eqn:EE.
  rewrite fexp_eq in EE.
  assert (E <= e1 - e2) as HE by lia.
  assert (E <= K) as HEK by lia.
  remember (e1 - e2 - E) as s eqn:Es.
  assert (0 <= s) as Hs by lia.
  assert (match s with
          | 0 => Z.pos m1
          | Z.pos _ => Z.shiftl (Z.pos m1) s
          | Z.neg _ => 0
          end = Z.pos m1 * 2 ^ s) as ->.
  { destruct s as [|p|p]; [lia| |lia]. by rewrite Z.shiftl_mul_pow2. }
  pose proof (Z.div_eucl_eq (Z.pos m1 * 2 ^ s) (Z.pos m2) ltac:(lia)) as Heq.
  pose proof (Z.mod_pos_bound (Z.pos m1 * 2 ^ s) (Z.pos m2) ltac:(lia)) as Hr.
  unfold Z.modulo in Hr.
  destruct (Z.div_eucl (Z.pos m1 * 2 ^ s) (Z.pos m2)) as [q r].
  assert (0 < 2 ^ s) as Hps by (by apply Z.pow_pos_nonneg).
  assert (0 <= q) as Hq0 by nia.
  assert (q <= 2 ^ (K - E)) as Hq.
  { assert (0 < 2 ^ (K - E)) as HpKE by (apply Z.pow_pos_nonneg; lia).
    (* [m1 * 2^(s + e2 - emin) <= 2^(K-E) * m2 * 2^(e2 - emin)] *)
    assert (Z.pos m1 * 2 ^ s * 2 ^ (e2 - emin) <= 2 ^ (K - E) * (Z.pos m2 * 2 ^ (e2 - emin))) as Hsc.
    { rewrite <- Z.mul_assoc, <- Z.pow_add_r by lia.
      replace (s + (e2 - emin)) with (e1 - emin - E) by lia.
      destruct (decide (0 <= E)) as [Hpos|Hneg].
      - assert (0 < 2 ^ E) as HpE by (by apply Z.pow_pos_nonneg).
        apply (Z.mul_le_mono_pos_r _ _ (2 ^ E) HpE).
        rewrite <- Z.mul_assoc, <- Z.pow_add_r by lia.
        replace (e1 - emin - E + E) with (e1 - emin) by lia.
        replace (2 ^ (K - E) * (Z.pos m2 * 2 ^ (e2 - emin)) * 2 ^ E)
          with (2 ^ (K - E) * 2 ^ E * (Z.pos m2 * 2 ^ (e2 - emin))) by ring.
        rewrite <- Z.pow_add_r by lia. by replace (K - E + E) with K by lia.
      - replace (e1 - emin - E) with (e1 - emin + - E) by lia.
        replace (K - E) with (K + - E) by lia.
        rewrite !Z.pow_add_r by lia.
        assert (0 < 2 ^ (- E)) by (apply Z.pow_pos_nonneg; lia).
        replace (Z.pos m1 * (2 ^ (e1 - emin) * 2 ^ (- E)))
          with (Z.pos m1 * 2 ^ (e1 - emin) * 2 ^ (- E)) by ring.
        replace (2 ^ K * 2 ^ (- E) * (Z.pos m2 * 2 ^ (e2 - emin)))
          with (2 ^ K * (Z.pos m2 * 2 ^ (e2 - emin)) * 2 ^ (- E)) by ring.
        apply Z.mul_le_mono_nonneg_r; lia. }
    assert (Z.pos m2 * q <= Z.pos m1 * 2 ^ s) as Hqm by lia.
    assert (Z.pos m2 * q * 2 ^ (e2 - emin) <= Z.pos m1 * 2 ^ s * 2 ^ (e2 - emin))
      by (apply Z.mul_le_mono_nonneg_r; lia).
    assert (0 < Z.pos m2 * 2 ^ (e2 - emin)) as Hpos2 by (apply Z.mul_pos_pos; lia).
    apply (Z.mul_le_mono_pos_r _ _ (Z.pos m2 * 2 ^ (e2 - emin)) Hpos2). lia. }
  apply binary_round_aux_pow; lia.
Qed.

Lemma SFmul_bound (s1 s2 : bool) (m1 : positive) (e1 : Z) (m2 : positive) (e2 : Z) (A B : Z) :
  canonical (Z.pos m1) e1 -> canonical (Z.pos m2) e2 -> 0 <= A -> 0 <= B ->
  units (Z.pos m1) e1 <= 2 ^ (A - emin) -> units (Z.pos m2) e2 <= 2 ^ (B - emin) ->
  exists m e, SF64mul (S754_finite s1 m1 e1) (S754_finite s2 m2 e2) = finish (xorb s1 s2) m e
              /\ 0 <= m /\ emin <= e /\ units m e <= 2 ^ (A + B + 1 - emin).
Proof.
  intros C1 C2 HA HB H1 H2. unfold SF64mul, SFmul.
  destruct C1 as (Hm1 & He1 & _), C2 as (Hm2 & He2 & _). unfold units in H1, H2.
  assert (0 < 2 ^ (e1 - emin)) as Hp1 by (apply Z.pow_pos_nonneg; lia).
  assert (0 < 2 ^ (e2 - emin)) as Hp2 by (apply Z.pow_pos_nonneg; lia).
  rewrite Pos2Z.inj_mul.
  (* the product of the two bounds *)
  assert (Z.pos m1 * Z.pos m2 * 2 ^ (e1 + e2 - emin - emin) <= 2 ^ (A + B - emin - emin)) as Hprod.
  { replace (e1 + e2 - emin - emin) with ((e1 - emin) + (e2 - emin)) by lia.
    replace (A + B - emin - emin) with ((A - emin) + (B - emin)) by lia.
    rewrite !Z.pow_add_r by lia.
    replace (Z.pos m1 * Z.pos m2 * (2 ^ (e1 - emin) * 2 ^ (e2 - emin)))
      with (Z.pos m1 * 2 ^ (e1 - emin) * (Z.pos m2 * 2 ^ (e2 - emin))) by ring.
    apply Z.mul_le_mono_nonneg; lia. }
  remember (Z.pos m1 * Z.pos m2) as Q eqn:EQ.
  assert (1 <= Q) as HQ1 by lia.
  remember (e1 + e2) as E eqn:EE.
  assert (0 < 2 ^ (E - emin - emin)) as HpE by (apply Z.pow_pos_nonneg; lia).
  assert (E <= A + B) as HEU.
  { assert (2 ^ (E - emin - emin) <= 2 ^ (A + B - emin - emin)) as Hpw by nia.
    destruct (decide (E <= A + B)) as [|Hbig]; [done|exfalso].
    assert (2 ^ (A + B - emin - emin) < 2 ^ (E - emin - emin))
      by (apply Z.pow_lt_mono_r; lia). lia. }
  assert (Q <= 2 ^ (A + B - E)) as HQ.
  { assert (0 < 2 ^ (A + B - E)) by (apply Z.pow_pos_nonneg; lia).
    apply (Z.mul_le_mono_pos_r _ _ (2 ^ (E - emin - emin)) HpE).
    rewrite <- (Z.pow_add_r 2 (A + B - E)) by lia.
    by replace (A + B - E + (E - emin - emin)) with (A + B - emin - emin) by lia. }
  apply binary_round_aux_pow; lia.
Qed.

(** *** Bounds on the operations of the program *)

Lemma finish_finite_le (x : float) (s : bool) (m e U : Z) :
  Prim2SF x = finish s m e -> 0 <= m -> emin <= e -> units m e <= 2 ^ (U - emin) -> U <= 971 ->
  is_finite x = true /\ float_mag x = units m e.
Proof.
  intros Hx Hm He Hu HU. rewrite is_finite_spec. unfold float_mag. rewrite Hx.
  unfold finish. destruct m as [|p|p]; [by rewrite ?Z.mul_0_l| |lia].
  assert (e <= 971) as Hle.
  { destruct (decide (e <= 971)) as [|Hbig]; [done|exfalso]. unfold units in Hu.
    assert (2 ^ (U - emin) < 2 ^ (e - emin)) by (apply Z.pow_lt_mono_r; lia).
    assert (1 * 2 ^ (e - emin) <= Z.pos p * 2 ^ (e - emin))
      by (apply Z.mul_le_mono_nonneg_r; [apply Z.pow_nonneg|]; lia).
    lia. }
  change (emax - prec) with 971. by rewrite (proj2 (Z.leb_le e 971) Hle).
Qed.

Lemma div_bound (a d : float) (K : Z) :
  is_finite a = true -> is_finite d = true -> 0 < float_mag d -> 0 <= K <= 970 ->
  float_mag a <= 2 ^ K * float_mag d ->
  is_finite (a / d) = true /\ float_mag (a / d) <= 2 ^ (K + 1 - emin).
Proof.
  intros Ha Hd Hpos HK Hle. unfold float_mag in Hpos, Hle.
  destruct (finite_canonical a Ha) as [[sa Ea]|(sa & ma & ea & Ea & Ca)],
           (finite_canonical d Hd) as [[sd Ed]|(sd & md & ed & Ed & Cd)];
    rewrite ?Ea, ?Ed in *; cbn [sf_mag] in *; try lia.
  - rewrite is_finite_spec. unfold float_mag. rewrite div_spec, Ea, Ed. cbn.
    split; [done|]. apply Z.pow_nonneg. lia.
  - destruct (SFdiv_bound sa sd ma ea md ed K Ca Cd ltac:(lia) Hle) as (m & e & Hres & Hm & He & Hu).
    assert (Prim2SF (a / d) = finish (xorb sa sd) m e) as Hq by (by rewrite div_spec, Ea, Ed).
    destruct (finish_finite_le _ _ _ _ (K + 1) Hq Hm He Hu ltac:(lia)) as [Hfin Hmag].
    split; [done|]. by rewrite Hmag.
Qed.

Lemma mul_bound (x y : float) (A B : Z) :
  is_finite x = true -> is_finite y = true -> 0 <= A -> 0 <= B -> A + B <= 970 ->
  float_mag x <= 2 ^ (A - emin) -> float_mag y <= 2 ^ (B - emin) ->
  is_finite (x * y) = true /\ float_mag (x * y) <= 2 ^ (A + B + 1 - emin).
Proof.
  intros Hx Hy HA HB HAB Hmx Hmy. unfold float_mag in Hmx, Hmy.
  assert (0 <= 2 ^ (A + B + 1 - emin)) as Hnn by (apply Z.pow_nonneg; lia).
  destruct (finite_canonical x Hx) as [[sx Ex]|(sx & mx & ex & Ex & Cx)],
           (finite_canonical y Hy) as [[sy Ey]|(sy & my & ey & Ey & Cy)];
    rewrite ?Ex, ?Ey in *; cbn [sf_mag] in *.
  - rewrite is_finite_spec. unfold float_mag. rewrite mul_spec, Ex, Ey. by cbn.
  - rewrite is_finite_spec. unfold float_mag. rewrite mul_spec, Ex, Ey. by cbn.
  - rewrite is_finite_spec. unfold float_mag. rewrite mul_spec, Ex, Ey. by cbn.
  - destruct (SFmul_bound sx sy mx ex my ey A B Cx Cy HA HB Hmx Hmy) as (m & e & Hres & Hm & He & Hu).
    assert (Prim2SF (x * y) = finish (xorb sx sy) m e) as Hq by (by rewrite mul_spec, Ex, Ey).
    destruct (finish_finite_le _ _ _ _ (A + B + 1) Hq Hm He Hu ltac:(lia)) as [Hfin Hmag].
    split; [done|]. by rewrite Hmag.
Qed.

Lemma add_bound (x y : float) :
  is_finite x = true -> is_finite y = true -> rn (float_mag x + float_mag y) < 2 ^ 2098 ->
  is_finite (x + y) = true /\ float_mag (x + y) <= rn (float_mag x + float_mag y).
Proof.
  intros Hx Hy Hlt. destruct (add_rounds x y Hx Hy) as (s & m & e & Hr & Hrd & Hu).
  assert (units m e <= rn (float_mag x + float_mag y)) as Hle.
  { rewrite Hu. apply rn_mono. rewrite !float_mag_abs. lia. }
  destruct (finish_finite _ _ _ _ Hr Hrd ltac:(lia)) as [Hfin Hmag].
  split; [done|]. by rewrite Hmag.
Qed.

Lemma sub_bound (x y : float) :
  is_finite x = true -> is_finite y = true -> rn (float_mag x + float_mag y) < 2 ^ 2098 ->
  is_finite (x - y) = true /\ float_mag (x - y) <= rn (float_mag x + float_mag y).
Proof.
  intros Hx Hy Hlt. destruct (sub_rounds x y Hx Hy) as (s & m & e & Hr & Hrd & Hu).
  assert (units m e <= rn (float_mag x + float_mag y)) as Hle.
  { rewrite Hu. apply rn_mono. rewrite !float_mag_abs. lia. }
  destruct (finish_finite _ _ _ _ Hr Hrd ltac:(lia)) as [Hfin Hmag].
  split; [done|]. by rewrite Hmag.
Qed.

(** The magnitude of a finite difference is the rounded exact difference. *)
Lemma sub_mag (x y : float) :
  is_finite x = true -> is_finite y = true -> is_finite (x - y) = true ->
  float_mag (x - y) = rn (Z.abs (float_signed x - float_signed y)).
Proof.
  intros Hx Hy Hd. destruct (sub_rounds x y Hx Hy) as (s & m & e & Hr & Hrd & Hu).
  rewrite <- Hu. eapply finish_mag; [exact Hr|apply Hrd|done].
Qed.

Lemma sub_finite_inv (x y : float) :
  is_finite (x - y) = true -> is_finite x = true /\ is_finite y = true.
Proof.
  rewrite !is_finite_spec, sub_spec.
  destruct (Prim2SF x) as [sx|sx| |sx mx ex], (Prim2SF y) as [sy|sy| |sy my ey];
    try done; try destruct sx; try destruct sy; done.
Qed.

(** Dividing by an infinity gives a zero or NaN. *)
Lemma div_by_nonfinite (a d : float) :
  is_finite d = false -> is_nan (a / d) = false ->
  is_finite (a / d) = true /\ float_mag (a / d) = 0.
Proof.
  rewrite !is_finite_spec, is_nan_spec. unfold float_mag. rewrite div_spec.
  destruct (Prim2SF a) as [sa|sa| |sa ma ea], (Prim2SF d) as [sd|sd| |sd md ed]; done.
Qed.

Lemma of_length_mag (n : nat) :
  (0 < n)%nat -> Z.of_nat n < 2 ^ 53 ->
  is_finite (of_length n) = true /\ float_mag (of_length n) = Z.of_nat n * 2 ^ 1074.
Proof.
  intros Hn Hlt.
  assert (Prim2SF (of_length n) = binary_normalize prec emax (Z.of_nat n) 0 false) as Hspec.
  { unfold of_length. rewrite of_uint63_spec, Uint63.of_Z_spec. rewrite Z.mod_small; [done|].
    split; [lia|]. eapply Z.lt_trans; [exact Hlt|]. reflexivity. }
  destruct (binary_normalize_mag (Z.of_nat n) 0 false ltac:(lia)) as (s & m & e & Hr & Hrd & Hu).
  rewrite <- Hspec in Hr. rewrite Z.abs_eq in Hu by lia.
  assert (units (Z.of_nat n) 0 = Z.of_nat n * 2 ^ 1074) as Hun by reflexivity.
  rewrite Hun, rn_exact in Hu by lia.
  apply finish_finite in Hr as [Hfin Hmag]; [|done|].
  - split; [done|]. by rewrite Hmag.
  - rewrite Hu. change (2 ^ 2098) with (2 ^ 53 * 2 ^ 1074 * 2 ^ 971).
    assert (Z.of_nat n * 2 ^ 1074 < 2 ^ 53 * 2 ^ 1074) by (apply Z.mul_lt_mono_pos_r; lia).
    lia.
Qed.

(** *** [Math.min] and [Math.max] of any list *)

Lemma nan_not_finite (x : float) : is_nan x = true -> is_finite x = false.
Proof. intros Hx. unfold is_finite. by rewrite Hx. Qed.

Lemma finite_is_a_number (x : float) : is_finite x = true -> is_nan x = false.
Proof. intros Hx. destruct (is_nan x) eqn:Hn; [|done]. by rewrite nan_not_finite in Hx. Qed.

Lemma fold_min_nan (values : list float) (acc : float) :
  is_nan acc = true -> is_nan (fold_left min_step values acc) = true.
Proof.
  revert acc. induction values as [|x values IH]; intros acc Hacc; [done|].
  cbn [fold_left]. apply IH. unfold min_step. cbn [num_isNaN number]. by rewrite Hacc.
Qed.

Lemma fold_max_nan (values : list float) (acc : float) :
  is_nan acc = true -> is_nan (fold_left max_step values acc) = true.
Proof.
  revert acc. induction values as [|x values IH]; intros acc Hacc; [done|].
  cbn [fold_left]. apply IH. unfold max_step. cbn [num_isNaN number]. by rewrite Hacc.
Qed.

(** A NaN argument makes the result NaN. *)
Lemma Math_min_nan (values : list float) :
  Exists (fun p => is_nan p = true) values -> is_nan (Math_min values) = true.
Proof.
  unfold Math_min. generalize (num_infinity (num := float)).
  induction values as [|x values IH]; intros acc HE; [by apply Exists_nil in HE|].
  cbn [fold_left]. apply Exists_cons in HE as [Hx|Htail]; [|by apply IH].
  apply fold_min_nan. unfold min_step. cbn [num_isNaN num_nan number].
  rewrite Hx. by destruct (is_nan acc) eqn:Hacc.
Qed.

Lemma Math_max_nan (values : list float) :
  Exists (fun p => is_nan p = true) values -> is_nan (Math_max values) = true.
Proof.
  unfold Math_max. generalize (- num_infinity (num := float))%js.
  induction values as [|x values IH]; intros acc HE; [by apply Exists_nil in HE|].
  cbn [fold_left]. apply Exists_cons in HE as [Hx|Htail]; [|by apply IH].
  apply fold_max_nan. unfold max_step. cbn [num_isNaN num_nan number].
  rewrite Hx. by destruct (is_nan acc) eqn:Hacc.
Qed.

(** A number that is neither below a finite number nor above another is finite
    and lies between them. *)
Lemma between_finite (p mn mx : float) :
  is_nan p = false -> is_finite mn = true -> is_finite mx = true ->
  (p <? mn)%float = false -> (mx <? p)%float = false ->
  is_finite p = true /\ float_signed mn <= float_signed p <= float_signed mx.
Proof.
  intros Hp Hmn Hmx Hlo Hhi.
  assert (is_finite p = true) as Hfin.
  { rewrite is_nan_spec in Hp. rewrite is_finite_spec in *.
    rewrite ltb_spec in Hlo, Hhi.
    destruct (Prim2SF p) as [s|[]| |s m e]; try done.
    - by destruct (Prim2SF mn) as [s'|[]| |[] m' e'].
    - by destruct (Prim2SF mx) as [s'|[]| |[] m' e']. }
  split; [done|]. rewrite finite_ltb in Hlo, Hhi by done.
  apply Z.ltb_ge in Hlo, Hhi. lia.
Qed.

Lemma finite_extremes (P : list float) :
  is_finite (Math_min P) = true -> is_finite (Math_max P) = true ->
  Math_min P ∈ P /\ Math_max P ∈ P
  /\ forall p, p ∈ P ->
       is_finite p = true
       /\ float_signed (Math_min P) <= float_signed p <= float_signed (Math_max P).
Proof.
  intros Hmn Hmx.
  assert (Forall (fun p : float => num_isNaN p = false) P) as Hnum.
  { apply Forall_forall. intros p Hp. cbn [num_isNaN number].
    destruct (is_nan p) eqn:Hnan; [|done].
    rewrite nan_not_finite in Hmn; [done|]. apply Math_min_nan.
    apply Exists_exists. eauto. }
  assert (P <> []) as Hne by (intros ->; discriminate).
  destruct (Math_min_spec P Hne Hnum) as (_ & Hmin_in & Hmin_le).
  destruct (Math_max_spec P Hne Hnum) as (_ & Hmax_in & Hmax_le).
  split; [done|]. split; [done|]. intros p Hp.
  rewrite Forall_forall in Hnum, Hmin_le, Hmax_le.
  apply between_finite; auto.
Qed.

(** *** The values stored in the table are never large *)

Lemma bounded_mono (K K' : Z) (x : float) : K <= K' -> emin <= K -> bounded K x -> bounded K' x.
Proof.
  intros HK Hm [Hfin Hmag]. split; [done|].
  eapply Z.le_trans; [exact Hmag|]. apply pow2_le_mono. lia.
Qed.

Lemma bounded_zero (K : Z) : emin <= K -> bounded K 0.
Proof. intros HK. split; [done|]. apply Z.pow_nonneg. lia. Qed.

Lemma rn_at_least_half (D : Z) : 0 <= D -> D <= 2 * rn D.
Proof.
  intros HD. destruct (decide (D = 0)) as [->|Hz]; [done|].
  destruct (Zdigits2_spec D ltac:(lia)) as [Hd1 Hd2].
  assert (0 < 2 ^ (Zdigits2 D - 1)) by (apply Z.pow_pos_nonneg; lia).
  pose proof (rn_mono (2 ^ (Zdigits2 D - 1)) D ltac:(lia)) as Hmono.
  pose proof (rn_exact 1 (Zdigits2 D - 1) ltac:(lia) ltac:(lia)) as Hex.
  rewrite Z.mul_1_l in Hex. rewrite Hex in Hmono.
  assert (2 ^ Zdigits2 D = 2 * 2 ^ (Zdigits2 D - 1)) as Hpow.
  { rewrite <- Z.pow_succ_r by lia. f_equal. lia. }
  lia.
Qed.

Lemma normalize_bounded (P : list float) (raw : option float) :
  (forall p, raw = Some p -> p ∈ P) ->
  bounded 56 (normalize (or_zero raw) (Math_min P) (Math_max P)).
Proof.
  intros Hraw. unfold normalize.
  cbn [num_isNaN num_strict_eq num_zero num_half num_sub num_div number].
  remember (Math_min P) as mn eqn:Emn. remember (Math_max P) as mx eqn:Emx.
  destruct (mx =? mn)%float eqn:Heq.
  { split; [reflexivity|]. apply Z.leb_le. reflexivity. }
  remember (or_zero raw) as raw' eqn:Eraw.
  destruct (is_nan ((raw' - mn) / (mx - mn))) eqn:Hnan; [by apply bounded_zero|].
  destruct (is_finite (mx - mn)) eqn:Hd.
  2:{ destruct (div_by_nonfinite _ _ Hd Hnan) as [Hfin Hmag].
      split; [done|]. rewrite Hmag. apply Z.pow_nonneg. lia. }
  destruct (sub_finite_inv mx mn Hd) as [Fmx Fmn].
  rewrite Emn in Fmn. rewrite Emx in Fmx.
  destruct (finite_extremes P Fmn Fmx) as (Hmin_in & Hmax_in & Hall).
  rewrite <- Emn in *. rewrite <- Emx in *.
  rewrite finite_eqb in Heq by done. apply Z.eqb_neq in Heq.
  pose proof (Hall mx Hmax_in) as [_ Horder].
  pose proof (sub_mag mx mn Fmx Fmn Hd) as Hdmag.
  rewrite Z.abs_eq in Hdmag by lia.
  remember (float_signed mx - float_signed mn) as D eqn:ED.
  assert (0 < D) as HD by lia.
  pose proof (rn_pos D HD) as Hdpos. rewrite <- Hdmag in Hdpos.
  pose proof (float_mag_bound (mx - mn)) as Hdb.
  assert (is_finite raw' = true /\ float_mag (raw' - mn) <= 2 ^ 55 * float_mag (mx - mn)
          /\ is_finite (raw' - mn) = true) as (Fraw & Hamag & Fa).
  { assert (raw' = 0%float \/ exists p, raw = Some p /\ raw' = p) as [->|(p & -> & ->)].
    { rewrite Eraw. destruct raw as [p|]; [|by left]. cbn [or_zero].
      destruct (falsy p); [by left|right; eauto]. }
    - split; [reflexivity|].
      destruct (sub_rounds 0 mn eq_refl Fmn) as (s & m & e & Hr & Hrd & Hu).
      change (float_signed 0) with 0 in Hu.
      rewrite Z.sub_0_l, Z.abs_opp, <- float_mag_abs, float_mag_rn in Hu.
      pose proof (float_mag_bound mn) as Hmb.
      destruct (finish_finite _ _ _ _ Hr Hrd ltac:(lia)) as [Hfin Hmag].
      split; [|done]. rewrite Hmag, Hu.
      pose proof (spacing mn mx Fmn Fmx ltac:(lia)) as Hsp.
      replace (Z.abs (float_signed mn - float_signed mx)) with D in Hsp by lia.
      pose proof (rn_at_least_half D ltac:(lia)) as Hhalf. rewrite <- Hdmag in Hhalf.
      change (2 ^ 55) with (2 ^ 54 * 2). lia.
    - destruct (Hall p (Hraw p eq_refl)) as [Fp Hp].
      split; [done|].
      destruct (sub_rounds p mn Fp Fmn) as (s & m & e & Hr & Hrd & Hu).
      assert (units m e <= float_mag (mx - mn)) as Hle.
      { rewrite Hu, Hdmag. apply rn_mono. lia. }
      destruct (finish_finite _ _ _ _ Hr Hrd ltac:(lia)) as [Hfin Hmag].
      split; [|done]. rewrite Hmag. lia. }
  destruct (div_bound (raw' - mn) (mx - mn) 55 Fa Hd Hdpos ltac:(lia) Hamag) as [Fq Hq].
  split; [done|]. exact Hq.
Qed.

(** *** Sums, and the variance term of a column of the table *)

Lemma fold_add_bounded (xs : list float) (K : Z) (acc : float) (j : Z) :
  emin <= K <= 900 -> Forall (bounded K) xs ->
  is_finite acc = true -> 0 <= j -> float_mag acc <= j * 2 ^ (K - emin) ->
  j + Z.of_nat (length xs) < 2 ^ 53 ->
  is_finite (fold_left PrimFloat.add xs acc) = true
  /\ float_mag (fold_left PrimFloat.add xs acc) <= (j + Z.of_nat (length xs)) * 2 ^ (K - emin).
Proof.
  intros HK Hxs. revert acc j.
  induction Hxs as [|x xs [Fx Hx] _ IH]; intros acc j Facc Hj Hacc Hlen.
  { cbn [fold_left length]. split; [done|]. by rewrite Z.add_0_r. }
  cbn [fold_left]. rewrite length_cons, Nat2Z.inj_succ in Hlen |- *.
  assert (0 < 2 ^ (K - emin)) as Hp by (apply Z.pow_pos_nonneg; lia).
  pose proof (float_mag_nonneg acc) as Hacc0. pose proof (float_mag_nonneg x) as Hx0.
  assert (rn (float_mag acc + float_mag x) <= (j + 1) * 2 ^ (K - emin)) as Hrn.
  { rewrite <- (rn_exact (j + 1) (K - emin)) by lia. apply rn_mono. lia. }
  assert ((j + 1) * 2 ^ (K - emin) < 2 ^ 2098) as Hbig.
  { assert (2 ^ (K - emin) <= 2 ^ 1974) by (apply pow2_le_mono; lia).
    assert ((j + 1) * 2 ^ (K - emin) < 2 ^ 53 * 2 ^ (K - emin)) by (apply Z.mul_lt_mono_pos_r; lia).
    assert (2 ^ 53 * 2 ^ (K - emin) <= 2 ^ 53 * 2 ^ 1974) by (apply Z.mul_le_mono_nonneg_l; lia).
    change (2 ^ 2098) with (2 ^ 53 * 2 ^ 1974 * 2 ^ 71). lia. }
  destruct (add_bound acc x Facc Fx ltac:(lia)) as [Fsum Hsum].
  destruct (IH (acc + x)%float (j + 1) Fsum ltac:(lia) ltac:(lia) ltac:(lia)) as [Ffold Hfold].
  split; [done|]. by replace (j + Z.succ (Z.of_nat (length xs))) with (j + 1 + Z.of_nat (length xs)) by lia.
Qed.

Lemma reduce_sum_bounded (xs : list float) (K : Z) :
  emin <= K <= 900 -> Forall (bounded K) xs -> Z.of_nat (length xs) < 2 ^ 32 ->
  bounded (K + 32) (reduce_sum xs).
Proof.
  intros HK Hxs Hlen. unfold reduce_sum. cbn [num_add num_zero number].
  destruct (fold_add_bounded xs K 0%float 0 HK Hxs eq_refl ltac:(lia) ltac:(done) ltac:(lia))
    as [Ffold Hfold].
  split; [done|]. eapply Z.le_trans; [exact Hfold|].
  replace (K + 32 - emin) with (32 + (K - emin)) by lia. rewrite Z.pow_add_r by lia.
  apply Z.mul_le_mono_nonneg_r; [apply Z.pow_nonneg|]; lia.
Qed.

Lemma squares_bounded (xs : list float) (K : Z) :
  0 <= K <= 400 -> Forall (bounded K) xs ->
  Forall (bounded (K + K + 1)) (map (fun val => (val * val)%js) xs).
Proof.
  intros HK Hxs. apply Forall_map. eapply Forall_impl; [exact Hxs|].
  intros x [Fx Hx]. cbn [num_mul number]. by apply mul_bound; try lia.
Qed.

(** The variance term of a column of numbers of absolute value at most
    [2^56] is finite. *)
Lemma variance_term_finite (xs : list float) (n : nat) :
  Forall (bounded 56) xs -> length xs = n -> (0 < n)%nat -> Z.of_nat n < 2 ^ 32 ->
  is_finite (variance_term (of_length n) xs) = true.
Proof.
  intros Hxs Hlen Hn Hlt.
  destruct (reduce_sum_bounded xs 56 ltac:(lia) Hxs ltac:(lia)) as [Fsum Hsum].
  pose proof (squares_bounded xs 56 ltac:(lia) Hxs) as Hsq.
  destruct (reduce_sum_bounded _ (56 + 56 + 1) ltac:(lia) Hsq) as [Fsum2 Hsum2].
  { rewrite length_map. lia. }
  unfold variance_term. cbv zeta.
  remember (reduce_sum xs) as sum eqn:Esum.
  remember (reduce_sum (map (fun val => (val * val)%js) xs)) as sum2 eqn:Esum2.
  cbn [num_mul num_sub num_div number].
  change (56 + 32 - emin) with (88 - emin) in Hsum.
  change (56 + 56 + 1 + 32 - emin) with (145 - emin) in Hsum2.
  destruct (mul_bound sum sum 88 88 Fsum Fsum) as [Fprod Hprod]; [lia|lia|lia|done|done|].
  change (88 + 88 + 1 - emin) with (177 - emin) in Hprod.
  destruct (of_length_mag n Hn) as [Fn Hnmag].
  { eapply Z.lt_trans; [exact Hlt|]. reflexivity. }
  destruct (div_bound (sum * sum) (of_length n) 177 Fprod Fn) as [Fq Hq].
  { rewrite Hnmag. lia. }
  { lia. }
  { eapply Z.le_trans; [exact Hprod|]. rewrite Hnmag.
    change (2 ^ (177 - emin)) with (2 ^ 177 * (1 * 2 ^ 1074)).
    apply Z.mul_le_mono_nonneg_l; [lia|]. apply Z.mul_le_mono_nonneg_r; lia. }
  change (177 + 1 - emin) with (178 - emin) in Hq.
  remember (sum * sum / of_length n)%float as q eqn:Eq.
  apply sub_bound; try done.
  pose proof (float_mag_nonneg sum2). pose proof (float_mag_nonneg q).
  assert (2 ^ (145 - emin) <= 2 ^ (178 - emin)) by (apply pow2_le_mono; lia).
  assert (2 ^ (179 - emin) = 2 * 2 ^ (178 - emin)) as Hpow.
  { rewrite <- Z.pow_succ_r by lia. f_equal. }
  eapply Z.le_lt_trans.
  { apply (rn_mono _ (1 * 2 ^ (179 - emin))). lia. }
  rewrite rn_exact by lia. rewrite Z.mul_1_l. apply Z.pow_lt_mono_r; lia.
Qed.

Lemma column_bounded (table : list (PriceData float)) (key : string) (K : Z) :
  emin <= K ->
  Forall (fun entry => exists v, entry !! key = Some (VNumber v) /\ bounded K v) table ->
  Forall (bounded K) (EthChart.column table key)
  /\ length (EthChart.column table key) = length table.
Proof.
  intros HK. unfold EthChart.column, numbers_of, get.
  induction 1 as [|entry table (v & Hv & Hb) _ [IH1 IH2]]; [done|].
  cbn [map]. rewrite Hv. cbn -[falsy].
  destruct (falsy v); cbn; (split; [apply Forall_cons; split; [|done]|by rewrite IH2]).
  - by apply bounded_zero.
  - done.
Qed.
End Magnitude.

(** ** The correlation matrix as a table of [pearsonCorrelation] values *)

Section Matrix.
Context {num : Type} `{Number num} `{MathSqrt num}.

Lemma calculateCorrelationMatrix_eq (data : list (PriceData num)) :
  EthChart.calculateCorrelationMatrix data
  = map (fun coinA =>
           map (fun coinB =>
                  EthChart.pearsonCorrelation (EthChart.column data coinA)
                                              (EthChart.column data coinB))
               EthChart.matrix_coins)
        EthChart.matrix_coins.
Proof. reflexivity. Qed.

Lemma matrix_entry_eq (data : list (PriceData num)) (i j : nat) :
  matrix_entry (EthChart.calculateCorrelationMatrix data) i j
  = coinA ← EthChart.matrix_coins !! i;
    coinB ← EthChart.matrix_coins !! j;
    Some (EthChart.pearsonCorrelation (EthChart.column data coinA)
                                      (EthChart.column data coinB)).
Proof.
  rewrite calculateCorrelationMatrix_eq. unfold matrix_entry.
  rewrite lookup_map. destruct (EthChart.matrix_coins !! i) as [coinA|]; [|done].
  cbn [fmap option_fmap option_map mbind option_bind]. rewrite lookup_map. by destruct (EthChart.matrix_coins !! j).
Qed.

Lemma numbers_of_length (l : list (value num)) :
  Forall (fun v => exists x, v = VNumber x) l -> length (numbers_of l) = length l.
Proof.
  unfold numbers_of. induction 1 as [|v l [x ->] _ IH]; [done|]. cbn. by rewrite IH.
Qed.

(** On a well-typed table every column has one number per row. *)
Lemma column_length (data : list (PriceData num)) (key : string) :
  well_typed data -> key ∈ EthChart.matrix_coins ->
  length (EthChart.column data key) = length data.
Proof.
  intros Hwt Hkey. unfold EthChart.column.
  rewrite numbers_of_length; [by rewrite length_map|].
  apply Forall_map. eapply Forall_impl; [exact Hwt|].
  intros entry Hentry. cbn. rewrite Forall_forall in Hentry.
  specialize (Hentry key Hkey). unfold get, declared_number in *.
  destruct (entry !! key) as [[|x|s]|]; cbn; eauto.
  - destruct (falsy x); eauto.
  - by destruct (Hentry s).
Qed.
End Matrix.

Section ConstantSeries.
Import Binary64 Binary64Facts.
Variable argument_limit : nat.
Variable toLocaleDateString : float -> string.

(** [min] and [max] of a non-empty series whose prices all equal [p] are
    equal, in both components: [CryptoChart] takes [min] over the prices that
    are not 0, and 0 when there is none. *)
Lemma constant_series_minMax comp (prices_of : string -> list (float * float))
    (c : string) (p : float) :
  prices_of c <> [] ->
  Forall (fun q => (q =? p)%float = true) (map snd (prices_of c)) ->
  (snd (minMax_of comp prices_of c) =? fst (minMax_of comp prices_of c))%float = true.
Proof.
  intros Hne Hall.
  assert (map snd (prices_of c) <> []) as Hne' by (by destruct (prices_of c)).
  assert (Forall (fun q : float => num_isNaN q = false) (map snd (prices_of c))) as Hnum.
  { eapply Forall_impl; [exact Hall|]. intros q Hq. by apply eqb_is_number in Hq as [? _]. }
  destruct (Math_max_spec _ Hne' Hnum) as (_ & Hmax & _).
  destruct (Math_min_spec _ Hne' Hnum) as (_ & Hmin & _).
  rewrite Forall_forall in Hall.
  pose proof (Hall _ Hmax) as Hmax_p. pose proof (Hall _ Hmin) as Hmin_p.
  destruct comp; cbn [minMax_of].
  - unfold EthChart_minMax_of. cbn [fst snd].
    eapply eqb_trans; [exact Hmax_p|]. by apply eqb_sym.
  - unfold CryptoChart_minMax_of.
    destruct (decide (0 < length (prices_of c))%nat) as [_|Hlen];
      [|destruct (prices_of c); [congruence|cbn [length] in Hlen; lia]].
    cbv zeta. cbn [fst snd].
    destruct (decide (0 < length (CryptoChart.validPrices (map snd (prices_of c))))%nat)
      as [Hvalid|Hnone].
    + assert (CryptoChart.validPrices (map snd (prices_of c)) <> []) as Hne''
        by (destruct (CryptoChart.validPrices _); [cbn [length] in Hvalid; lia|done]).
      assert (Forall (fun q : float => num_isNaN q = false)
                     (CryptoChart.validPrices (map snd (prices_of c)))) as Hnum'.
      { apply Forall_forall. intros q [_ Hq]%list_elem_of_filter.
        rewrite Forall_forall in Hnum. by apply Hnum. }
      destruct (Math_min_spec _ Hne'' Hnum') as (_ & [_ Hin]%list_elem_of_filter & _).
      eapply eqb_trans; [exact Hmax_p|]. by apply eqb_sym, Hall.
    + (* every price is 0 *)
      assert ((Math_min (map snd (prices_of c)) =? 0)%float = true) as Hzero.
      { destruct (Math_min (map snd (prices_of c)) =? 0)%float eqn:Hz; [done|].
        exfalso. apply Hnone.
        assert (Math_min (map snd (prices_of c))
                ∈ CryptoChart.validPrices (map snd (prices_of c))) as Hin.
        { apply list_elem_of_filter. split; [|done].
          cbn [num_strict_eq num_zero num_isNaN number]. rewrite Hz.
          apply eqb_is_number in Hmin_p as [-> _]. done. }
        destruct (CryptoChart.validPrices _); [by apply elem_of_nil in Hin|cbn; lia]. }
      cbn [num_zero number].
      eapply eqb_trans; [exact Hmax_p|].
      eapply eqb_trans; [apply eqb_sym; exact Hmin_p|]. exact Hzero.
Qed.

(** C1. In both components, a coin whose series is not empty and has all its
    prices equal gets the value 0.5 in every row of the table. *)
Theorem constant_series_is_half comp (prices_of : string -> list (float * float))
    (i : nat) (c : string) (index : nat) (p : float) :
  within_limit argument_limit comp prices_of = true ->
  EthChart.coins !! i = Some c ->
  prices_of c <> [] ->
  Forall (fun q => (q =? p)%float = true) (map snd (prices_of c)) ->
  (index < length (prices_of "bitcoin"%string))%nat ->
  exists table,
    table_of argument_limit toLocaleDateString comp prices_of = inr table
    /\ cell_of table index (coinKey c) = Some (VNumber 0.5%float).
Proof.
  intros Hfits Hc Hne Hall Hlt.
  destruct (table_cell toLocaleDateString argument_limit comp prices_of i c index Hfits Hc Hlt)
    as (table & Htable & _ & Hcell).
  exists table. split; [done|]. rewrite Hcell.
  unfold normalize. cbn [num_strict_eq num_half num_isNaN Binary64.number].
  by rewrite (constant_series_minMax comp prices_of c p Hne Hall).
Qed.
End ConstantSeries.

Lemma constant_series_is_half_witness :
  exists table,
    table_of Samples.argument_limit Samples.no_date Crypto Samples.sample_prices = inr table
    /\ cell_of table 1 "sol"%string = Some (VNumber 0.5%float).
Proof.
  apply (constant_series_is_half Samples.argument_limit Samples.no_date Crypto
           Samples.sample_prices 3 "solana"%string 1 10%float);
    [reflexivity | reflexivity | discriminate | repeat constructor | vm_compute; lia].
Defined.

(** ** Symmetry of the correlation *)

Section Symmetry.
Import Binary64 Binary64Facts.

Lemma cross_products_comm (x y : list float) :
  length x = length y ->
  imap (fun i val => (val * at_index y i)%js) x = imap (fun i val => (val * at_index x i)%js) y.
Proof.
  intros Hlen. apply list_eq. intros i. rewrite !list_lookup_imap. unfold at_index.
  destruct (x !! i) as [xi|] eqn:Hx, (y !! i) as [yi|] eqn:Hy; cbn.
  - f_equal. apply mul_comm.
  - apply lookup_lt_Some in Hx. apply lookup_ge_None in Hy. lia.
  - apply lookup_lt_Some in Hy. apply lookup_ge_None in Hx. lia.
  - done.
Qed.

Lemma pearsonCorrelation_comm (x y : list float) :
  length x = length y ->
  EthChart.pearsonCorrelation x y = EthChart.pearsonCorrelation y x.
Proof.
  intros Hlen. unfold EthChart.pearsonCorrelation.
  rewrite (cross_products_comm x y Hlen), Hlen.
  cbn [num_mul num_sub num_div number].
  rewrite (mul_comm (reduce_sum x) (reduce_sum y)).
  by rewrite (mul_comm (_ - _)%float (_ - _)%float).
Qed.

(** A number is [===] to itself unless it is NaN. *)
Lemma eqb_refl_number (a : float) : is_nan a = false -> (a =? a)%float = true.
Proof.
  rewrite is_nan_spec, FloatAxioms.eqb_spec, SFeqb_key, lex_refl. intros ->. reflexivity.
Qed.

(** C2. When the first fetched series is empty, [fetchData] builds the empty
    table and its matrix; the entries [matrix[1][3]] and [matrix[3][1]] are
    both NaN, and NaN is not [==] to NaN: the matrix is not symmetric. *)
Theorem empty_table_matrix_not_symmetric (argument_limit : nat) :
  exists matrix a b,
    EthChart.fetchData_core argument_limit Samples.no_date (EthChart.results_of (fun _ => []))
    = inr ([], matrix)
    /\ matrix_entry matrix 1 3 = Some a
    /\ matrix_entry matrix 3 1 = Some b
    /\ is_nan a = true /\ is_nan b = true
    /\ (a === b)%js = false.
Proof. by exists (replicate 5 (replicate 5 nan)), nan, nan. Qed.

(** X12. The correlation of two columns of equal length does not depend on their
    order, and in the matrix computed from a table typed as [PriceData] the
    entries [matrix[i][j]] and [matrix[j][i]] are the same number: they are
    [===] unless they are NaN. *)
Theorem matrix_symmetric_unless_nan (data : list (PriceData float)) (x y : list float)
    (i j : nat) :
  well_typed data ->
  length x = length y ->
  EthChart.pearsonCorrelation x y = EthChart.pearsonCorrelation y x
  /\ matrix_entry (EthChart.calculateCorrelationMatrix data) i j
     = matrix_entry (EthChart.calculateCorrelationMatrix data) j i
  /\ forall a, matrix_entry (EthChart.calculateCorrelationMatrix data) i j = Some a ->
       is_nan a = false ->
       exists b, matrix_entry (EthChart.calculateCorrelationMatrix data) j i = Some b
                 /\ (a === b)%js = true.
Proof.
  intros Hwt Hlen. split; [by apply pearsonCorrelation_comm|].
  assert (matrix_entry (EthChart.calculateCorrelationMatrix data) i j
          = matrix_entry (EthChart.calculateCorrelationMatrix data) j i) as Hsym.
  { rewrite !matrix_entry_eq.
    destruct (EthChart.matrix_coins !! i) as [coinA|] eqn:Hi,
             (EthChart.matrix_coins !! j) as [coinB|] eqn:Hj; cbn; try done.
    f_equal. apply pearsonCorrelation_comm.
    rewrite !column_length; eauto using list_elem_of_lookup_2. }
  split; [done|]. intros a Ha Hnan. exists a. split; [by rewrite <- Hsym|].
  by apply eqb_refl_number.
Qed.
End Symmetry.

Lemma matrix_symmetric_unless_nan_witness :
  EthChart.pearsonCorrelation [1; 2; 4]%float [3; 1; 2]%float
  = EthChart.pearsonCorrelation [3; 1; 2]%float [1; 2; 4]%float
  /\ matrix_entry (EthChart.calculateCorrelationMatrix Samples.sample_table) 1 3
     = matrix_entry (EthChart.calculateCorrelationMatrix Samples.sample_table) 3 1
  /\ forall a, matrix_entry (EthChart.calculateCorrelationMatrix Samples.sample_table) 1 3 = Some a ->
       is_nan a = false ->
       exists b, matrix_entry (EthChart.calculateCorrelationMatrix Samples.sample_table) 3 1 = Some b
                 /\ (a === b)%js = true.
Proof.
  apply (matrix_symmetric_unless_nan Samples.sample_table); [|reflexivity].
  repeat constructor; intros s; vm_compute; discriminate.
Defined.

(** ** Degenerate inputs of [pearsonCorrelation] *)

Section Degenerate.
Import Binary64 Binary64Facts.

(** Values stored in the table are never NaN: the [isNaN] test replaces them. *)
Lemma normalize_is_a_number (rawPrice min max : float) :
  is_nan (normalize rawPrice min max) = false.
Proof.
  unfold normalize. cbn [num_strict_eq num_isNaN num_half num_zero number].
  destruct (max =? min)%float; [reflexivity|].
  set (q := (_ / _)%js). by destruct (is_nan q) eqn:Hnan.
Qed.

(** C7. With no rows ([n = 0]) every sum is 0 and [(sumX * sumY) / n] is
    [0 / 0]: the matrix [calculateCorrelationMatrix] returns holds NaN in all
    25 places, and this is what [fetchData] stores when the first series is
    empty. *)
Theorem empty_table_matrix_is_nan (argument_limit : nat) :
  EthChart.calculateCorrelationMatrix (num := float) [] = replicate 5 (replicate 5 nan)
  /\ EthChart.fetchData_core argument_limit Samples.no_date (EthChart.results_of (fun _ => []))
     = inr ([], replicate 5 (replicate 5 nan)).
Proof. split; reflexivity. Qed.



(** The guard [denominator === 0]: the denominator is the square root of the
    product of the two variance terms. *)
Lemma zero_denominator (x y : list float) :
  (sqrt (variance_term (of_length (length x)) x * variance_term (of_length (length x)) y) =? 0)%float
  = true ->
  EthChart.pearsonCorrelation x y = 0%float.
Proof.
  intros Hz. unfold EthChart.pearsonCorrelation.
  unfold variance_term in *. cbv zeta in *.
  cbn [num_mul num_sub num_div num_strict_eq num_zero num_of_length number] in *.
  unfold Math_sqrt, math_sqrt. by rewrite Hz.
Qed.

(** C4, amended. When the variance term of one column is exactly 0 and that of
    the other is finite, the denominator is exactly 0 and the correlation is 0. *)
Theorem zero_variance_gives_zero (x y : list float) :
  ((variance_term (of_length (length x)) x =? 0)
   || (variance_term (of_length (length x)) y =? 0))%float = true ->
  is_finite (variance_term (of_length (length x)) x) = true ->
  is_finite (variance_term (of_length (length x)) y) = true ->
  EthChart.pearsonCorrelation x y = 0%float.
Proof. intros Hz Hx Hy. by apply zero_denominator, sqrt_mul_zero. Qed.
End Degenerate.



Lemma zero_variance_gives_zero_witness :
  EthChart.pearsonCorrelation [0.5; 0.5; 0.5]%float [0; 0.5; 1]%float = 0%float.
Proof. apply (zero_variance_gives_zero [0.5; 0.5; 0.5]%float [0; 0.5; 1]%float); reflexivity. Defined.

(** C4 as stated fails.  The sums of the constant column of seven times 0.1 are
    rounded, its variance term is computed as a small positive number and the
    guard [denominator === 0] does not hold: its correlation with [1, ..., 7]
    is a number that is not 0.  [fetchData] builds such a column under ["eth"]
    from seven prices 1 followed by the prices 0 and 10, when the first series
    has seven entries, and then stores a number that is not 0 in
    [matrix[1][3]]. *)
Lemma zero_variance_counterexample :
  (0 <? variance_term 7 (replicate 7 (1 / 10)))%float = true
  /\ is_nan (EthChart.pearsonCorrelation (replicate 7 (1 / 10)%float) [1; 2; 3; 4; 5; 6; 7]%float)
     = false
  /\ (EthChart.pearsonCorrelation (replicate 7 (1 / 10)%float) [1; 2; 3; 4; 5; 6; 7]%float =? 0)%float
     = false
  /\ exists table matrix r,
       EthChart.fetchData_core Samples.argument_limit Samples.no_date
         (EthChart.results_of Samples.level_prices) = inr (table, matrix)
       /\ EthChart.column table "eth" = replicate 7 (1 / 10)%float
       /\ matrix_entry matrix 1 3 = Some r
       /\ is_nan r = false /\ (r =? 0)%float = false.
Proof.
  do 3 (split; [vm_compute; reflexivity|]).
  eexists _, _, _. split.
  { rewrite (EthChart_table Samples.no_date Samples.argument_limit Samples.level_prices).
    reflexivity. }
  do 3 (split; [vm_compute; reflexivity|]). vm_compute. reflexivity.
Qed.

(** ** Missing prices *)

Section MissingData.
Import Binary64.
Variable argument_limit : nat.
Variable toLocaleDateString : float -> string.

(** C8. When no series is longer than the engine can pass in one call,
    building the table raises no error, whatever entries are missing: the table
    has one row per entry of the first series, and where a coin's series has
    no entry at a row, the stored value is the normalisation of the raw
    price 0 with the [min] and [max] of that coin. *)
Theorem missing_price_defaults_to_zero comp (prices_of : string -> list (float * float))
    (i : nat) (c : string) (index : nat) :
  within_limit argument_limit comp prices_of = true ->
  EthChart.coins !! i = Some c ->
  (index < length (prices_of "bitcoin"%string))%nat ->
  (length (prices_of c) <= index)%nat ->
  exists table min max,
    table_of argument_limit toLocaleDateString comp prices_of = inr table
    /\ length table = length (prices_of "bitcoin"%string)
    /\ minMax_entry argument_limit comp prices_of i = Some (min, max)
    /\ cell_of table index (coinKey c) = Some (VNumber (normalize 0%float min max)).
Proof.
  intros Hfits Hc Hlt Hshort.
  destruct (table_cell toLocaleDateString argument_limit comp prices_of i c index Hfits Hc Hlt)
    as (table & Htable & Hlen & Hcell).
  exists table, (fst (minMax_of comp prices_of c)), (snd (minMax_of comp prices_of c)).
  split; [done|]. split; [done|]. split.
  - rewrite (minMax_entry_lookup argument_limit comp prices_of i c Hfits Hc).
    by destruct (minMax_of comp prices_of c).
  - rewrite Hcell. by rewrite (lookup_ge_None_2 _ _ Hshort).
Qed.
End MissingData.

(** Cardano has the two prices 3 and 1 and the table three rows: the third row
    holds the raw price 0 normalised with [min = 1] and [max = 3], which is
    -0.5. *)
Lemma missing_price_defaults_to_zero_witness :
  exists table,
    table_of Samples.argument_limit Samples.no_date Eth Samples.short_prices = inr table
    /\ length table = 3%nat
    /\ minMax_entry Samples.argument_limit Eth Samples.short_prices 4 = Some (1, 3)%float
    /\ cell_of table 2 "car"%string = Some (VNumber (normalize 0 1 3)%float)
    /\ (normalize 0 1 3 = -0.5)%float.
Proof.
  destruct (missing_price_defaults_to_zero Samples.argument_limit Samples.no_date Eth
              Samples.short_prices 4 "cardano"%string 2)
    as (table & min & max & Htable & Hlength & HminMax & Hcell);
    [reflexivity | reflexivity | vm_compute; lia | vm_compute; lia |].
  exists table. vm_compute in HminMax. injection HminMax as <- <-.
  split; [exact Htable|]. split; [exact Hlength|]. split; [reflexivity|].
  split; [exact Hcell|]. reflexivity.
Defined.

(** ** The property names of the table and of the correlation code *)

Section KeyMismatch.
Import Binary64 Binary64Facts Rounding Magnitude.
Variable argument_limit : nat.
Variable toLocaleDateString : float -> string.

(** A property that no row has reads as a column of zeros. *)
Lemma column_absent (data : list (PriceData float)) (key : string) :
  Forall (fun entry => entry !! key = None) data ->
  EthChart.column data key = replicate (length data) 0%float.
Proof.
  unfold EthChart.column, numbers_of, get.
  induction 1 as [|entry data Hentry _ IH]; [done|].
  cbn. rewrite Hentry. cbn. by rewrite IH.
Qed.

Lemma reduce_sum_zeros (n : nat) : reduce_sum (replicate n 0%float) = 0%float.
Proof.
  unfold reduce_sum. induction n as [|n IH]; [done|]. cbn [replicate fold_left].
  exact IH.
Qed.

Lemma squares_of_zeros (n : nat) :
  map (fun val => (val * val)%js) (replicate n 0%float) = replicate n 0%float.
Proof. induction n as [|n IH]; [done|]. cbn [replicate map]. by rewrite IH. Qed.

Lemma variance_term_zeros (n k : nat) :
  (0 < k)%nat -> (Z.of_nat k < 2 ^ 53)%Z ->
  variance_term (of_length k) (replicate n 0%float) = 0%float.
Proof.
  intros Hk Hlt. unfold variance_term. cbv zeta.
  rewrite squares_of_zeros, reduce_sum_zeros.
  cbn [num_mul num_sub num_div number].
  change (0 * 0)%float with 0%float. by rewrite zero_div_length.
Qed.

(** A column of zeros against a column with a finite variance term. *)
Lemma pearsonCorrelation_zeros (y : list float) :
  (0 < length y)%nat -> (Z.of_nat (length y) < 2 ^ 53)%Z ->
  is_finite (variance_term (of_length (length y)) y) = true ->
  EthChart.pearsonCorrelation (replicate (length y) 0%float) y = 0%float
  /\ EthChart.pearsonCorrelation y (replicate (length y) 0%float) = 0%float.
Proof.
  intros Hpos Hlt Hfin.
  pose proof (variance_term_zeros (length y) (length y) Hpos Hlt) as Hz.
  split; apply zero_denominator, sqrt_mul_zero; rewrite ?length_replicate, ?Hz;
    try done; by rewrite ?orb_true_r.
Qed.

(** Every row of the table of [EthChart] holds, for each coin, a finite number
    of absolute value at most [2^56], whatever the fetched prices are. *)
Lemma row_bounded (prices_of : string -> list (float * float)) (date : string)
    (index i : nat) (c : string) :
  EthChart.coins !! i = Some c ->
  exists v, row_of (EthChart_minMax_of prices_of) prices_of date index !! coinKey c
            = Some (VNumber v)
            /\ bounded 56 v.
Proof.
  intros Hc. eexists. split; [by apply (row_of_lookup _ _ _ _ i)|].
  unfold EthChart_minMax_of. cbn [fst snd]. apply normalize_bounded.
  intros p Hp. rewrite <- lookup_map in Hp. by eapply list_elem_of_lookup_2.
Qed.

Lemma matrix_coins_cases (j : nat) (key : string) :
  EthChart.matrix_coins !! j = Some key ->
  key ∈ ["btc"; "bnb"; "ada"]%string
  \/ exists k c, EthChart.coins !! k = Some c /\ key = coinKey c.
Proof.
  unfold EthChart.matrix_coins. intros Hj.
  destruct j as [|[|[|[|[|j]]]]]; try discriminate; injection Hj as <-.
  - left. set_solver.
  - right. by exists 1%nat, "ethereum"%string.
  - left. set_solver.
  - right. by exists 3%nat, "solana"%string.
  - left. set_solver.
Qed.

(** C10. For a table with rows built by [fetchData] from any fetched prices
    that the engine can pass to [Math.min] and [Math.max], with at least one
    row (and fewer than [2^32], the limit of an array's length): the rows are
    keyed by ["bit"], ["eth"], ["bin"], ["sol"], ["car"];
    a name [keyA] among ["btc"], ["bnb"], ["ada"] is in no row, its column
    reads as zeros, and the matrix entries pairing it with any name [keyB] of
    the matrix, the diagonal included, are 0. *)
Theorem mismatched_keys_give_zero (prices_of : string -> list (float * float))
    (i j : nat) (keyA keyB : string) :
  within_limit argument_limit Eth prices_of = true ->
  (0 < length (prices_of "bitcoin"%string))%nat ->
  (Z.of_nat (length (prices_of "bitcoin"%string)) < 2 ^ 32)%Z ->
  keyA ∈ ["btc"; "bnb"; "ada"]%string ->
  EthChart.matrix_coins !! i = Some keyA ->
  EthChart.matrix_coins !! j = Some keyB ->
  exists table matrix,
    EthChart.fetchData_core argument_limit toLocaleDateString (EthChart.results_of prices_of)
    = inr (table, matrix)
    /\ map coinKey EthChart.coins = ["bit"; "eth"; "bin"; "sol"; "car"]%string
    /\ Forall (fun entry => entry !! keyA = None) table
    /\ EthChart.column table keyA = replicate (length table) 0%float
    /\ matrix_entry matrix i j = Some 0%float /\ matrix_entry matrix j i = Some 0%float.
Proof.
  intros Hfits Hpos Hlt HkeyA Hi Hj. eexists _, _.
  split; [by rewrite EthChart_table, Hfits|].
  set (table := imap _ _).
  assert (length table = length (prices_of "bitcoin"%string)) as Hlen.
  { subst table. by rewrite length_imap, length_map. }
  assert (forall key, key ∈ ["btc"; "bnb"; "ada"]%string ->
          Forall (fun entry => entry !! key = None) table) as Habsent.
  { intros key Hkey. subst table. apply Forall_imap_intro. intros index timestamp.
    by apply row_of_lookup_absent. }
  assert (forall key, key ∈ ["btc"; "bnb"; "ada"]%string ->
          EthChart.column table key = replicate (length table) 0%float) as Hzeros.
  { intros key Hkey. by apply column_absent, Habsent. }
  assert (Z.of_nat (length table) < 2 ^ 53)%Z as Hsmall.
  { rewrite Hlen. by apply Z.lt_trans with (2 ^ 32)%Z. }
  split; [reflexivity|]. split; [by apply Habsent|]. split; [by apply Hzeros|].
  rewrite !matrix_entry_eq, Hi, Hj. cbn [mbind option_bind].
  rewrite (Hzeros keyA HkeyA).
  assert (length (EthChart.column table keyB) = length table
          /\ is_finite (variance_term (of_length (length table)) (EthChart.column table keyB))
             = true) as [HlenB Hfin].
  { assert (keyB ∈ ["btc"; "bnb"; "ada"]%string
            \/ exists k c, EthChart.coins !! k = Some c /\ keyB = coinKey c) as [HkeyB|(k & c & Hc & ->)].
    { by apply (matrix_coins_cases j). }
    - rewrite (Hzeros keyB HkeyB), variance_term_zeros, length_replicate; [done|lia|done].
    - destruct (column_bounded table (coinKey c) 56 ltac:(lia)) as [Hb Hl].
      { subst table. apply Forall_imap_intro. intros index timestamp.
        by apply (row_bounded _ _ _ k). }
      split; [done|]. apply variance_term_finite; [done|done|lia|lia]. }
  rewrite <- HlenB in Hfin |- *.
  destruct (pearsonCorrelation_zeros (EthChart.column table keyB)) as [-> ->]; try done; lia.
Qed.
End KeyMismatch.

Lemma mismatched_keys_give_zero_witness :
  exists table matrix,
    EthChart.fetchData_core Samples.argument_limit Samples.no_date
      (EthChart.results_of Samples.sample_prices)
    = inr (table, matrix)
    /\ map coinKey EthChart.coins = ["bit"; "eth"; "bin"; "sol"; "car"]%string
    /\ Forall (fun entry => entry !! "btc"%string = None) table
    /\ EthChart.column table "btc"%string = replicate (length table) 0%float
    /\ matrix_entry matrix 0 1 = Some 0%float /\ matrix_entry matrix 1 0 = Some 0%float.
Proof.
  apply (mismatched_keys_give_zero Samples.argument_limit Samples.no_date Samples.sample_prices
           0 1 "btc"%string "eth"%string);
    [reflexivity | vm_compute; lia | reflexivity | set_solver | reflexivity | reflexivity].
Defined.

(** ** The minimum and maximum used by the normalisation *)

Section MinMaxOfSeries.
Import Binary64 Binary64Facts.
Variable argument_limit : nat.

Lemma validPrices_are_numbers (prices : list float) :
  Forall (fun p : float => num_isNaN p = false) (CryptoChart.validPrices prices).
Proof.
  unfold CryptoChart.validPrices. apply Forall_forall. intros p Hp.
  apply list_elem_of_filter in Hp as [Hp _].
  apply andb_true_iff in Hp as [_ Hp]. by apply negb_true_iff in Hp.
Qed.

(** C6, amended. For a non-empty series without NaN, [max] is a price of the
    series that no price exceeds, in both components.  [min] is a price that
    no counted price is below, where [EthChart] counts every price and
    [CryptoChart] only the prices that are not 0; when [CryptoChart] finds no
    such price, [min] is 0. *)
Theorem minMax_is_min_and_max comp (prices_of : string -> list (float * float)) i c min max :
  EthChart.coins !! i = Some c ->
  minMax_entry argument_limit comp prices_of i = Some (min, max) ->
  prices_of c <> [] ->
  Forall (fun p => is_nan p = false) (map snd (prices_of c)) ->
  (max ∈ map snd (prices_of c)
   /\ Forall (fun p => (max <? p)%float = false) (map snd (prices_of c)))
  /\ (counted_for_min comp (map snd (prices_of c)) <> [] ->
      min ∈ counted_for_min comp (map snd (prices_of c))
      /\ Forall (fun p => (p <? min)%float = false)
                (counted_for_min comp (map snd (prices_of c))))
  /\ (counted_for_min comp (map snd (prices_of c)) = [] -> min = 0%float).
Proof.
  intros Hc Hmm Hne Hnum.
  change (Forall (fun p : float => num_isNaN p = false) (map snd (prices_of c))) in Hnum.
  apply (minMax_entry_inv argument_limit comp prices_of i c _ Hc) in Hmm as [_ Hmm].
  symmetry in Hmm.
  assert (map snd (prices_of c) <> []) as Hne' by (by destruct (prices_of c)).
  destruct comp; cbn [minMax_of counted_for_min] in *.
  - unfold EthChart_minMax_of in Hmm. injection Hmm as <- <-.
    destruct (Math_max_spec _ Hne' Hnum) as (_ & Hin & Hall).
    destruct (Math_min_spec _ Hne' Hnum) as (_ & Hin' & Hall').
    split; [done|]. split; done.
  - unfold CryptoChart_minMax_of in Hmm.
    destruct (decide (0 < length (prices_of c))%nat) as [_|Hlen];
      [|clear Hmm; destruct (prices_of c); [congruence|cbn [length] in Hlen; lia]].
    cbv zeta in Hmm. injection Hmm as <- <-.
    destruct (Math_max_spec _ Hne' Hnum) as (_ & Hin & Hall).
    split; [done|]. split.
    + intros Hvalid.
      destruct (decide (0 < length (CryptoChart.validPrices (map snd (prices_of c))))%nat)
        as [_|Hlen];
        [|destruct (CryptoChart.validPrices _); [congruence|cbn [length] in Hlen; lia]].
      destruct (Math_min_spec _ Hvalid (validPrices_are_numbers _)) as (_ & Hin' & Hall').
      done.
    + by intros ->.
Qed.
End MinMaxOfSeries.

Lemma minMax_is_min_and_max_witness :
  (100%float ∈ map snd (Samples.sample_prices "ethereum"%string)
   /\ Forall (fun p => (100 <? p)%float = false) (map snd (Samples.sample_prices "ethereum"%string)))
  /\ (counted_for_min Crypto (map snd (Samples.sample_prices "ethereum"%string)) <> [] ->
      50%float ∈ counted_for_min Crypto (map snd (Samples.sample_prices "ethereum"%string))
      /\ Forall (fun p => (p <? 50)%float = false)
                (counted_for_min Crypto (map snd (Samples.sample_prices "ethereum"%string))))
  /\ (counted_for_min Crypto (map snd (Samples.sample_prices "ethereum"%string)) = []
      -> 50%float = 0%float).
Proof.
  apply (minMax_is_min_and_max Samples.argument_limit Crypto Samples.sample_prices
           1 "ethereum"%string 50%float 100%float);
    [reflexivity | reflexivity | vm_compute; discriminate | vm_compute; repeat constructor].
Defined.

(** C6 as stated fails on [CryptoChart]: for the series [0, 50, 100] it
    normalises with [min = 50], although 0 is a price of the series and is
    smaller. *)
Lemma min_excludes_zero_counterexample :
  map snd (Samples.sample_prices "ethereum"%string) = [0; 50; 100]%float
  /\ minMax_entry Samples.argument_limit Crypto Samples.sample_prices 1 = Some (50, 100)%float
  /\ (0 <? 50)%float = true.
Proof. repeat split; reflexivity. Qed.

(** ** Normalised values lie between 0 and 1 *)

Section ValidPrices.
Context `{Number num}.

Lemma validPrices_all (prices : list num) :
  Forall (fun p => num_isNaN p = false) prices ->
  Forall (fun p => (p === num_zero)%js = false) prices ->
  CryptoChart.validPrices prices = prices.
Proof.
  unfold CryptoChart.validPrices. induction 1 as [|p prices Hp _ IH]; [done|].
  intros [Hnz Hrest]%Forall_cons. rewrite filter_cons_True.
  - by rewrite IH.
  - by rewrite Hnz, Hp.
Qed.

(** Without zero prices both components use the same [{min, max}]. *)
Lemma minMax_of_no_zero comp (prices_of : string -> list (num * num)) (c : string) :
  prices_of c <> [] ->
  Forall (fun p => num_isNaN p = false) (map snd (prices_of c)) ->
  (comp = Crypto -> Forall (fun p => (p === num_zero)%js = false) (map snd (prices_of c))) ->
  minMax_of comp prices_of c
  = (Math_min (map snd (prices_of c)), Math_max (map snd (prices_of c))).
Proof.
  intros Hne Hfin Hnz. destruct comp; [done|]. cbn [minMax_of]. unfold CryptoChart_minMax_of.
  destruct (decide (0 < length (prices_of c))%nat) as [_|Hlen];
    [|destruct (prices_of c); [congruence|cbn [length] in Hlen; lia]].
  cbv zeta. rewrite (validPrices_all _ Hfin (Hnz eq_refl)).
  destruct (decide (0 < length (map snd (prices_of c)))%nat) as [_|Hlen]; [done|].
  destruct (prices_of c); [congruence|cbn [length map] in Hlen; lia].
Qed.
End ValidPrices.

Section UnitInterval.
Import Binary64 Binary64Facts Rounding.
Local Open Scope Z_scope.
Variable argument_limit : nat.
Variable toLocaleDateString : float -> string.

(** C5, amended. When all series have the length of the first and none is
    longer than the engine can pass in one call, the prices of a
    coin are finite, not negative and not all equal and, in [CryptoChart], none
    of them is 0, the value stored for that coin in every row is a binary64
    number between 0 and 1; it is 0 where the price equals [min] and 1 where
    the price equals [max]. *)
Theorem normalized_in_unit_interval comp (prices_of : string -> list (float * float))
    (i : nat) (c : string) (index : nat) :
  within_limit argument_limit comp prices_of = true ->
  EthChart.coins !! i = Some c ->
  (forall c', c' ∈ EthChart.coins ->
     length (prices_of c') = length (prices_of "bitcoin"%string)) ->
  (index < length (prices_of "bitcoin"%string))%nat ->
  Forall (fun p => nonneg_finite p = true) (map snd (prices_of c)) ->
  (comp = Crypto -> Forall (fun p => (p =? 0)%float = false) (map snd (prices_of c))) ->
  (exists p1 p2, p1 ∈ map snd (prices_of c) /\ p2 ∈ map snd (prices_of c)
                 /\ (p1 =? p2)%float = false) ->
  exists table price min max v,
    table_of argument_limit toLocaleDateString comp prices_of = inr table
    /\ snd <$> prices_of c !! index = Some price
    /\ minMax_entry argument_limit comp prices_of i = Some (min, max)
    /\ cell_of table index (coinKey c) = Some (VNumber v)
    /\ (0 <=? v)%float = true /\ (v <=? 1)%float = true
    /\ ((price =? min)%float = true -> v = 0%float)
    /\ ((price =? max)%float = true -> v = 1%float).
Proof.
  intros Hfits Hc Hlens Hindex Hfin Hnz (p1 & p2 & Hp1 & Hp2 & Hdiff).
  assert (c ∈ EthChart.coins) as Hcin by (by eapply list_elem_of_lookup_2).
  rewrite <- (Hlens c Hcin) in Hindex.
  destruct (lookup_lt_is_Some_2 _ _ Hindex) as [[t price] Hprice].
  assert (prices_of c <> []) as Hne by (intros Heq; by rewrite Heq in Hprice).
  assert (map snd (prices_of c) <> []) as Hne' by (by destruct (prices_of c)).
  assert (Forall (fun p : float => num_isNaN p = false) (map snd (prices_of c))) as Hnum.
  { eapply Forall_impl; [exact Hfin|]. intros p. apply nonneg_finite_is_a_number. }
  destruct (Math_min_spec _ Hne' Hnum) as (_ & Hmin_in & Hmin_le).
  destruct (Math_max_spec _ Hne' Hnum) as (_ & Hmax_in & Hmax_le).
  rewrite Forall_forall in Hfin, Hmin_le, Hmax_le.
  remember (Math_min (map snd (prices_of c))) as mn eqn:Emn.
  remember (Math_max (map snd (prices_of c))) as mx eqn:Emx.
  assert (price ∈ map snd (prices_of c)) as Hprice_in.
  { apply list_elem_of_lookup. exists index. by rewrite lookup_map, Hprice. }
  pose proof (Hfin _ Hmin_in) as Fmn. pose proof (Hfin _ Hmax_in) as Fmx.
  pose proof (Hfin _ Hprice_in) as Fp.
  pose proof (Hfin _ Hp1) as F1. pose proof (Hfin _ Hp2) as F2.
  assert (forall p, p ∈ map snd (prices_of c) ->
                    float_units mn <= float_units p <= float_units mx) as Hbounds.
  { intros p Hp. pose proof (Hmin_le p Hp) as Hlo. pose proof (Hmax_le p Hp) as Hhi.
    cbn [num_lt Binary64.number] in Hlo, Hhi.
    rewrite nonneg_finite_ltb in Hlo, Hhi by auto.
    apply Z.ltb_ge in Hlo, Hhi. lia. }
  rewrite nonneg_finite_eqb in Hdiff by done. apply Z.eqb_neq in Hdiff.
  pose proof (Hbounds _ Hp1). pose proof (Hbounds _ Hp2). pose proof (Hbounds _ Hprice_in).
  destruct (or_zero_units price Fp) as (Fraw & Hraw & Hsign).
  destruct (normalize_units (or_zero (Some price)) mn mx Fraw Fmn Fmx Hsign)
    as (Fv & Hv1 & Hvmin & Hvmax); [lia|lia|].
  destruct (table_cell toLocaleDateString argument_limit comp prices_of i c index Hfits Hc)
    as (table & Htable & _ & Hcell).
  { by rewrite <- (Hlens c Hcin). }
  assert (minMax_of comp prices_of c = (mn, mx)) as HminMax.
  { rewrite Emn, Emx. apply minMax_of_no_zero; done. }
  exists table, price, mn, mx, (normalize (or_zero (Some price)) mn mx).
  rewrite (minMax_entry_lookup argument_limit comp prices_of i c Hfits Hc), HminMax.
  split; [done|]. split; [by rewrite Hprice|]. split; [done|].
  split.
  { rewrite Hcell, HminMax, Hprice. done. }
  split.
  { rewrite nonneg_finite_leb by done. apply Z.leb_le. by apply float_units_nonneg. }
  split.
  { rewrite nonneg_finite_leb by done. by apply Z.leb_le. }
  split; intros Heq; rewrite nonneg_finite_eqb in Heq by done; apply Z.eqb_eq in Heq.
  - apply Hvmin. lia.
  - apply Hvmax. lia.
Qed.
End UnitInterval.

Lemma normalized_in_unit_interval_witness :
  exists table price min max v,
    table_of Samples.argument_limit Samples.no_date Eth Samples.sample_prices = inr table
    /\ snd <$> Samples.sample_prices "ethereum"%string !! 1%nat = Some price
    /\ minMax_entry Samples.argument_limit Eth Samples.sample_prices 1%nat = Some (min, max)
    /\ cell_of table 1 (coinKey "ethereum"%string) = Some (VNumber v)
    /\ (0 <=? v)%float = true /\ (v <=? 1)%float = true
    /\ ((price =? min)%float = true -> v = 0%float)
    /\ ((price =? max)%float = true -> v = 1%float).
Proof.
  apply (normalized_in_unit_interval Samples.argument_limit Samples.no_date Eth
           Samples.sample_prices 1 "ethereum"%string 1).
  - reflexivity.
  - reflexivity.
  - intros c' [k Hk]%list_elem_of_lookup.
    destruct (coins_cases k c' Hk) as [->|[->|[->|[->| ->]]]]; reflexivity.
  - vm_compute. lia.
  - repeat constructor.
  - discriminate.
  - exists 0%float, 50%float. repeat split; [set_solver | set_solver].
Defined.

(** C5 as stated fails on [CryptoChart]: with five series of three prices, the
    series 0, 50, 100 is normalised with [min = 50], so its minimum price 0, at
    row 0, is stored as -1. *)
Lemma crypto_zero_price_counterexample :
  map (fun coin => length (Samples.sample_prices coin)) EthChart.coins = [3; 3; 3; 3; 3]%nat
  /\ map snd (Samples.sample_prices "ethereum"%string) = [0; 50; 100]%float
  /\ exists table,
       table_of Samples.argument_limit Samples.no_date Crypto Samples.sample_prices = inr table
       /\ cell_of table 0 "eth"%string = Some (VNumber (-1)%float)
       /\ (-1 <? 0)%float = true.
Proof. split; [reflexivity|]. split; [reflexivity|]. eexists. repeat split; reflexivity. Qed.

(** * The rest of the components *)

(** ** The requests and what is rendered *)

Section PromiseAll.
Context {num : Type}.

Lemma Promise_all_rejected (order : list nat) (promises : list (string + fetched num))
    (i : nat) (message : string) :
  i ∈ order -> promises !! i = Some (inl message) ->
  exists j message', promises !! j = Some (inl message')
                     /\ Fetch.Promise_all order promises = Rejected message'.
Proof.
  intros Hi Hp. unfold Fetch.Promise_all.
  destruct (omap (Fetch.rejection promises) order) as [|message' rest] eqn:Hrej.
  - assert (message ∈ omap (Fetch.rejection promises) order) as Hin.
    { apply list_elem_of_omap. exists i. split; [done|]. unfold Fetch.rejection. by rewrite Hp. }
    rewrite Hrej in Hin. by apply elem_of_nil in Hin.
  - assert (message' ∈ omap (Fetch.rejection promises) order) as Hin
      by (rewrite Hrej; apply list_elem_of_here).
    apply list_elem_of_omap in Hin as (j & _ & Hj). unfold Fetch.rejection in Hj.
    destruct (promises !! j) as [[m|v]|] eqn:Hpj; try discriminate.
    injection Hj as ->. by exists j, message'.
Qed.

Lemma Promise_all_fulfilled (order : list nat) (values : list (fetched num)) :
  Fetch.Promise_all order (map inr values) = Fulfilled values.
Proof.
  unfold Fetch.Promise_all.
  assert (omap (Fetch.rejection (map inr values)) order = []) as ->.
  { induction order as [|i order IH]; [done|]. cbn [omap list_omap].
    unfold Fetch.rejection at 1. rewrite lookup_map.
    by destruct (values !! i). }
  f_equal. induction values as [|v values IH]; [done|]. cbn. by rewrite IH.
Qed.
End PromiseAll.

Section Requests.
Variable argument_limit : nat.
Variable toLocaleDateString : float -> string.
Variable typeError_message rangeError_message : string.
Variable fetch : string -> reply float.

Lemma fetchCoin_not_ok (c : string) :
  (forall statusText body_prices, fetch (Fetch.url c) <> Response true statusText body_prices) ->
  exists message, Fetch.fetchCoin fetch c = inl message.
Proof.
  intros Hbad. unfold Fetch.fetchCoin.
  destruct (fetch (Fetch.url c)) as [message|[] statusText body_prices]; eauto.
  by destruct (Hbad statusText body_prices).
Qed.

Lemma fetchCoin_ok (c : string) :
  (exists statusText body_prices, fetch (Fetch.url c) = Response true statusText body_prices) ->
  Fetch.fetchCoin fetch c = inr {| coin := c; prices := Fetch.prices_of fetch c |}.
Proof.
  intros (statusText & body_prices & Hok). unfold Fetch.fetchCoin, Fetch.prices_of.
  by rewrite Hok.
Qed.

(** When every request is answered with an ok status, [Promise.all] is
    fulfilled with the prices of the replies. *)
Lemma answered_requests_settle (order : list nat) :
  (forall c, c ∈ EthChart.coins ->
     exists statusText body_prices, fetch (Fetch.url c) = Response true statusText body_prices) ->
  Fetch.Promise_all order (map (Fetch.fetchCoin fetch) EthChart.coins)
  = Fulfilled (EthChart.results_of (Fetch.prices_of fetch)).
Proof.
  intros Hok.
  assert (map (Fetch.fetchCoin fetch) EthChart.coins
          = map inr (EthChart.results_of (Fetch.prices_of fetch))) as ->.
  { unfold EthChart.results_of. rewrite map_map. apply map_ext_in. intros c Hc.
    apply fetchCoin_ok, Hok. by apply list_elem_of_In. }
  apply Promise_all_fulfilled.
Qed.

(** X9. A request that fails, or is answered with a status that is not ok, aborts
    the whole run, in whatever order the five requests settle: the table (and
    the matrix) of before stay, the error is the message of a request that
    failed, and the component shows that message, or, when the message is
    empty, the chart of the old table. *)
Theorem failed_request_aborts_the_run (order : list nat) (c : string)
    (s : EthChart.State float) (s' : CryptoChart.State float) :
  c ∈ EthChart.coins ->
  (forall i, (i < 5)%nat -> i ∈ order) ->
  (forall statusText body_prices, fetch (Fetch.url c) <> Response true statusText body_prices) ->
  exists failed message,
    failed ∈ EthChart.coins /\ Fetch.fetchCoin fetch failed = inl message
    /\ EthChart.run argument_limit toLocaleDateString typeError_message rangeError_message fetch
         order s
       = {| EthChart.data := EthChart.data s;
            EthChart.correlationMatrix := EthChart.correlationMatrix s;
            EthChart.isLoading := false; EthChart.error := Some message |}
    /\ EthChart.render
         (EthChart.run argument_limit toLocaleDateString typeError_message rangeError_message fetch
            order s)
       = (if decide (message = EmptyString) then Chart (EthChart.data s) else ErrorView message)
    /\ CryptoChart.run argument_limit toLocaleDateString typeError_message rangeError_message fetch
         order s'
       = {| CryptoChart.data := CryptoChart.data s'; CryptoChart.isLoading := false; CryptoChart.error := Some message |}
    /\ CryptoChart.render
         (CryptoChart.run argument_limit toLocaleDateString typeError_message rangeError_message fetch
            order s')
       = (if decide (message = EmptyString) then Chart (CryptoChart.data s') else ErrorView message).
Proof.
  intros Hc Horder Hbad.
  destruct (fetchCoin_not_ok c Hbad) as [m Hm].
  apply list_elem_of_lookup in Hc as [i Hi].
  assert (i < 5)%nat as Hlt by (apply lookup_lt_Some in Hi; exact Hi).
  destruct (Promise_all_rejected order (map (Fetch.fetchCoin fetch) EthChart.coins) i m
              (Horder i Hlt)) as (j & message & Hj & Hall).
  { by rewrite lookup_map, Hi; cbn; rewrite Hm. }
  rewrite lookup_map in Hj.
  destruct (EthChart.coins !! j) as [failed|] eqn:Hfailed; [|discriminate].
  injection Hj as Hj.
  exists failed, message. split; [by eapply list_elem_of_lookup_2|]. split; [done|].
  unfold EthChart.run, CryptoChart.run. change CryptoChart.coins with EthChart.coins. rewrite Hall.
  unfold EthChart.fetchData, CryptoChart.fetchData, EthChart.render, CryptoChart.render. cbn.
  by destruct (decide (message = EmptyString)).
Qed.

(** X10. When every request gets a response and one of them has a status that is
    not ok, the component shows ["Failed to fetch <coin>: <statusText>"] for a
    coin whose request was refused, and no chart. *)
Theorem refused_request_is_reported (order : list nat)
    (s : EthChart.State float) (s' : CryptoChart.State float) :
  (forall i, (i < 5)%nat -> i ∈ order) ->
  (forall c, c ∈ EthChart.coins ->
     exists ok statusText body_prices, fetch (Fetch.url c) = Response ok statusText body_prices) ->
  (exists c statusText body_prices,
     c ∈ EthChart.coins /\ fetch (Fetch.url c) = Response false statusText body_prices) ->
  exists c statusText body_prices,
    c ∈ EthChart.coins /\ fetch (Fetch.url c) = Response false statusText body_prices
    /\ EthChart.render
         (EthChart.run argument_limit toLocaleDateString typeError_message rangeError_message fetch
            order s)
       = ErrorView ("Failed to fetch " ++ c ++ ": " ++ statusText)%string
    /\ CryptoChart.render
         (CryptoChart.run argument_limit toLocaleDateString typeError_message rangeError_message fetch
            order s')
       = ErrorView ("Failed to fetch " ++ c ++ ": " ++ statusText)%string.
Proof.
  intros Horder Hresponses (c & statusText & body_prices & Hc & Hrefused).
  apply list_elem_of_lookup in Hc as [i Hi].
  assert (i < 5)%nat as Hlt by (apply lookup_lt_Some in Hi; exact Hi).
  destruct (Promise_all_rejected order (map (Fetch.fetchCoin fetch) EthChart.coins) i
              ("Failed to fetch " ++ c ++ ": " ++ statusText)%string
              (Horder i Hlt)) as (j & message & Hj & Hall).
  { rewrite lookup_map, Hi. cbn. unfold Fetch.fetchCoin. by rewrite Hrefused. }
  rewrite lookup_map in Hj.
  destruct (EthChart.coins !! j) as [failed|] eqn:Hfailed; [|discriminate].
  injection Hj as Hj. apply list_elem_of_lookup_2 in Hfailed.
  destruct (Hresponses failed Hfailed) as (ok & statusText' & body_prices' & Hreply).
  unfold Fetch.fetchCoin in Hj. rewrite Hreply in Hj.
  destruct ok; [discriminate|]. injection Hj as <-.
  exists failed, statusText', body_prices'. split; [done|]. split; [done|].
  unfold EthChart.run, CryptoChart.run. change CryptoChart.coins with EthChart.coins. rewrite Hall.
  unfold EthChart.fetchData, CryptoChart.fetchData, EthChart.render, CryptoChart.render. cbn. done.
Qed.

(** X11. When the five requests are answered with an ok status and none of the
    series they bring is longer than the engine can pass in one call, the run
    hands the prices of the replies (no prices when a body has no [prices]) to
    the rest of [fetchData], in whatever order the requests settle, and the
    component then shows the chart of the table built from them. *)
Theorem answered_requests_show_the_chart (order : list nat)
    (s : EthChart.State float) (s' : CryptoChart.State float) :
  (forall c, c ∈ EthChart.coins ->
     exists statusText body_prices, fetch (Fetch.url c) = Response true statusText body_prices) ->
  within_limit argument_limit Eth (Fetch.prices_of fetch) = true ->
  within_limit argument_limit Crypto (Fetch.prices_of fetch) = true ->
  exists table table',
    table_of argument_limit toLocaleDateString Eth (Fetch.prices_of fetch) = inr table
    /\ table_of argument_limit toLocaleDateString Crypto (Fetch.prices_of fetch) = inr table'
    /\ EthChart.run argument_limit toLocaleDateString typeError_message rangeError_message fetch
         order s
       = {| EthChart.data := table;
            EthChart.correlationMatrix := EthChart.calculateCorrelationMatrix table;
            EthChart.isLoading := false; EthChart.error := None |}
    /\ EthChart.render
         (EthChart.run argument_limit toLocaleDateString typeError_message rangeError_message fetch
            order s) = Chart table
    /\ CryptoChart.run argument_limit toLocaleDateString typeError_message rangeError_message fetch
         order s'
       = {| CryptoChart.data := table'; CryptoChart.isLoading := false; CryptoChart.error := None |}
    /\ CryptoChart.render
         (CryptoChart.run argument_limit toLocaleDateString typeError_message rangeError_message fetch
            order s') = Chart table'.
Proof.
  intros Hok Hfits Hfits'.
  pose proof (answered_requests_settle order Hok) as Hall.
  eexists _, _. split; [by apply table_of_eq|]. split; [by apply table_of_eq|].
  unfold EthChart.run, CryptoChart.run. change CryptoChart.coins with EthChart.coins.
  rewrite Hall.
  unfold EthChart.fetchData, CryptoChart.fetchData.
  rewrite EthChart_table, Hfits.
  change (EthChart.results_of (Fetch.prices_of fetch))
    with (CryptoChart.results_of (Fetch.prices_of fetch)).
  rewrite CryptoChart_table, Hfits'. cbn [table_of minMax_of]. done.
Qed.

(** Every array [CryptoChart] spreads is at least as long as the one
    [EthChart] spreads for the same coin. *)
Lemma within_limit_Crypto (prices_of : string -> list (float * float)) :
  within_limit argument_limit Eth prices_of = false ->
  within_limit argument_limit Crypto prices_of = false.
Proof.
  unfold within_limit. cbn [spread_arrays].
  unfold CryptoChart.rawPrices, CryptoChart.results_of, EthChart.results_of.
  change CryptoChart.coins with EthChart.coins. rewrite !map_map. cbn [prices].
  induction EthChart.coins as [|c coins IH]; [done|]. cbn [map forallb].
  intros [Hlong|Hrest]%andb_false_iff; apply andb_false_iff.
  - left. destruct (decide (0 < length (prices_of c))%nat) as [_|Hempty]; [done|].
    rewrite length_map in Hlong. apply Nat.leb_gt in Hlong. lia.
  - right. by apply IH.
Qed.

(** X13. When the five requests are answered with an ok status and one of the
    series is longer than the engine can pass in one call, [Math.min(...prices)]
    throws a [RangeError]: the run stores no table, the table (and the matrix)
    of before stay, the error is the message of the [RangeError], and the
    component shows that message, or, when the message is empty, the chart of
    the old table. *)
Theorem long_series_aborts_the_run (order : list nat)
    (s : EthChart.State float) (s' : CryptoChart.State float) :
  (forall c, c ∈ EthChart.coins ->
     exists statusText body_prices, fetch (Fetch.url c) = Response true statusText body_prices) ->
  within_limit argument_limit Eth (Fetch.prices_of fetch) = false ->
  table_of argument_limit toLocaleDateString Eth (Fetch.prices_of fetch) = inl RangeError
  /\ table_of argument_limit toLocaleDateString Crypto (Fetch.prices_of fetch) = inl RangeError
  /\ EthChart.run argument_limit toLocaleDateString typeError_message rangeError_message fetch
       order s
     = {| EthChart.data := EthChart.data s;
          EthChart.correlationMatrix := EthChart.correlationMatrix s;
          EthChart.isLoading := false; EthChart.error := Some rangeError_message |}
  /\ EthChart.render
       (EthChart.run argument_limit toLocaleDateString typeError_message rangeError_message fetch
          order s)
     = (if decide (rangeError_message = EmptyString)
        then Chart (EthChart.data s) else ErrorView rangeError_message)
  /\ CryptoChart.run argument_limit toLocaleDateString typeError_message rangeError_message fetch
       order s'
     = {| CryptoChart.data := CryptoChart.data s'; CryptoChart.isLoading := false;
          CryptoChart.error := Some rangeError_message |}
  /\ CryptoChart.render
       (CryptoChart.run argument_limit toLocaleDateString typeError_message rangeError_message fetch
          order s')
     = (if decide (rangeError_message = EmptyString)
        then Chart (CryptoChart.data s') else ErrorView rangeError_message).
Proof.
  intros Hok Hlong.
  pose proof (within_limit_Crypto _ Hlong) as Hlong'.
  pose proof (answered_requests_settle order Hok) as Hall.
  split; [by apply table_of_beyond|]. split; [by apply table_of_beyond|].
  unfold EthChart.run, CryptoChart.run. change CryptoChart.coins with EthChart.coins.
  rewrite Hall.
  unfold EthChart.fetchData, CryptoChart.fetchData.
  rewrite EthChart_table, Hlong.
  change (EthChart.results_of (Fetch.prices_of fetch))
    with (CryptoChart.results_of (Fetch.prices_of fetch)).
  rewrite CryptoChart_table, Hlong'.
  unfold EthChart.render, CryptoChart.render. cbn.
  by destruct (decide (rangeError_message = EmptyString)).
Qed.
End Requests.

(** ** The rows of the table *)

Section TableShape.
Context {num : Type} `{Number num}.
Variable argument_limit : nat.
Variable toLocaleDateString : num -> string.

Lemma row_of_date minMax_of (prices_of : string -> list (num * num)) date index :
  row_of minMax_of prices_of date index !! "date"%string = Some (VString date).
Proof.
  unfold row_of. cbn [foldl EthChart.coins].
  change (coinKey "bitcoin") with "bit"%string.
  change (coinKey "ethereum") with "eth"%string.
  change (coinKey "binancecoin") with "bin"%string.
  change (coinKey "solana") with "sol"%string.
  change (coinKey "cardano") with "car"%string.
  rewrite !lookup_insert_ne by done. apply lookup_singleton_eq.
Qed.

Lemma row_of_dom minMax_of (prices_of : string -> list (num * num)) date index :
  dom (row_of minMax_of prices_of date index)
  = ({[ "date"; "bit"; "eth"; "bin"; "sol"; "car" ]} : gset string)%string.
Proof.
  unfold row_of. cbn [foldl EthChart.coins].
  change (coinKey "bitcoin") with "bit"%string.
  change (coinKey "ethereum") with "eth"%string.
  change (coinKey "binancecoin") with "bin"%string.
  change (coinKey "solana") with "sol"%string.
  change (coinKey "cardano") with "car"%string.
  rewrite !dom_insert_L, dom_singleton_L. set_solver.
Qed.

(** X1. In both components the table, built when no series is longer than the
    engine can pass in one call, has one row for each entry of the first
    series, whatever the lengths of the other four; the row at an index has
    exactly six properties, the date of the first series' timestamp at that
    index and one property for each coin. *)
Theorem table_rows comp (prices_of : string -> list (num * num)) :
  within_limit argument_limit comp prices_of = true ->
  exists table,
    table_of argument_limit toLocaleDateString comp prices_of = inr table
    /\ length table = length (prices_of "bitcoin"%string)
    /\ forall index entry, table !! index = Some entry ->
         dom entry = ({[ "date"; "bit"; "eth"; "bin"; "sol"; "car" ]} : gset string)%string
         /\ exists timestamp,
              fst <$> prices_of "bitcoin"%string !! index = Some timestamp
              /\ entry !! "date"%string = Some (VString (toLocaleDateString timestamp)).
Proof.
  intros Hfits. eexists. split; [by apply table_of_eq|].
  split; [by rewrite length_imap, length_map|].
  intros index entry Hentry. rewrite list_lookup_imap, lookup_map in Hentry.
  destruct (prices_of "bitcoin"%string !! index) as [[timestamp price]|]; [|discriminate].
  injection Hentry as <-. split; [apply row_of_dom|].
  exists timestamp. split; [done|]. apply row_of_date.
Qed.
End TableShape.

(** ** The numbers stored in the table *)

Section StoredNumbers.
Import Binary64 Binary64Facts Rounding Magnitude.
Local Open Scope Z_scope.
Variable argument_limit : nat.
Variable toLocaleDateString : float -> string.

(** The normalisation of a price lying between [min] and [max] (when their
    difference is finite) or of a missing or falsy price. *)
Lemma normalize_bounded_between (raw : option float) (mn mx : float) :
  (is_finite (mx - mn) = true ->
   forall p, raw = Some p -> falsy p = false ->
     is_finite p = true /\ float_signed mn <= float_signed p <= float_signed mx) ->
  bounded 56 (normalize (or_zero raw) mn mx).
Proof.
  intros Hraw. unfold normalize.
  cbn [num_isNaN num_strict_eq num_zero num_half num_sub num_div number].
  destruct (mx =? mn)%float eqn:Heq.
  { split; [reflexivity|]. apply Z.leb_le. reflexivity. }
  remember (or_zero raw) as raw' eqn:Eraw.
  destruct (is_nan ((raw' - mn) / (mx - mn))) eqn:Hnan; [by apply bounded_zero|].
  destruct (is_finite (mx - mn)) eqn:Hd.
  2:{ destruct (div_by_nonfinite _ _ Hd Hnan) as [Hfin Hmag].
      split; [done|]. rewrite Hmag. apply Z.pow_nonneg. lia. }
  specialize (Hraw eq_refl).
  destruct (sub_finite_inv mx mn Hd) as [Fmx Fmn].
  rewrite finite_eqb in Heq by done. apply Z.eqb_neq in Heq.
  pose proof (sub_mag mx mn Fmx Fmn Hd) as Hdmag.
  remember (Z.abs (float_signed mx - float_signed mn)) as D eqn:ED.
  assert (0 < D) as HD by lia.
  pose proof (rn_pos D HD) as Hdpos. rewrite <- Hdmag in Hdpos.
  pose proof (float_mag_bound (mx - mn)) as Hdb.
  assert (is_finite raw' = true /\ float_mag (raw' - mn) <= 2 ^ 55 * float_mag (mx - mn)
          /\ is_finite (raw' - mn) = true) as (Fraw & Hamag & Fa).
  { assert (raw' = 0%float \/ exists p, raw = Some p /\ falsy p = false /\ raw' = p)
      as [->|(p & -> & Hp & ->)].
    { rewrite Eraw. destruct raw as [p|]; [|by left]. cbn [or_zero].
      destruct (falsy p) eqn:Hp; [by left|right; eauto]. }
    - split; [reflexivity|].
      destruct (sub_rounds 0 mn eq_refl Fmn) as (s & m & e & Hr & Hrd & Hu).
      change (float_signed 0) with 0 in Hu.
      rewrite Z.sub_0_l, Z.abs_opp, <- float_mag_abs, float_mag_rn in Hu.
      pose proof (float_mag_bound mn) as Hmb.
      destruct (finish_finite _ _ _ _ Hr Hrd ltac:(lia)) as [Hfin Hmag].
      split; [|done]. rewrite Hmag, Hu.
      pose proof (spacing mn mx Fmn Fmx ltac:(lia)) as Hsp.
      replace (Z.abs (float_signed mn - float_signed mx)) with D in Hsp by lia.
      pose proof (rn_at_least_half D ltac:(lia)) as Hhalf. rewrite <- Hdmag in Hhalf.
      change (2 ^ 55) with (2 ^ 54 * 2). lia.
    - destruct (Hraw p eq_refl Hp) as [Fp Hbetween].
      split; [done|].
      destruct (sub_rounds p mn Fp Fmn) as (s & m & e & Hr & Hrd & Hu).
      assert (units m e <= float_mag (mx - mn)) as Hle.
      { rewrite Hu, Hdmag. apply rn_mono. lia. }
      destruct (finish_finite _ _ _ _ Hr Hrd ltac:(lia)) as [Hfin Hmag].
      split; [|done]. rewrite Hmag. lia. }
  destruct (div_bound (raw' - mn) (mx - mn) 55 Fa Hd Hdpos ltac:(lia) Hamag) as [Fq Hq].
  split; [done|]. exact Hq.
Qed.

Lemma falsy_false (p : float) : falsy p = false -> is_nan p = false /\ (p =? 0)%float = false.
Proof. unfold falsy. cbn [num_isNaN num_strict_eq num_zero number]. apply orb_false_elim. Qed.

(** A price of a series lies between the [min] and [max] of its component. *)
Lemma minMax_of_between comp (prices_of : string -> list (float * float)) (c : string) (p : float) :
  is_finite (snd (minMax_of comp prices_of c) - fst (minMax_of comp prices_of c)) = true ->
  p ∈ map snd (prices_of c) -> falsy p = false ->
  is_finite p = true
  /\ float_signed (fst (minMax_of comp prices_of c)) <= float_signed p
     <= float_signed (snd (minMax_of comp prices_of c)).
Proof.
  intros Hd Hp Hfalsy. destruct (sub_finite_inv _ _ Hd) as [Fmx Fmn]. clear Hd.
  destruct (falsy_false p Hfalsy) as [Hnan Hnz].
  assert (0 < length (prices_of c))%nat as Hlen.
  { destruct (prices_of c); [by apply elem_of_nil in Hp|cbn [length]; lia]. }
  destruct comp; cbn [minMax_of] in *.
  - unfold EthChart_minMax_of in *. cbn [fst snd] in *.
    destruct (finite_extremes _ Fmn Fmx) as (_ & _ & Hall). by apply Hall.
  - unfold CryptoChart_minMax_of in *.
    destruct (decide (0 < length (prices_of c))%nat) as [_|Hempty]; [|lia].
    cbv zeta in *. cbn [fst snd] in *.
    remember (map snd (prices_of c)) as P eqn:EP.
    assert (Forall (fun q : float => num_isNaN q = false) P) as Hnum.
    { apply Forall_forall. intros q Hq. cbn [num_isNaN number].
      destruct (is_nan q) eqn:Hq'; [|done].
      rewrite nan_not_finite in Fmx; [done|]. apply Math_max_nan.
      apply Exists_exists. eauto. }
    assert (P <> []) as Hne by (intros ->; by apply elem_of_nil in Hp).
    destruct (Math_max_spec P Hne Hnum) as (_ & _ & Hmax_le).
    assert (p ∈ CryptoChart.validPrices P) as Hvalid.
    { unfold CryptoChart.validPrices. apply list_elem_of_filter. split; [|done].
      cbn [num_isNaN num_strict_eq num_zero number]. by rewrite Hnan, Hnz. }
    destruct (decide (0 < length (CryptoChart.validPrices P))%nat) as [_|Hnone].
    2:{ destruct (CryptoChart.validPrices P); [by apply elem_of_nil in Hvalid|].
        cbn [length] in Hnone. lia. }
    assert (CryptoChart.validPrices P <> []) as Hne' by (intros Heq; rewrite Heq in Hvalid; by apply elem_of_nil in Hvalid).
    destruct (Math_min_spec _ Hne' (validPrices_are_numbers P)) as (_ & _ & Hmin_le).
    rewrite Forall_forall in Hmin_le, Hmax_le.
    apply between_finite; auto.
Qed.

Lemma bounded_abs (v : float) :
  bounded 56 v -> is_finite v = true /\ (abs v <=? 0x1p56)%float = true.
Proof.
  intros [Hfin Hmag]. split; [done|].
  assert (nonneg_finite (abs v) = true /\ float_units (abs v) = float_mag v) as [Hnn Hu].
  { unfold nonneg_finite, float_units, float_mag. rewrite abs_spec.
    rewrite is_finite_spec in Hfin. by destruct (Prim2SF v) as [s|s| |s m e]. }
  rewrite nonneg_finite_leb by done. apply Z.leb_le. by rewrite Hu.
Qed.

(** X2. Whatever the fetched prices are, NaN and the infinities included, the
    number stored for a coin in a row of either component is finite and at
    most [2^56] in absolute value (the table is built when no series is longer
    than the engine can pass in one call). *)
Theorem stored_numbers_are_finite comp (prices_of : string -> list (float * float))
    (i : nat) (c : string) (index : nat) :
  within_limit argument_limit comp prices_of = true ->
  EthChart.coins !! i = Some c ->
  (index < length (prices_of "bitcoin"%string))%nat ->
  exists table v,
    table_of argument_limit toLocaleDateString comp prices_of = inr table
    /\ cell_of table index (coinKey c) = Some (VNumber v)
    /\ is_nan v = false /\ is_finite v = true /\ (abs v <=? 0x1p56)%float = true.
Proof.
  intros Hfits Hc Hindex.
  destruct (table_cell toLocaleDateString argument_limit comp prices_of i c index Hfits Hc Hindex)
    as (table & Htable & _ & Hcell).
  eexists table, _. split; [done|]. split; [exact Hcell|].
  assert (bounded 56 (normalize (or_zero (snd <$> prices_of c !! index))
                                (fst (minMax_of comp prices_of c))
                                (snd (minMax_of comp prices_of c)))) as Hb.
  { apply normalize_bounded_between. intros Hd p Hp Hfalsy.
    apply minMax_of_between; [done| |done].
    rewrite <- lookup_map in Hp. by eapply list_elem_of_lookup_2. }
  destruct (bounded_abs _ Hb) as [Hfin Habs].
  split; [by apply finite_is_a_number|]. by split.
Qed.
End StoredNumbers.

Section DegenerateSeries.
Import Binary64 Binary64Facts Rounding Magnitude.
Variable argument_limit : nat.
Variable toLocaleDateString : float -> string.

Lemma normalize_nan_max (raw mn mx : float) : is_nan mx = true -> normalize raw mn mx = 0%float.
Proof.
  rewrite is_nan_spec. intros Hmx. unfold normalize.
  cbn [num_isNaN num_strict_eq num_zero num_half num_sub num_div number].
  assert ((mx =? mn)%float = false) as ->.
  { rewrite FloatAxioms.eqb_spec. by destruct (Prim2SF mx). }
  assert (is_nan ((raw - mn) / (mx - mn)) = true) as ->; [|done].
  rewrite is_nan_spec, div_spec, !sub_spec.
  destruct (Prim2SF mx); try discriminate. by destruct (SF64sub (Prim2SF raw) (Prim2SF mn)).
Qed.

(** X3. A single NaN among the prices of a coin makes [max] NaN in both
    components: the coin then gets 0 in every row, also where its price is a
    number. *)
Theorem nan_price_zeroes_the_coin comp (prices_of : string -> list (float * float))
    (i : nat) (c : string) (index : nat) :
  within_limit argument_limit comp prices_of = true ->
  EthChart.coins !! i = Some c ->
  Exists (fun p => is_nan p = true) (map snd (prices_of c)) ->
  (index < length (prices_of "bitcoin"%string))%nat ->
  exists table,
    table_of argument_limit toLocaleDateString comp prices_of = inr table
    /\ cell_of table index (coinKey c) = Some (VNumber 0%float).
Proof.
  intros Hfits Hc Hnan Hindex.
  destruct (table_cell toLocaleDateString argument_limit comp prices_of i c index Hfits Hc Hindex)
    as (table & Htable & _ & Hcell).
  exists table. split; [done|]. rewrite Hcell. do 2 f_equal.
  apply normalize_nan_max.
  assert (0 < length (prices_of c))%nat as Hlen.
  { destruct (prices_of c); [by apply Exists_nil in Hnan|cbn [length]; lia]. }
  destruct comp; cbn [minMax_of].
  - unfold EthChart_minMax_of. cbn [snd]. by apply Math_max_nan.
  - unfold CryptoChart_minMax_of.
    destruct (decide (0 < length (prices_of c))%nat) as [_|Hempty]; [|lia].
    cbv zeta. cbn [snd]. by apply Math_max_nan.
Qed.

(** X4. A coin other than the first whose series is empty: [EthChart] normalises
    the default price 0 with [min = Infinity] and [max = -Infinity], which
    gives NaN and so 0; [CryptoChart] replaces the series by 365 zeros and
    stores 0.5. *)
Theorem empty_series_row comp (prices_of : string -> list (float * float))
    (i : nat) (c : string) (index : nat) :
  within_limit argument_limit comp prices_of = true ->
  EthChart.coins !! i = Some c ->
  prices_of c = [] ->
  (index < length (prices_of "bitcoin"%string))%nat ->
  exists table,
    table_of argument_limit toLocaleDateString comp prices_of = inr table
    /\ cell_of table index (coinKey c)
       = Some (VNumber (match comp with Eth => 0 | Crypto => 0.5 end)%float).
Proof.
  intros Hfits Hc Hempty Hindex.
  destruct (table_cell toLocaleDateString argument_limit comp prices_of i c index Hfits Hc Hindex)
    as (table & Htable & _ & Hcell).
  exists table. split; [done|]. rewrite Hcell. do 2 f_equal.
  destruct comp; cbn [minMax_of].
  - unfold EthChart_minMax_of. rewrite Hempty. reflexivity.
  - unfold CryptoChart_minMax_of. rewrite Hempty. vm_compute. reflexivity.
Qed.
End DegenerateSeries.

Section Agreement.
Import Binary64.
Variable argument_limit : nat.
Variable toLocaleDateString : float -> string.

(** X6. The two components build the same table when no series is empty and no
    price is NaN or 0: only then does [CryptoChart]'s filter leave the minimum
    as it is. *)
Theorem components_agree (prices_of : string -> list (float * float)) :
  (forall c, c ∈ EthChart.coins ->
     prices_of c <> []
     /\ Forall (fun p => is_nan p = false /\ (p =? 0)%float = false) (map snd (prices_of c))) ->
  table_of argument_limit toLocaleDateString Eth prices_of
  = table_of argument_limit toLocaleDateString Crypto prices_of.
Proof.
  intros Hall. cbn [table_of]. rewrite EthChart_combinedData, CryptoChart_table.
  assert (within_limit argument_limit Crypto prices_of
          = within_limit argument_limit Eth prices_of) as ->.
  { unfold within_limit. f_equal. cbn [spread_arrays].
    unfold CryptoChart.rawPrices, CryptoChart.results_of, EthChart.results_of.
    change CryptoChart.coins with EthChart.coins. rewrite !map_map. cbn [prices].
    apply map_ext_in. intros c Hc%list_elem_of_In.
    destruct (Hall c Hc) as [Hne _].
    destruct (decide (0 < length (prices_of c))%nat) as [_|Hempty]; [done|].
    destruct (prices_of c); [done|cbn [length] in Hempty; lia]. }
  destruct (within_limit argument_limit Eth prices_of); [|done].
  f_equal. apply imap_ext. intros index timestamp _.
  assert (forall c, c ∈ EthChart.coins ->
          minMax_of Crypto prices_of c = minMax_of Eth prices_of c) as Hsame.
  { intros c Hc. destruct (Hall c Hc) as [Hne Hprices].
    assert (Forall (fun p : float => num_isNaN p = false) (map snd (prices_of c))) as Hnum.
    { eapply Forall_impl; [exact Hprices|]. by intros p [Hp _]. }
    assert (Forall (fun p : float => (p === num_zero)%js = false) (map snd (prices_of c))) as Hnz.
    { eapply Forall_impl; [exact Hprices|]. by intros p [_ Hp]. }
    by rewrite (minMax_of_no_zero Crypto prices_of c Hne Hnum),
               (minMax_of_no_zero Eth prices_of c Hne Hnum). }
  change (EthChart_minMax_of prices_of) with (minMax_of Eth prices_of).
  change (CryptoChart_minMax_of prices_of) with (minMax_of Crypto prices_of).
  unfold row_of. cbn [foldl EthChart.coins].
  rewrite !Hsame by set_solver. done.
Qed.
End Agreement.

Section Lines.
Import Binary64.
Variable argument_limit : nat.
Variable toLocaleDateString : float -> string.

(** X7. The lines of the two charts, for tables that are built (no series
    longer than the engine can pass in one call). Each of the five lines of
    [CryptoChart] reads
    a number in every row: its [dataKey]s are the names the rows are built
    with. Of the five lines of [EthChart] only ["eth"] and ["sol"] do; the
    lines ["btc"], ["bnb"] and ["ada"] read [undefined] in every row. *)
Theorem chart_lines (prices_of : string -> list (float * float)) :
  within_limit argument_limit Crypto prices_of = true ->
  within_limit argument_limit Eth prices_of = true ->
  CryptoChart.dataKeys = map coinKey CryptoChart.coins
  /\ exists crypto_table eth_table,
       table_of argument_limit toLocaleDateString Crypto prices_of = inr crypto_table
       /\ table_of argument_limit toLocaleDateString Eth prices_of = inr eth_table
       /\ (forall key, key ∈ CryptoChart.dataKeys ->
             Forall (fun v => exists x, v = VNumber x) (line_points crypto_table key))
       /\ (forall key, key ∈ ["eth"; "sol"]%string ->
             Forall (fun v => exists x, v = VNumber x) (line_points eth_table key))
       /\ (forall key, key ∈ EthChart.dataKeys -> key ∉ ["eth"; "sol"]%string ->
             Forall (fun v => v = VUndefined) (line_points eth_table key)).
Proof.
  intros Hfits Hfits'. split; [reflexivity|]. eexists _, _.
  split; [by apply table_of_eq|]. split; [by apply table_of_eq|].
  assert (forall comp key, key ∈ CryptoChart.dataKeys ->
          Forall (fun v : value float => exists x, v = VNumber x)
            (line_points (imap (fun index timestamp =>
                                  row_of (minMax_of comp prices_of) prices_of
                                         (toLocaleDateString timestamp) index)
                               (map fst (prices_of "bitcoin"%string))) key)) as Hnumbers.
  { intros comp key Hkey. unfold line_points. apply Forall_map, Forall_imap_intro.
    intros index timestamp.
    assert (exists i c, EthChart.coins !! i = Some c /\ key = coinKey c) as (i & c & Hc & ->).
    { unfold CryptoChart.dataKeys in Hkey.
      repeat (apply elem_of_cons in Hkey as [->|Hkey]);
        [by exists 0%nat, "bitcoin"%string | by exists 1%nat, "ethereum"%string
        | by exists 2%nat, "binancecoin"%string | by exists 3%nat, "solana"%string
        | by exists 4%nat, "cardano"%string | by apply elem_of_nil in Hkey]. }
    unfold get. rewrite (row_of_lookup _ _ _ _ i c Hc). cbn [default]. eauto. }
  split; [by apply Hnumbers|]. split.
  - intros key Hkey. apply (Hnumbers Eth). unfold CryptoChart.dataKeys. set_solver.
  - intros key Hkey Hnot. unfold line_points. apply Forall_map, Forall_imap_intro.
    intros index timestamp. unfold get.
    rewrite row_of_lookup_absent; [done|]. unfold EthChart.dataKeys in Hkey. set_solver.
Qed.
End Lines.

Section ShortColumn.
Import Binary64 Binary64Facts.

Lemma add_nan_l (a b : float) : is_nan a = true -> is_nan (a + b) = true.
Proof. rewrite !is_nan_spec, add_spec. by destruct (Prim2SF a). Qed.

Lemma add_nan_r (a b : float) : is_nan b = true -> is_nan (a + b) = true.
Proof. rewrite !is_nan_spec, add_spec. by destruct (Prim2SF a), (Prim2SF b). Qed.

Lemma fold_add_nan (l : list float) (acc : float) :
  is_nan acc = true -> is_nan (fold_left PrimFloat.add l acc) = true.
Proof.
  revert acc. induction l as [|x l IH]; intros acc Hacc; [done|].
  cbn [fold_left]. by apply IH, add_nan_l.
Qed.

(** A sum with a NaN term is NaN. *)
Lemma reduce_sum_nan (l : list float) :
  Exists (fun x => is_nan x = true) l -> is_nan (reduce_sum l) = true.
Proof.
  unfold reduce_sum. cbn [num_add num_zero number]. generalize 0%float.
  induction l as [|x l IH]; intros acc HE; [by apply Exists_nil in HE|].
  cbn [fold_left]. apply Exists_cons in HE as [Hx|Htail]; [|by apply IH].
  by apply fold_add_nan, add_nan_r.
Qed.

(** X8. [pearsonCorrelation] does not check that its two arguments have the same
    length: when [y] is shorter than [x], [y[i]] is [undefined] for the last
    indices, the sum of products is NaN, and the result is NaN, unless the
    denominator is 0 and the result is 0. *)
Theorem pearsonCorrelation_short_y (x y : list float) :
  (length y < length x)%nat ->
  EthChart.pearsonCorrelation x y = 0%float
  \/ is_nan (EthChart.pearsonCorrelation x y) = true.
Proof.
  intros Hshort. unfold EthChart.pearsonCorrelation. cbv zeta.
  cbn [num_strict_eq num_zero num_sub num_div number].
  match goal with |- context [if ?d then _ else _] => destruct d end; [by left|right].
  assert (is_nan (reduce_sum (imap (fun i val => (val * at_index y i)%js) x)) = true) as Hsum.
  { apply reduce_sum_nan, Exists_exists.
    destruct (lookup_lt_is_Some_2 x (length y) Hshort) as [xv Hxv].
    exists (xv * nan)%float. split.
    - apply list_elem_of_lookup. exists (length y). rewrite list_lookup_imap, Hxv.
      cbn [fmap option_fmap option_map]. unfold at_index.
      by rewrite lookup_ge_None_2.
    - rewrite is_nan_spec, mul_spec. by destruct (Prim2SF xv). }
  rewrite is_nan_spec in Hsum |- *. rewrite div_spec, sub_spec.
  destruct (Prim2SF (reduce_sum _)); try discriminate. reflexivity.
Qed.
End ShortColumn.


Lemma failed_request_aborts_the_run_witness :
  exists failed message,
    failed ∈ EthChart.coins
    /\ Fetch.fetchCoin Samples.limited_network failed = inl message
    /\ EthChart.run Samples.argument_limit Samples.no_date Samples.typeError_message
         Samples.rangeError_message Samples.limited_network [4; 3; 2; 1; 0]%nat
         Samples.loaded
       = {| EthChart.data := Samples.sample_table; EthChart.correlationMatrix := [];
            EthChart.isLoading := false; EthChart.error := Some message |}
    /\ EthChart.render (EthChart.run Samples.argument_limit Samples.no_date Samples.typeError_message
         Samples.rangeError_message Samples.limited_network [4; 3; 2; 1; 0]%nat
                   Samples.loaded)
       = (if decide (message = EmptyString) then Chart Samples.sample_table else ErrorView message)
    /\ CryptoChart.run Samples.argument_limit Samples.no_date Samples.typeError_message
         Samples.rangeError_message Samples.limited_network [4; 3; 2; 1; 0]%nat
         Samples.loaded'
       = {| CryptoChart.data := Samples.sample_table; CryptoChart.isLoading := false; CryptoChart.error := Some message |}
    /\ CryptoChart.render (CryptoChart.run Samples.argument_limit Samples.no_date Samples.typeError_message
         Samples.rangeError_message Samples.limited_network [4; 3; 2; 1; 0]%nat
                   Samples.loaded')
       = (if decide (message = EmptyString) then Chart Samples.sample_table else ErrorView message).
Proof.
  apply (failed_request_aborts_the_run Samples.argument_limit Samples.no_date Samples.typeError_message
         Samples.rangeError_message Samples.limited_network
           [4; 3; 2; 1; 0]%nat "ethereum"%string Samples.loaded Samples.loaded').
  - set_solver.
  - intros i Hi. do 5 (destruct i as [|i]; [set_solver|]). lia.
  - intros statusText body_prices Heq. vm_compute in Heq. discriminate.
Defined.

Lemma answered_requests_show_the_chart_witness :
  exists table table',
    table_of Samples.argument_limit Samples.no_date Eth (Fetch.prices_of Samples.network) = inr table
    /\ table_of Samples.argument_limit Samples.no_date Crypto (Fetch.prices_of Samples.network) = inr table'
    /\ EthChart.run Samples.argument_limit Samples.no_date Samples.typeError_message
         Samples.rangeError_message Samples.network [4; 3; 2; 1; 0]%nat Samples.loaded
       = {| EthChart.data := table;
            EthChart.correlationMatrix := EthChart.calculateCorrelationMatrix table;
            EthChart.isLoading := false; EthChart.error := None |}
    /\ EthChart.render (EthChart.run Samples.argument_limit Samples.no_date Samples.typeError_message
         Samples.rangeError_message Samples.network [4; 3; 2; 1; 0]%nat
                   Samples.loaded) = Chart table
    /\ CryptoChart.run Samples.argument_limit Samples.no_date Samples.typeError_message
         Samples.rangeError_message Samples.network [4; 3; 2; 1; 0]%nat Samples.loaded'
       = {| CryptoChart.data := table'; CryptoChart.isLoading := false; CryptoChart.error := None |}
    /\ CryptoChart.render (CryptoChart.run Samples.argument_limit Samples.no_date Samples.typeError_message
         Samples.rangeError_message Samples.network [4; 3; 2; 1; 0]%nat
                   Samples.loaded') = Chart table'.
Proof.
  apply (answered_requests_show_the_chart Samples.argument_limit Samples.no_date Samples.typeError_message
         Samples.rangeError_message Samples.network
           [4; 3; 2; 1; 0]%nat Samples.loaded Samples.loaded').
  - intros c Hc. repeat (apply elem_of_cons in Hc as [->|Hc]);
      [eexists _, _; vm_compute; reflexivity..|by apply elem_of_nil in Hc].
  - reflexivity.
  - reflexivity.
Defined.

Lemma stored_numbers_are_finite_witness :
  exists table v,
    table_of Samples.argument_limit Samples.no_date Crypto Samples.sample_prices = inr table
    /\ cell_of table 0 (coinKey "ethereum"%string) = Some (VNumber v)
    /\ is_nan v = false /\ is_finite v = true /\ (abs v <=? 0x1p56)%float = true.
Proof.
  apply (stored_numbers_are_finite Samples.argument_limit Samples.no_date Crypto Samples.sample_prices
           1 "ethereum"%string 0); [reflexivity|reflexivity|vm_compute; lia].
Defined.

Lemma nan_price_zeroes_the_coin_witness :
  exists table,
    table_of Samples.argument_limit Samples.no_date Crypto Samples.nan_prices = inr table
    /\ cell_of table 0 (coinKey "solana"%string) = Some (VNumber 0%float).
Proof.
  apply (nan_price_zeroes_the_coin Samples.argument_limit Samples.no_date Crypto Samples.nan_prices
           3 "solana"%string 0); [reflexivity|reflexivity| |vm_compute; lia].
  apply Exists_cons_tl, Exists_cons_hd. reflexivity.
Defined.

Lemma empty_series_row_witness :
  exists table,
    table_of Samples.argument_limit Samples.no_date Crypto Samples.empty_prices = inr table
    /\ cell_of table 2 (coinKey "cardano"%string) = Some (VNumber 0.5%float).
Proof.
  apply (empty_series_row Samples.argument_limit Samples.no_date Crypto Samples.empty_prices
           4 "cardano"%string 2); [reflexivity|reflexivity|reflexivity|vm_compute; lia].
Defined.

Lemma components_agree_witness :
  table_of Samples.argument_limit Samples.no_date Eth Samples.positive_prices
  = table_of Samples.argument_limit Samples.no_date Crypto Samples.positive_prices.
Proof.
  apply (components_agree Samples.argument_limit Samples.no_date Samples.positive_prices).
  intros c Hc. repeat (apply elem_of_cons in Hc as [->|Hc]);
    [(split; [discriminate|repeat constructor])..|by apply elem_of_nil in Hc].
Defined.

Lemma pearsonCorrelation_short_y_witness :
  EthChart.pearsonCorrelation [1; 2]%float [1]%float = 0%float
  \/ is_nan (EthChart.pearsonCorrelation [1; 2]%float [1]%float) = true.
Proof. apply (pearsonCorrelation_short_y [1; 2]%float [1]%float). cbn. lia. Defined.

Section ZeroRawPrice.
Import Binary64 Binary64Facts Rounding Magnitude.
Local Open Scope Z_scope.
Variable argument_limit : nat.
Variable toLocaleDateString : float -> string.

Lemma nonneg_finite_signed (x : float) :
  nonneg_finite x = true ->
  is_finite x = true /\ float_mag x = float_units x /\ float_signed x = float_units x.
Proof.
  unfold nonneg_finite. rewrite is_finite_spec. unfold float_mag, float_signed, float_units.
  by destruct (Prim2SF x) as [s|s| |[] m e].
Qed.

(** The raw price 0 normalised with [0 <= min < max]. *)
Lemma normalize_zero_raw (mn mx : float) :
  nonneg_finite mn = true -> nonneg_finite mx = true -> float_units mn < float_units mx ->
  (normalize 0 mn mx <=? 0)%float = true.
Proof.
  intros Hmn Hmx Hlt. unfold normalize.
  cbn [num_isNaN num_strict_eq num_zero num_half num_sub num_div number].
  rewrite (nonneg_finite_eqb mx mn Hmx Hmn), (proj2 (Z.eqb_neq _ _)) by lia.
  destruct (sub_units mx mn Hmx Hmn ltac:(lia)) as [Hd Hud].
  assert (0 < float_units (mx - mn)) as Hdpos by (rewrite Hud; apply rn_pos; lia).
  destruct (nonneg_finite_signed mn Hmn) as (Fmn & Mmn & Smn).
  destruct (nonneg_finite_signed mx Hmx) as (Fmx & Mmx & Smx).
  pose proof (spacing mn mx Fmn Fmx ltac:(lia)) as Hsp.
  rewrite Mmn, Smn, Smx in Hsp.
  replace (Z.abs (float_units mn - float_units mx)) with (float_units mx - float_units mn) in Hsp by lia.
  pose proof (rn_at_least_half (float_units mx - float_units mn) ltac:(lia)) as Hhalf.
  rewrite <- Hud in Hhalf.
  assert ((exists s, Prim2SF ((0 - mn) / (mx - mn)) = S754_zero s)
          \/ exists p e', Prim2SF ((0 - mn) / (mx - mn)) = S754_finite true p e') as Hcases.
  { unfold float_units in Hdpos, Hsp, Hhalf.
    destruct (nonneg_finite_cases mn Hmn) as [[sn En]|(mn' & en & En & Cn)],
             (nonneg_finite_cases (mx - mn) Hd) as [[sd Ed]|(md & ed & Ed & Cd)];
      rewrite ?En, ?Ed in *; cbn [sf_units] in *; try lia.
    - left. exists false. rewrite div_spec, Ed, sub_spec, En. by destruct sn.
    - destruct (SFdiv_bound true false mn' en md ed 55 Cn Cd ltac:(lia)) as (m & e & Hr & Hm & He & Hu).
      { change (2 ^ 55) with (2 ^ 54 * 2). lia. }
      assert (Prim2SF ((0 - mn) / (mx - mn)) = finish true m e) as Hq
        by (by rewrite div_spec, Ed, sub_spec, En).
      destruct (finish_finite_le _ true m e 56 Hq Hm He Hu ltac:(lia)) as [Hfin _].
      rewrite is_finite_spec, Hq in Hfin. rewrite Hq. unfold finish in *.
      destruct m as [|p|p]; [left; eauto|right|lia].
      destruct (e <=? emax - prec); [eauto|discriminate]. }
  rewrite is_nan_spec.
  destruct Hcases as [[s Hz]|(p & e' & Hf)].
  - rewrite Hz. cbn [is_nan_sf]. by rewrite leb_spec, Hz.
  - rewrite Hf. cbn [is_nan_sf]. by rewrite leb_spec, Hf.
Qed.

(** For a non-empty series of finite non-negative prices, [min] and [max] are
    finite and non-negative, and [min <= max], in both components. *)
Lemma minMax_of_nonneg comp (prices_of : string -> list (float * float)) (c : string) :
  Forall (fun p => nonneg_finite p = true) (map snd (prices_of c)) -> prices_of c <> [] ->
  nonneg_finite (fst (minMax_of comp prices_of c)) = true
  /\ nonneg_finite (snd (minMax_of comp prices_of c)) = true
  /\ float_units (fst (minMax_of comp prices_of c)) <= float_units (snd (minMax_of comp prices_of c)).
Proof.
  intros Hnn Hne.
  assert (0 < length (prices_of c))%nat as Hlen.
  { destruct (prices_of c); [done|cbn [length]; lia]. }
  remember (map snd (prices_of c)) as P eqn:EP.
  assert (P <> []) as HneP by (rewrite EP; by destruct (prices_of c)).
  assert (Forall (fun p : float => num_isNaN p = false) P) as Hnum.
  { eapply Forall_impl; [exact Hnn|]. intros p. apply nonneg_finite_is_a_number. }
  destruct (Math_min_spec P HneP Hnum) as (_ & Hmin_in & _).
  destruct (Math_max_spec P HneP Hnum) as (_ & Hmax_in & Hmax_le).
  rewrite Forall_forall in Hnn, Hmax_le.
  assert (forall p, p ∈ P -> float_units p <= float_units (Math_max P)) as Hle.
  { intros p Hp. specialize (Hmax_le p Hp). cbn [num_lt number] in Hmax_le.
    rewrite nonneg_finite_ltb in Hmax_le by auto. apply Z.ltb_ge in Hmax_le. lia. }
  destruct comp; cbn [minMax_of].
  - unfold EthChart_minMax_of. rewrite <- EP. cbn [fst snd]. auto.
  - unfold CryptoChart_minMax_of.
    destruct (decide (0 < length (prices_of c))%nat) as [_|Hempty]; [|lia].
    cbv zeta. rewrite <- EP. cbn [fst snd].
    destruct (decide (0 < length (CryptoChart.validPrices P))%nat) as [Hvalid|Hnone].
    + assert (CryptoChart.validPrices P <> []) as Hne'
        by (destruct (CryptoChart.validPrices P); [cbn [length] in Hvalid; lia|done]).
      destruct (Math_min_spec _ Hne' (validPrices_are_numbers P)) as (_ & Hin & _).
      apply list_elem_of_filter in Hin as [_ Hin]. auto.
    + split; [reflexivity|]. split; [auto|]. apply float_units_nonneg. auto.
Qed.

(** X5. Where the raw price is 0, because the series has no entry at the row or
    because the price is 0, the number stored is at most 0, for a series of
    finite non-negative prices with [min] different from [max]: such a point
    is never drawn inside the chart's range above 0. *)
Theorem zero_raw_price_not_above_zero comp (prices_of : string -> list (float * float))
    (i : nat) (c : string) (index : nat) (min max : float) :
  EthChart.coins !! i = Some c ->
  (index < length (prices_of "bitcoin"%string))%nat ->
  Forall (fun p => nonneg_finite p = true) (map snd (prices_of c)) ->
  (forall p, snd <$> prices_of c !! index = Some p -> (p =? 0)%float = true) ->
  minMax_entry argument_limit comp prices_of i = Some (min, max) ->
  (max =? min)%float = false ->
  exists table v,
    table_of argument_limit toLocaleDateString comp prices_of = inr table
    /\ cell_of table index (coinKey c) = Some (VNumber v)
    /\ (v <=? 0)%float = true.
Proof.
  intros Hc Hindex Hnn Hzero Hmm Hdiff.
  apply (minMax_entry_inv argument_limit comp prices_of i c _ Hc) in Hmm as [Hfits Hmm].
  symmetry in Hmm.
  destruct (table_cell toLocaleDateString argument_limit comp prices_of i c index Hfits Hc Hindex)
    as (table & Htable & _ & Hcell).
  eexists table, _. split; [done|]. split; [exact Hcell|].
  assert (or_zero (snd <$> prices_of c !! index) = 0%float) as ->.
  { destruct (snd <$> prices_of c !! index) as [p|]; [|done]. cbn [or_zero].
    unfold falsy. cbn [num_isNaN num_strict_eq num_zero number].
    by rewrite (Hzero p eq_refl), orb_true_r. }
  destruct (decide (prices_of c = [])) as [Hempty|Hne].
  - destruct comp; cbn [minMax_of] in *.
    + unfold EthChart_minMax_of. rewrite Hempty. reflexivity.
    + unfold CryptoChart_minMax_of in Hmm. rewrite Hempty in Hmm.
      vm_compute in Hmm. injection Hmm as <- <-. discriminate.
  - destruct (minMax_of_nonneg comp prices_of c Hnn Hne) as (Hmn & Hmx & Hle).
    rewrite Hmm in *. cbn [fst snd] in *.
    rewrite nonneg_finite_eqb in Hdiff by done. apply Z.eqb_neq in Hdiff.
    apply normalize_zero_raw; [done|done|lia].
Qed.
End ZeroRawPrice.

Lemma zero_raw_price_not_above_zero_witness :
  exists table v,
    table_of Samples.argument_limit Samples.no_date Crypto Samples.sample_prices = inr table
    /\ cell_of table 0 (coinKey "ethereum"%string) = Some (VNumber v)
    /\ (v <=? 0)%float = true.
Proof.
  apply (zero_raw_price_not_above_zero Samples.argument_limit Samples.no_date Crypto Samples.sample_prices
           1 "ethereum"%string 0 50%float 100%float).
  - reflexivity.
  - vm_compute. lia.
  - repeat constructor.
  - intros p Hp. vm_compute in Hp. by injection Hp as <-.
  - reflexivity.
  - reflexivity.
Defined.

Lemma refused_request_is_reported_witness :
  exists c statusText body_prices,
    c ∈ EthChart.coins
    /\ Samples.limited_network (Fetch.url c) = Response false statusText body_prices
    /\ EthChart.render (EthChart.run Samples.argument_limit Samples.no_date Samples.typeError_message
         Samples.rangeError_message Samples.limited_network [4; 3; 2; 1; 0]%nat
                   Samples.loaded)
       = ErrorView ("Failed to fetch " ++ c ++ ": " ++ statusText)%string
    /\ CryptoChart.render (CryptoChart.run Samples.argument_limit Samples.no_date Samples.typeError_message
         Samples.rangeError_message Samples.limited_network [4; 3; 2; 1; 0]%nat
                   Samples.loaded')
       = ErrorView ("Failed to fetch " ++ c ++ ": " ++ statusText)%string.
Proof.
  apply (refused_request_is_reported Samples.argument_limit Samples.no_date Samples.typeError_message
         Samples.rangeError_message Samples.limited_network
           [4; 3; 2; 1; 0]%nat Samples.loaded Samples.loaded').
  - intros i Hi. do 5 (destruct i as [|i]; [set_solver|]). lia.
  - intros c Hc. repeat (apply elem_of_cons in Hc as [->|Hc]);
      [eexists _, _, _; vm_compute; reflexivity..|by apply elem_of_nil in Hc].
  - exists "ethereum"%string, "Too Many Requests"%string, None. split; [set_solver|reflexivity].
Defined.

Lemma table_rows_witness :
  exists table,
    table_of Samples.argument_limit Samples.no_date Eth Samples.short_prices = inr table
    /\ length table = length (Samples.short_prices "bitcoin"%string)
    /\ forall index entry, table !! index = Some entry ->
         dom entry = ({[ "date"; "bit"; "eth"; "bin"; "sol"; "car" ]} : gset string)%string
         /\ exists timestamp,
              fst <$> Samples.short_prices "bitcoin"%string !! index = Some timestamp
              /\ entry !! "date"%string = Some (VString (Samples.no_date timestamp)).
Proof.
  apply (table_rows Samples.argument_limit Samples.no_date Eth Samples.short_prices).
  reflexivity.
Defined.

Lemma chart_lines_witness :
  CryptoChart.dataKeys = map coinKey CryptoChart.coins
  /\ exists crypto_table eth_table,
       table_of Samples.argument_limit Samples.no_date Crypto Samples.sample_prices
       = inr crypto_table
       /\ table_of Samples.argument_limit Samples.no_date Eth Samples.sample_prices
          = inr eth_table
       /\ (forall key, key ∈ CryptoChart.dataKeys ->
             Forall (fun v => exists x, v = VNumber x) (line_points crypto_table key))
       /\ (forall key, key ∈ ["eth"; "sol"]%string ->
             Forall (fun v => exists x, v = VNumber x) (line_points eth_table key))
       /\ (forall key, key ∈ EthChart.dataKeys -> key ∉ ["eth"; "sol"]%string ->
             Forall (fun v => v = VUndefined) (line_points eth_table key)).
Proof.
  apply (chart_lines Samples.argument_limit Samples.no_date Samples.sample_prices);
    reflexivity.
Defined.

Lemma long_series_aborts_the_run_witness :
  table_of Samples.argument_limit Samples.no_date Eth (Fetch.prices_of Samples.long_network)
  = inl RangeError
  /\ table_of Samples.argument_limit Samples.no_date Crypto (Fetch.prices_of Samples.long_network)
     = inl RangeError
  /\ EthChart.run Samples.argument_limit Samples.no_date Samples.typeError_message
       Samples.rangeError_message Samples.long_network [4; 3; 2; 1; 0]%nat Samples.loaded
     = {| EthChart.data := EthChart.data Samples.loaded;
          EthChart.correlationMatrix := EthChart.correlationMatrix Samples.loaded;
          EthChart.isLoading := false; EthChart.error := Some Samples.rangeError_message |}
  /\ EthChart.render
       (EthChart.run Samples.argument_limit Samples.no_date Samples.typeError_message
          Samples.rangeError_message Samples.long_network [4; 3; 2; 1; 0]%nat Samples.loaded)
     = (if decide (Samples.rangeError_message = EmptyString)
        then Chart (EthChart.data Samples.loaded) else ErrorView Samples.rangeError_message)
  /\ CryptoChart.run Samples.argument_limit Samples.no_date Samples.typeError_message
       Samples.rangeError_message Samples.long_network [4; 3; 2; 1; 0]%nat Samples.loaded'
     = {| CryptoChart.data := CryptoChart.data Samples.loaded'; CryptoChart.isLoading := false;
          CryptoChart.error := Some Samples.rangeError_message |}
  /\ CryptoChart.render
       (CryptoChart.run Samples.argument_limit Samples.no_date Samples.typeError_message
          Samples.rangeError_message Samples.long_network [4; 3; 2; 1; 0]%nat Samples.loaded')
     = (if decide (Samples.rangeError_message = EmptyString)
        then Chart (CryptoChart.data Samples.loaded') else ErrorView Samples.rangeError_message).
Proof.
  apply (long_series_aborts_the_run Samples.argument_limit Samples.no_date
           Samples.typeError_message Samples.rangeError_message Samples.long_network
           [4; 3; 2; 1; 0]%nat Samples.loaded Samples.loaded').
  - intros c Hc. repeat (apply elem_of_cons in Hc as [->|Hc]);
      [eexists _, _; reflexivity..|by apply elem_of_nil in Hc].
  - reflexivity.
Defined.
